(** * DevConnect backend: real-time fan-out, presence, caching

    A shallow embedding of the services behind the real-time subsystem:
    the cache wrapper ([shared/utils/cache.ts]), the presence tracker
    ([modules/presence/presence.service.ts]), the pub/sub relay
    ([socket/pubsub.ts]), the socket handlers ([socket/chatHandlers.ts],
    [socket/notificationHandlers.ts]), and the chat, notification and post
    services.

    Asynchronous functions are embedded as computations in a state-and-
    exception monad over a [World]: the Redis server, the MongoDB
    collections, the Socket.IO server of the instance that runs the code,
    its log and the clock.  [await] is sequencing, [throw] and rejected
    promises are the [Throw] outcome, [try]/[catch] is [try_catch]. *)

From stdpp Require Import gmap strings list sorting pretty.
From Stdlib Require Import Ascii.

Open Scope string_scope.
Open Scope nat_scope.
Open Scope list_scope.

(** ** JavaScript helpers *)

(** [!s] on an optional string: [undefined] and the empty string are falsy. *)
Definition truthy (o : option string) : bool :=
  match o with
  | Some s => negb (String.eqb s "")
  | None => false
  end.

(** [a || b] on optional strings. *)
Definition or_else (o : option string) (d : string) : string :=
  if truthy o then default d o else d.

(** Strings hold the UTF-8 encoding of the text.

    White space removed by [String.prototype.trim] (WhiteSpace and
    LineTerminator of ECMAScript): the characters of one byte (TAB, LF,
    VT, FF, CR, SP), of two bytes (U+00A0) and of three bytes (U+1680,
    U+2000 to U+200A, U+2028, U+2029, U+202F, U+205F, U+3000, U+FEFF). *)
Definition is_space (c : ascii) : bool :=
  match c with
  | " "%char | "009"%char | "010"%char | "011"%char | "012"%char | "013"%char => true
  | _ => false
  end.

Definition is_space2 (c1 c2 : ascii) : bool :=
  (nat_of_ascii c1 =? 194) && (nat_of_ascii c2 =? 160).

Definition is_space3 (c1 c2 c3 : ascii) : bool :=
  let a := nat_of_ascii c1 in
  let b := nat_of_ascii c2 in
  let c := nat_of_ascii c3 in
  (a =? 225) && (b =? 154) && (c =? 128)
  || (a =? 226) && (b =? 128)
     && ((128 <=? c) && (c <=? 138) || (c =? 168) || (c =? 169) || (c =? 175))
  || (a =? 226) && (b =? 129) && (c =? 159)
  || (a =? 227) && (b =? 128) && (c =? 128)
  || (a =? 239) && (b =? 187) && (c =? 191).

(** The string without the white space it starts with; [backwards] tells
    that the string is read from its end, the bytes of a character coming
    last byte first. *)
Fixpoint trim_from (backwards : bool) (s : string) : string :=
  match s with
  | String c1 s1 =>
      if is_space c1 then trim_from backwards s1
      else
        match s1 with
        | String c2 s2 =>
            if (if backwards then is_space2 c2 c1 else is_space2 c1 c2)
            then trim_from backwards s2
            else
              match s2 with
              | String c3 s3 =>
                  if (if backwards then is_space3 c3 c2 c1 else is_space3 c1 c2 c3)
                  then trim_from backwards s3
                  else s
              | EmptyString => s
              end
        | EmptyString => s
        end
  | EmptyString => EmptyString
  end.

Definition trim_start (s : string) : string := trim_from false s.

Definition trim (s : string) : string :=
  String.rev (trim_from true (String.rev (trim_start s))).

(** [s.length]: the number of UTF-16 code units of the text, one for a
    character of one to three bytes and two (a surrogate pair) for a
    character of four bytes.  Continuation bytes count for nothing. *)
Fixpoint js_length (s : string) : nat :=
  match s with
  | EmptyString => 0
  | String c s' =>
      let n := nat_of_ascii c in
      (if (128 <=? n) && (n <? 192) then 0 else if 240 <=? n then 2 else 1)
      + js_length s'
  end.

(** Characters matched by the regular-expression class [\w]. *)
Definition is_word_char (c : ascii) : bool :=
  let n := nat_of_ascii c in
  (48 <=? n) && (n <=? 57) || (65 <=? n) && (n <=? 90)
  || (97 <=? n) && (n <=? 122) || (n =? 95).

(** The order of [Array.prototype.sort] on (ASCII) strings. *)
Definition string_le (a b : string) : Prop := String.leb a b = true.
#[global] Instance string_le_dec a b : Decision (string_le a b).
Proof. unfold string_le. apply _. Defined.

(** The quotation mark of the notification messages. *)
Definition quotation_mark : string := String (ascii_of_nat 34) EmptyString.

(** [parts.join(sep)] *)
Fixpoint join (sep : string) (parts : list string) : string :=
  match parts with
  | [] => ""
  | [p] => p
  | p :: ps => p +:+ sep +:+ join sep ps
  end.

(** The glob patterns handed to Redis [SCAN ... MATCH]: a literal
    character matches itself and [*] matches any run of characters.  The
    patterns built by [CacheKeys] use no other metacharacter. *)
Fixpoint glob_match (pattern : string) : string → bool :=
  match pattern with
  | EmptyString => λ s, String.eqb s ""
  | String "*" p =>
      fix star (s : string) : bool :=
        glob_match p s ||
        match s with
        | EmptyString => false
        | String _ s' => star s'
        end
  | String c p => λ s,
        match s with
        | EmptyString => false
        | String d s' => Ascii.eqb c d && glob_match p s'
        end
  end.

(** ** Errors and outcomes *)

Inductive Error :=
  | ValidationError (message : string)   (* shared/types/errors.ts, 400 *)
  | NotFoundError (resource : string)    (* shared/types/errors.ts, 404 *)
  | JsError (message : string)           (* [new Error(message)] *)
  | TypeError (message : string)         (* property access on null *)
  | SyntaxError                          (* [JSON.parse] on malformed text *)
  | CastError (value : string)           (* Mongoose / BSON: not an ObjectId *)
  | SchemaError (message : string)       (* Mongoose schema validation *)
  | RedisError.                          (* a Redis command was rejected *)

Definition error_message (e : Error) : string :=
  match e with
  | ValidationError m => m
  | NotFoundError r => r +:+ " not found"
  | JsError m => m
  | TypeError m => m
  | SyntaxError => "Unexpected token in JSON"
  | CastError v => "Cast to ObjectId failed for value " +:+ v
  | SchemaError m => m
  | RedisError => "The client is closed"
  end.

Inductive Outcome (A : Type) :=
  | Return (a : A)
  | Throw (e : Error).
Arguments Return {A} a.
Arguments Throw {A} e.

Definition is_return {A} (o : Outcome A) : bool :=
  match o with Return _ => true | Throw _ => false end.

(** ** Enumerations of the data model *)

Inductive PresenceStatus := online | offline.
Inductive PostStatus := draft | published | archived.
Inductive ChatType := direct | group.
Inductive NotificationType := like | comment | mention | issue_assigned | message.
Inductive ResourceType := post | issue | comment_resource | message_resource.
Inductive SortBy := by_date | by_popularity | by_relevance.
Inductive LogLevel := log_debug | log_info | log_warn | log_error.

#[global] Instance PresenceStatus_eq_dec : EqDecision PresenceStatus.
Proof. solve_decision. Defined.
#[global] Instance PostStatus_eq_dec : EqDecision PostStatus.
Proof. solve_decision. Defined.
#[global] Instance ChatType_eq_dec : EqDecision ChatType.
Proof. solve_decision. Defined.
#[global] Instance NotificationType_eq_dec : EqDecision NotificationType.
Proof. solve_decision. Defined.
#[global] Instance LogLevel_eq_dec : EqDecision LogLevel.
Proof. solve_decision. Defined.

(** A Redis string holding a serialised value: [Json v] is the text
    [JSON.stringify v], on which [JSON.parse] gives [v] back; [Text s] is
    any other text, which [JSON.parse] rejects. *)
Inductive Stored (V : Type) :=
  | Json (v : V)
  | Text (s : string).
Arguments Json {V} v.
Arguments Text {V} s.

(** [!value] on a string read from Redis. *)
Definition stored_falsy {V} (v : Stored V) : bool :=
  match v with
  | Json _ => false
  | Text s => String.eqb s ""
  end.

(** A key with its value and, when set with [SETEX], its expiry time. *)
Record Entry (V : Type) := mkEntry {
  entry_value : Stored V;
  entry_expires : option nat;
}.
Arguments mkEntry {V} _ _.
Arguments entry_value {V} _.
Arguments entry_expires {V} _.

Definition entry_live {V} (now : nat) (e : Entry V) : bool :=
  match entry_expires e with
  | Some t => now <? t
  | None => true
  end.

(** [UserPresence] of presence.service.ts *)
Record UserPresence := mkUserPresence {
  userId : string;
  status : PresenceStatus;
  lastSeen : nat;
  socketId : option string;
}.

(** ** Documents, views and the world

    [ObjectId] is the identifier type of the MongoDB driver.  The driver's
    functions the services call are taken as they are: [toObjectId] is
    the cast of a string ([new Types.ObjectId(s)], Mongoose query casting;
    [None] when it throws), [oidToString] is [id.toString()], and
    [generateId] is the driver's supply of [_id]s for new documents. *)

Section DevConnect.

Context {ObjectId : Type} {ObjectId_eq_dec : EqDecision ObjectId}.
#[local] Set Default Proof Using "Type".
Variable toObjectId : string → option ObjectId.
Variable oidToString : ObjectId → string.
Variable generateId : nat → ObjectId.

(** [mongoose.Types.ObjectId.isValid(s)] *)
Definition isValid (s : string) : bool := bool_decide (is_Some (toObjectId s)).

Record User := mkUser {
  user_id : ObjectId;
  username : string;
  email : string;
  profile_name : option string;
  profile_avatar : option string;
}.

(** A user as [populate(path, select)] returns it; [uv_email] is present
    when the selection names [email]. *)
Record UserView := mkUserView {
  uv_id : ObjectId;
  uv_username : string;
  uv_email : option string;
  uv_name : option string;
  uv_avatar : option string;
}.

Record Post := mkPost {
  post_id : ObjectId;
  post_author : ObjectId;
  post_title : string;
  post_content : string;
  post_tags : list string;
  likes : list ObjectId;
  bookmarks : list ObjectId;
  commentCount : nat;
  viewCount : nat;
  post_status : PostStatus;
  post_createdAt : nat;
  post_updatedAt : nat;
}.

Record Comment := mkComment {
  comment_id : ObjectId;
  comment_author : ObjectId;
  comment_post : option ObjectId;
  comment_content : string;
  parentComment : option ObjectId;
  comment_createdAt : nat;
}.

Record Notification := mkNotification {
  notification_id : ObjectId;
  recipient : ObjectId;
  notification_type : NotificationType;
  actor : ObjectId;
  resource : option (ResourceType * option ObjectId);
  notification_message : string;
  isRead : bool;
  notification_createdAt : nat;
}.

Record Chat := mkChat {
  chat_id : ObjectId;
  chat_type : ChatType;
  chat_name : option string;
  participants : list ObjectId;
  lastMessage : option ObjectId;
  chat_createdAt : nat;
  chat_updatedAt : nat;
}.

Record Message := mkMessage {
  message_id : ObjectId;
  message_chat : ObjectId;
  sender : ObjectId;
  message_content : string;
  readBy : list ObjectId;
  message_createdAt : nat;
}.

(** A post with its author populated, as the read paths return it. *)
Record PostView := mkPostView {
  pv_post : Post;
  pv_author : option UserView;
  pv_score : option nat;
}.

(** [PaginatedPosts] of post.types.ts *)
Record PaginatedPosts := mkPaginatedPosts {
  posts : list PostView;
  total : nat;
  page : nat;
  totalPages : nat;
  hasMore : bool;
}.

(** What the post service keeps in the cache. *)
Inductive CacheDoc :=
  | DocPost (p : PostView)
  | DocPosts (r : PaginatedPosts).

Record CommentView := mkCommentView {
  cv_comment : Comment;
  cv_author : option UserView;
}.

Record NotificationView := mkNotificationView {
  nv_notification : Notification;
  nv_actor : option UserView;
}.

(** [SenderInfo] and [ParticipantInfo] of chat.types.ts (same shape) *)
Record UserInfo := mkUserInfo {
  ui_id : string;
  ui_username : string;
  ui_email : option string;
  ui_avatar : option string;
  ui_profile_name : string;
}.

Record MessageResponse := mkMessageResponse {
  mr_id : string;
  mr_chat : string;
  mr_sender : UserInfo;
  mr_content : string;
  mr_readBy : list string;
  mr_createdAt : nat;
}.

Record ChatResponse := mkChatResponse {
  cr_id : string;
  cr_type : ChatType;
  cr_name : option string;
  cr_participants : list UserInfo;
  cr_lastMessage : option MessageResponse;
  cr_createdAt : nat;
  cr_updatedAt : nat;
}.

(** Data carried by a Socket.IO event. *)
Inductive Payload :=
  | MessageData (m : MessageResponse)
  | TypingData (chatId : string) (user : string) (mail : option string)
  | PresenceData (user : string) (st : PresenceStatus) (timestamp : nat)
  | NotificationData (n : NotificationView).

(** [PubSubMessage] of pubsub.ts *)
Record PubSubMessage := mkPubSubMessage {
  msg_event : string;
  msg_data : Payload;
  msg_room : option string;
  msg_userId : option string;
}.

(** *** The Redis server

    One key space, seen in two parts by the type of what the keys hold:
    the records of the presence tracker (keys [presence:user:<id>]) and
    the snapshots of the cache service.  [DEL] and [SCAN] range over both.
    [faults] lists, for the commands still to come, whether the server
    rejects the command ([true]: connection lost or timed out); past the
    end of the list every command is served.  [channel_log] is the log of
    what went out on the pub/sub channels. *)
Record Redis := mkRedis {
  redisClient : bool;
  redisPublisher : bool;
  presenceKeys : gmap string (Entry UserPresence);
  cacheKeys : gmap string (Entry CacheDoc);
  redisSets : gmap string (gset string);
  channel_log : list (string * PubSubMessage);
  faults : list bool;
}.

(** *** The MongoDB collections, in insertion order *)
Record Mongo := mkMongo {
  user_docs : list User;
  post_docs : list Post;
  comment_docs : list Comment;
  notification_docs : list Notification;
  chat_docs : list Chat;
  message_docs : list Message;
  nextId : nat;
}.

(** *** The Socket.IO server of one instance *)
Record Socket := mkSocket {
  socket_id : string;
  socket_userId : option string;
  socket_email : option string;
  rooms : gset string;
  received : list (string * Payload);
}.

(** The handlers [initializePubSub] registers, by channel. *)
Inductive ChannelHandler := BroadcastRelay | RoomRelay | UserRelay.

(** [io] and [redisSubscriber] tell whether the module variables of that
    name are set; [listeners] are the listeners registered on the
    subscriber connection, by channel. *)
Record Local := mkLocal {
  io : bool;
  sockets : list Socket;
  redisSubscriber : bool;
  activeChannels : gmap string ChannelHandler;
  listeners : list (string * ChannelHandler);
  log : list (LogLevel * string);
}.

Record World := mkWorld {
  redis : Redis;
  mongo : Mongo;
  local : Local;
  now : nat;
}.

Definition set_redis (f : Redis → Redis) (w : World) : World :=
  mkWorld (f (redis w)) (mongo w) (local w) (now w).
Definition set_mongo (f : Mongo → Mongo) (w : World) : World :=
  mkWorld (redis w) (f (mongo w)) (local w) (now w).
Definition set_local (f : Local → Local) (w : World) : World :=
  mkWorld (redis w) (mongo w) (f (local w)) (now w).

Definition set_faults (fs : list bool) (r : Redis) : Redis :=
  mkRedis (redisClient r) (redisPublisher r) (presenceKeys r) (cacheKeys r)
          (redisSets r) (channel_log r) fs.
Definition set_presenceKeys (f : gmap string (Entry UserPresence) → gmap string (Entry UserPresence))
    (r : Redis) : Redis :=
  mkRedis (redisClient r) (redisPublisher r) (f (presenceKeys r)) (cacheKeys r)
          (redisSets r) (channel_log r) (faults r).
Definition set_cacheKeys (f : gmap string (Entry CacheDoc) → gmap string (Entry CacheDoc))
    (r : Redis) : Redis :=
  mkRedis (redisClient r) (redisPublisher r) (presenceKeys r) (f (cacheKeys r))
          (redisSets r) (channel_log r) (faults r).
Definition set_redisSets (f : gmap string (gset string) → gmap string (gset string))
    (r : Redis) : Redis :=
  mkRedis (redisClient r) (redisPublisher r) (presenceKeys r) (cacheKeys r)
          (f (redisSets r)) (channel_log r) (faults r).
Definition set_channel_log (f : list (string * PubSubMessage) → list (string * PubSubMessage))
    (r : Redis) : Redis :=
  mkRedis (redisClient r) (redisPublisher r) (presenceKeys r) (cacheKeys r)
          (redisSets r) (f (channel_log r)) (faults r).

Definition set_sockets (f : list Socket → list Socket) (l : Local) : Local :=
  mkLocal (io l) (f (sockets l)) (redisSubscriber l) (activeChannels l) (listeners l) (log l).
Definition set_activeChannels
    (f : gmap string ChannelHandler → gmap string ChannelHandler) (l : Local) : Local :=
  mkLocal (io l) (sockets l) (redisSubscriber l) (f (activeChannels l)) (listeners l) (log l).
Definition set_listeners
    (f : list (string * ChannelHandler) → list (string * ChannelHandler)) (l : Local) : Local :=
  mkLocal (io l) (sockets l) (redisSubscriber l) (activeChannels l) (f (listeners l)) (log l).
Definition set_log (f : list (LogLevel * string) → list (LogLevel * string)) (l : Local) : Local :=
  mkLocal (io l) (sockets l) (redisSubscriber l) (activeChannels l) (listeners l) (f (log l)).

Definition set_post_docs (f : list Post → list Post) (m : Mongo) : Mongo :=
  mkMongo (user_docs m) (f (post_docs m)) (comment_docs m) (notification_docs m)
          (chat_docs m) (message_docs m) (nextId m).
Definition set_comment_docs (f : list Comment → list Comment) (m : Mongo) : Mongo :=
  mkMongo (user_docs m) (post_docs m) (f (comment_docs m)) (notification_docs m)
          (chat_docs m) (message_docs m) (nextId m).
Definition set_notification_docs (f : list Notification → list Notification) (m : Mongo) : Mongo :=
  mkMongo (user_docs m) (post_docs m) (comment_docs m) (f (notification_docs m))
          (chat_docs m) (message_docs m) (nextId m).
Definition set_chat_docs (f : list Chat → list Chat) (m : Mongo) : Mongo :=
  mkMongo (user_docs m) (post_docs m) (comment_docs m) (notification_docs m)
          (f (chat_docs m)) (message_docs m) (nextId m).
Definition set_message_docs (f : list Message → list Message) (m : Mongo) : Mongo :=
  mkMongo (user_docs m) (post_docs m) (comment_docs m) (notification_docs m)
          (chat_docs m) (f (message_docs m)) (nextId m).
Definition set_nextId (n : nat) (m : Mongo) : Mongo :=
  mkMongo (user_docs m) (post_docs m) (comment_docs m) (notification_docs m)
          (chat_docs m) (message_docs m) n.

(** ** The monad of asynchronous code *)

Definition M (A : Type) : Type := World → Outcome A * World.

#[global] Instance M_ret : MRet M := λ A a w, (Return a, w).
#[global] Instance M_bind : MBind M := λ A B f m w,
  match m w with
  | (Return a, w') => f a w'
  | (Throw e, w') => (Throw e, w')
  end.

Definition throw {A} (e : Error) : M A := λ w, (Throw e, w).

Definition try_catch {A} (body : M A) (handler : Error → M A) : M A := λ w,
  match body w with
  | (Return a, w') => (Return a, w')
  | (Throw e, w') => handler e w'
  end.

Definition gets {A} (f : World → A) : M A := λ w, (Return (f w), w).
Definition modify (f : World → World) : M unit := λ w, (Return tt, f w).

(** [for (const x of xs) { await body(x) }] *)
Fixpoint for_of {A} (xs : list A) (body : A → M unit) : M unit :=
  match xs with
  | [] => mret tt
  | x :: xs' => body x;; for_of xs' body
  end.

(** A [for ... of] loop that updates a local variable. *)
Fixpoint for_fold {A S} (xs : list A) (s : S) (body : S → A → M S) : M S :=
  match xs with
  | [] => mret s
  | x :: xs' => s' ← body s x; for_fold xs' s' body
  end.

(** [logger.<level>(message, ...)]: the metadata object is not kept. *)
Definition logger (level : LogLevel) (message : string) : M unit :=
  modify (set_local (set_log (λ l, l ++ [(level, message)]))).

(** [new Date()] *)
Definition new_Date : M nat := gets now.

(** [JSON.parse] *)
Definition JSON_parse {V} (s : Stored V) : M V :=
  match s with
  | Json v => mret v
  | Text _ => throw SyntaxError
  end.

(** ** Redis commands (config/redis.ts and the node-redis client) *)

(** [getRedisClient()] and [getRedisPublisher()] throw when [connectRedis]
    has not run. *)
Definition getRedisClient : M unit := λ w,
  if redisClient (redis w) then (Return tt, w)
  else (Throw (JsError "Redis client not initialized"), w).

Definition getRedisPublisher : M unit := λ w,
  if redisPublisher (redis w) then (Return tt, w)
  else (Throw (JsError "Redis publisher not initialized"), w).

(** One command sent to the server: it takes the next entry of the fault
    schedule and, unless that entry says the command is rejected, runs on
    the server's state at the current time. *)
Definition command {A} (run : nat → Redis → A * Redis) : M A := λ w,
  match faults (redis w) with
  | true :: fs => (Throw RedisError, set_redis (set_faults fs) w)
  | false :: fs =>
      let '(a, r) := run (now w) (set_faults fs (redis w)) in
      (Return a, set_redis (λ _, r) w)
  | [] =>
      let '(a, r) := run (now w) (redis w) in
      (Return a, set_redis (λ _, r) w)
  end.

Definition lookup_live {V} (t : nat) (key : string) (m : gmap string (Entry V))
    : option (Stored V) :=
  match m !! key with
  | Some e => if entry_live t e then Some (entry_value e) else None
  | None => None
  end.

(** Seconds of a TTL on the millisecond clock. *)
Definition expiry (t ttl : nat) : option nat := Some (t + ttl * 1000).

(** [GET], [SETEX], [EXISTS] on a presence key *)
Definition presence_get (key : string) : M (option (Stored UserPresence)) :=
  command (λ t r, (lookup_live t key (presenceKeys r), r)).
Definition presence_setEx (key : string) (ttl : nat) (v : Stored UserPresence) : M unit :=
  command (λ t r, (tt, set_presenceKeys (<[key := mkEntry v (expiry t ttl)]>) r)).
Definition presence_exists (key : string) : M nat :=
  command (λ t r, (match lookup_live t key (presenceKeys r) with Some _ => 1 | None => 0 end, r)).

(** [GET], [SET], [SETEX] on a cache key *)
Definition cache_get (key : string) : M (option (Stored CacheDoc)) :=
  command (λ t r, (lookup_live t key (cacheKeys r), r)).
Definition cache_set (key : string) (v : Stored CacheDoc) : M unit :=
  command (λ t r, (tt, set_cacheKeys (<[key := mkEntry v None]>) r)).
Definition cache_setEx (key : string) (ttl : nat) (v : Stored CacheDoc) : M unit :=
  command (λ t r, (tt, set_cacheKeys (<[key := mkEntry v (expiry t ttl)]>) r)).

(** [DEL key...] *)
Definition del_keys (keys : list string) (r : Redis) : Redis :=
  set_cacheKeys (λ m, foldr delete m keys)
    (set_presenceKeys (λ m, foldr delete m keys) r).
Definition redis_del (keys : list string) : M unit :=
  command (λ _ r, (tt, del_keys keys r)).

(** The keys [scanIterator({MATCH: pattern})] yields: the live keys that
    match.  The iteration is one fault point. *)
Definition live_keys {V} (t : nat) (m : gmap string (Entry V)) : list string :=
  filter (λ k, is_Some (lookup_live t k m)) (map_to_list m).*1.

Definition scan_keys (pattern : string) (t : nat) (r : Redis) : list string :=
  filter (λ k, glob_match pattern k = true)
         (live_keys t (presenceKeys r) ++ live_keys t (cacheKeys r)).
Definition redis_scan (pattern : string) : M (list string) :=
  command (λ t r, (scan_keys pattern t r, r)).

(** [SADD], [SREM], [SMEMBERS] *)
Definition members (name : string) (r : Redis) : gset string :=
  default ∅ (redisSets r !! name).
Definition redis_sAdd (name member : string) : M unit :=
  command (λ _ r, (tt, set_redisSets (<[name := members name r ∪ {[member]}]>) r)).
Definition redis_sRem (name member : string) : M unit :=
  command (λ _ r, (tt, set_redisSets (<[name := members name r ∖ {[member]}]>) r)).
Definition redis_sMembers (name : string) : M (list string) :=
  command (λ _ r, (elements (members name r), r)).

(** [PUBLISH channel message] *)
Definition redis_publish (channel : string) (message : PubSubMessage) : M unit :=
  command (λ _ r, (tt, set_channel_log (λ l, l ++ [(channel, message)]) r)).

(** ** shared/utils/cache.ts *)

Definition CacheTTL_POSTS : nat := 2 * 60.
Definition CacheTTL_SEARCH : nat := 1 * 60.

Definition CachePrefix_POST : string := "post".
Definition CachePrefix_POST_LIST : string := "post:list".
Definition CachePrefix_SEARCH : string := "search".

(** [CacheService.get] *)
Definition CacheService_get (key : string) : M (option CacheDoc) :=
  try_catch
    (getRedisClient;;
     value ← cache_get key;
     match value with
     | None => mret None
     | Some v =>
         if stored_falsy v then mret None
         else (parsed ← JSON_parse v; mret (Some parsed))
     end)
    (λ error, logger log_error "Cache get error (graceful degradation):";; mret None).

(** [CacheService.set]; [ttl] is optional and [if (ttl)] rejects 0 too. *)
Definition CacheService_set (key : string) (value : CacheDoc) (ttl : option nat) : M unit :=
  try_catch
    (getRedisClient;;
     let serialized := Json value in
     match ttl with
     | Some (S n) => cache_setEx key (S n) serialized
     | _ => cache_set key serialized
     end;;
     logger log_debug "Cache set:")
    (λ error, logger log_error "Cache set error (graceful degradation):").

(** [CacheService.delete] *)
Definition CacheService_delete (key : string) : M unit :=
  try_catch
    (getRedisClient;;
     redis_del [key];;
     logger log_debug "Cache delete:")
    (λ error, logger log_error "Cache delete error (graceful degradation):").

(** [CacheService.invalidatePattern] *)
Definition CacheService_invalidatePattern (pattern : string) : M unit :=
  try_catch
    (getRedisClient;;
     keys ← redis_scan pattern;
     if 0 <? length keys then
       redis_del keys;;
       logger log_debug "Cache invalidate pattern:"
     else mret tt)
    (λ error, logger log_error "Cache invalidate pattern error (graceful degradation):").

(** *** [CacheKeys] *)

Definition PostStatus_text (s : PostStatus) : string :=
  match s with draft => "draft" | published => "published" | archived => "archived" end.

Definition SortBy_text (s : SortBy) : string :=
  match s with by_date => "date" | by_popularity => "popularity" | by_relevance => "relevance" end.

(** [tags.sort()]: the default order of [Array.prototype.sort] on strings. *)
Definition sort_strings (l : list string) : list string :=
  merge_sort string_le l.

(** [PostFilters] of post.types.ts *)
Record PostFilters := mkPostFilters {
  filter_author : option string;
  filter_tags : option (list string);
  filter_status : option PostStatus;
}.

Definition tags_part (tags : option (list string)) : list string :=
  match tags with
  | Some (t :: ts) => ["tags:" +:+ join "," (sort_strings (t :: ts))]
  | _ => []
  end.

Definition CacheKeys_post (postId : string) : string :=
  CachePrefix_POST +:+ ":" +:+ postId.

Definition CacheKeys_postList (filters : PostFilters) (pg lim : nat) : string :=
  join ":"
    ([CachePrefix_POST_LIST]
     ++ (if truthy (filter_author filters)
         then ["author:" +:+ default "" (filter_author filters)] else [])
     ++ tags_part (filter_tags filters)
     ++ match filter_status filters with
        | Some s => ["status:" +:+ PostStatus_text s]
        | None => []
        end
     ++ (if 0 <? pg then ["page:" +:+ pretty pg] else [])
     ++ (if 0 <? lim then ["limit:" +:+ pretty lim] else [])).

Definition CacheKeys_search (query : string) (filters : PostFilters)
    (sortBy : option SortBy) (pg : nat) : string :=
  join ":"
    ([CachePrefix_SEARCH; "q:" +:+ query]
     ++ tags_part (filter_tags filters)
     ++ (if truthy (filter_author filters)
         then ["author:" +:+ default "" (filter_author filters)] else [])
     ++ match sortBy with
        | Some s => ["sort:" +:+ SortBy_text s]
        | None => []
        end
     ++ (if 0 <? pg then ["page:" +:+ pretty pg] else [])).

Definition CacheKeys_postListPattern : string := CachePrefix_POST_LIST +:+ "*".
Definition CacheKeys_searchPattern : string := CachePrefix_SEARCH +:+ "*".

(** ** socket/pubsub.ts: publishing *)

(** [publishMessage] *)
Definition publishMessage (channel : string) (message : PubSubMessage) : M unit :=
  try_catch
    (getRedisPublisher;;
     redis_publish channel message;;
     logger log_debug "Published message to Redis channel")
    (λ error, logger log_error "Failed to publish message to Redis";; throw error).

(** [emitToRoomAcrossInstances] *)
Definition emitToRoomAcrossInstances (room event : string) (data : Payload) : M unit :=
  try_catch
    (publishMessage "socket:room" (mkPubSubMessage event data (Some room) None))
    (λ error, logger log_error "Failed to emit to room across instances").

(** [emitToUserAcrossInstances] *)
Definition emitToUserAcrossInstances (user event : string) (data : Payload) : M unit :=
  try_catch
    (publishMessage "socket:user" (mkPubSubMessage event data None (Some user)))
    (λ error, logger log_error "Failed to emit to user across instances").

(** ** modules/presence/presence.service.ts *)

Definition PRESENCE_KEY_PREFIX : string := "presence:user:".
Definition ONLINE_USERS_SET : string := "presence:online".
Definition PRESENCE_TTL : nat := 300.

(** [broadcastPresenceUpdate] *)
Definition broadcastPresenceUpdate (user : string) (st : PresenceStatus) : M unit :=
  try_catch
    (timestamp ← new_Date;
     emitToUserAcrossInstances user "presence:update" (PresenceData user st timestamp);;
     logger log_debug "Broadcast presence update")
    (λ error, logger log_error "Failed to broadcast presence update").

(** [setUserOnline] *)
Definition setUserOnline (user sock : string) : M unit :=
  try_catch
    (getRedisClient;;
     let presenceKey := PRESENCE_KEY_PREFIX +:+ user in
     t ← new_Date;
     let presenceData := mkUserPresence user online t (Some sock) in
     presence_setEx presenceKey PRESENCE_TTL (Json presenceData);;
     redis_sAdd ONLINE_USERS_SET user;;
     logger log_debug "User marked as online";;
     broadcastPresenceUpdate user online)
    (λ error, logger log_error "Failed to set user online";; throw error).

(** [setUserOffline] *)
Definition setUserOffline (user : string) : M unit :=
  try_catch
    (getRedisClient;;
     let presenceKey := PRESENCE_KEY_PREFIX +:+ user in
     t ← new_Date;
     let presenceData := mkUserPresence user offline t None in
     presence_setEx presenceKey PRESENCE_TTL (Json presenceData);;
     redis_sRem ONLINE_USERS_SET user;;
     logger log_debug "User marked as offline";;
     broadcastPresenceUpdate user offline)
    (λ error, logger log_error "Failed to set user offline";; throw error).

(** [getUserPresence]; the result [None] is [null]. *)
Definition getUserPresence (user : string) : M (option UserPresence) :=
  try_catch
    (getRedisClient;;
     let presenceKey := PRESENCE_KEY_PREFIX +:+ user in
     presenceString ← presence_get presenceKey;
     match presenceString with
     | Some s =>
         if stored_falsy s
         then (t ← new_Date; mret (Some (mkUserPresence user offline t None)))
         else (presence ← JSON_parse s; mret (Some presence))
     | None => t ← new_Date; mret (Some (mkUserPresence user offline t None))
     end)
    (λ error, logger log_error "Failed to get user presence";; mret None).

(** [refreshUserPresence] *)
Definition refreshUserPresence (user : string) : M unit :=
  try_catch
    (getRedisClient;;
     let presenceKey := PRESENCE_KEY_PREFIX +:+ user in
     presenceString ← presence_get presenceKey;
     match presenceString with
     | Some s =>
         if stored_falsy s then mret tt
         else
           presence ← JSON_parse s;
           t ← new_Date;
           let presence' :=
             mkUserPresence (userId presence) (status presence) t (socketId presence) in
           presence_setEx presenceKey PRESENCE_TTL (Json presence');;
           logger log_debug "User presence refreshed"
     | None => mret tt
     end)
    (λ error, logger log_error "Failed to refresh user presence").

(** [cleanupStalePresence] *)
Definition cleanupStalePresence : M unit :=
  try_catch
    (getRedisClient;;
     onlineUsers ← redis_sMembers ONLINE_USERS_SET;
     cleaned ← for_fold onlineUsers 0
       (λ cleanedCount user,
          let presenceKey := PRESENCE_KEY_PREFIX +:+ user in
          exists_ ← presence_exists presenceKey;
          if exists_ =? 0
          then (redis_sRem ONLINE_USERS_SET user;; mret (S cleanedCount))
          else mret cleanedCount);
     if 0 <? cleaned then logger log_info "Cleaned up stale presence data" else mret tt)
    (λ error, logger log_error "Failed to cleanup stale presence").

(** ** Mongoose operations shared by the services *)

(** Query casting of a string to an [ObjectId]. *)
Definition cast (s : string) : M ObjectId :=
  match toObjectId s with
  | Some id => mret id
  | None => throw (CastError s)
  end.

(** The [_id] of a new document. *)
Definition fresh_id : M ObjectId := λ w,
  (Return (generateId (nextId (mongo w))),
   set_mongo (set_nextId (S (nextId (mongo w)))) w).

(** [Model.findById]: the first document with the identifier. *)
Definition find_by_id {D} (id_of : D → ObjectId) (id : ObjectId) (docs : list D) : option D :=
  snd <$> list_find (λ d, id_of d = id) docs.

(** Writing a document back: the first one with its identifier is replaced. *)
Fixpoint replace_by_id {D} (id_of : D → ObjectId) (d : D) (docs : list D) : list D :=
  match docs with
  | [] => []
  | d' :: ds => if decide (id_of d' = id_of d) then d :: ds
                else d' :: replace_by_id id_of d ds
  end.

(** [populate(path, select)] of a reference to a user; [with_email] tells
    whether the selection names [email].  A dangling reference gives
    [null]. *)
Definition populate_user (with_email : bool) (id : ObjectId) (m : Mongo) : option UserView :=
  u ← find_by_id user_id id (user_docs m);
  Some (mkUserView (user_id u) (username u)
                   (if with_email then Some (email u) else None)
                   (profile_name u) (profile_avatar u)).

(** ** modules/chat/chat.service.ts *)

(** A message with its sender populated. *)
Record MessageView := mkMessageView {
  mv_message : Message;
  mv_sender : option UserView;
}.

(** A chat with its participants populated (dangling references are
    dropped from a populated array) and, when the query asks for it, its
    last message populated.  [chv_lastMessage] is [None] when the field
    is absent or [null] (the chat has no last message, or the populated
    reference dangles), [Some None] when it holds the reference as it is,
    not populated, and [Some (Some m)] when it holds the populated
    message. *)
Record ChatView := mkChatView {
  chv_chat : Chat;
  chv_participants : list UserView;
  chv_lastMessage : option (option MessageView);
}.

Definition user_info (p : UserView) : UserInfo :=
  mkUserInfo (oidToString (uv_id p)) (uv_username p) (uv_email p) (uv_avatar p)
             (or_else (uv_name p) (uv_username p)).

(** [formatMessageResponse]; reading [message.sender._id] of a sender
    that populated to [null] throws. *)
Definition formatMessageResponse (message : MessageView) : M MessageResponse :=
  match mv_sender message with
  | None => throw (TypeError "Cannot read properties of null (reading '_id')")
  | Some s =>
      let m := mv_message message in
      mret (mkMessageResponse (oidToString (message_id m)) (oidToString (message_chat m))
              (user_info s) (message_content m) (oidToString <$> readBy m)
              (message_createdAt m))
  end.

(** [formatChatResponse]: a last message that is absent or [null] is
    left out; on a reference that was not populated the field reads
    fail. *)
Definition formatChatResponse (chat : ChatView) : M ChatResponse :=
  last ← match chv_lastMessage chat with
         | None => mret None
         | Some None => throw (TypeError "Cannot read properties of undefined")
         | Some (Some m) => r ← formatMessageResponse m; mret (Some r)
         end;
  let c := chv_chat chat in
  mret (mkChatResponse (oidToString (chat_id c)) (chat_type c)
          (if truthy (chat_name c) then chat_name c else None)
          (user_info <$> chv_participants chat) last
          (chat_createdAt c) (chat_updatedAt c)).

Definition populate_message (m : Mongo) (msg : Message) : MessageView :=
  mkMessageView msg (populate_user true (sender msg) m).

Definition populate_participants (m : Mongo) (c : Chat) : list UserView :=
  omap (λ id, populate_user true id m) (participants c).

(** [populate({path: 'lastMessage', populate: {path: 'sender', ...}})]: a
    reference to no message gives [null]. *)
Definition populate_lastMessage (m : Mongo) (c : Chat) : option (option MessageView) :=
  Some <$> (id ← lastMessage c;
            populate_message m <$> find_by_id message_id id (message_docs m)).

(** The [pre('save')] hook of the chat schema. *)
Definition chat_pre_save (c : Chat) : M unit :=
  if decide (chat_type c = direct ∧ length (participants c) ≠ 2)
  then throw (JsError "Direct chats must have exactly 2 participants")
  else mret tt.

(** The validators of the message schema on [content] (trimmed by the
    schema, required, at most 5000 characters). *)
Definition message_validate (content : string) : M string :=
  let c := trim content in
  if String.eqb c "" then throw (SchemaError "Path `content` is required.")
  else if 5 * 1000 <? js_length c
       then throw (SchemaError "Path `content` is longer than the maximum allowed length (5000).")
       else mret c.

(** [sendMessage] *)
Definition sendMessage (user chatId content : string) : M MessageResponse :=
  try_catch
    (chatOid ← cast chatId;
     found ← gets (λ w, find_by_id chat_id chatOid (chat_docs (mongo w)));
     match found with
     | None => throw (NotFoundError "Chat")
     | Some chat =>
         userObjectId ← cast user;
         let isParticipant := bool_decide (userObjectId ∈ participants chat) in
         if negb isParticipant
         then throw (ValidationError "User is not a participant in this chat")
         else
           stored ← message_validate (trim content);
           id ← fresh_id;
           t ← new_Date;
           let message := mkMessage id chatOid userObjectId stored [userObjectId] t in
           modify (set_mongo (set_message_docs (λ l, l ++ [message])));;
           let chat' := mkChat (chat_id chat) (chat_type chat) (chat_name chat)
                          (participants chat) (Some id) (chat_createdAt chat) t in
           chat_pre_save chat';;
           modify (set_mongo (set_chat_docs (replace_by_id chat_id chat')));;
           populated ← gets (λ w, populate_message (mongo w)
                               <$> find_by_id message_id id (message_docs (mongo w)));
           match populated with
           | None => throw (NotFoundError "Message")
           | Some populatedMessage =>
               logger log_info "Message sent";;
               formatMessageResponse populatedMessage
           end
     end)
    (λ error, logger log_error "Failed to send message";; throw error).

(** The filter [{type: 'direct', participants: {$all: [a, b], $size: 2}}] *)
Definition is_direct_chat_of (a b : ObjectId) (c : Chat) : Prop :=
  chat_type c = direct ∧ a ∈ participants c ∧ b ∈ participants c
  ∧ length (participants c) = 2.

#[global] Instance is_direct_chat_of_dec a b c : Decision (is_direct_chat_of a b c).
Proof using ObjectId_eq_dec. unfold is_direct_chat_of. apply _. Defined.

(** [getOrCreateDirectChat] *)
Definition getOrCreateDirectChat (userId1 userId2 : string) : M ChatResponse :=
  try_catch
    (if String.eqb userId1 userId2
     then throw (ValidationError "Cannot create chat with yourself")
     else
       a ← cast userId1;
       b ← cast userId2;
       existingChat ← gets (λ w,
         (λ c, mkChatView c (populate_participants (mongo w) c)
                 (populate_lastMessage (mongo w) c))
         <$> (snd <$> list_find (is_direct_chat_of a b) (chat_docs (mongo w))));
       match existingChat with
       | Some existing =>
           logger log_debug "Found existing direct chat";;
           formatChatResponse existing
       | None =>
           id ← fresh_id;
           t ← new_Date;
           let chat := mkChat id direct None [a; b] None t t in
           chat_pre_save chat;;
           modify (set_mongo (set_chat_docs (λ l, l ++ [chat])));;
           populatedChat ← gets (λ w,
             (λ c, mkChatView c (populate_participants (mongo w) c)
                     ((λ _, None) <$> lastMessage c))
             <$> find_by_id chat_id id (chat_docs (mongo w)));
           match populatedChat with
           | None => throw (NotFoundError "Chat")
           | Some populated =>
               logger log_info "Direct chat created";;
               formatChatResponse populated
           end
       end)
    (λ error, logger log_error "Failed to get or create direct chat";; throw error).

(** ** The Socket.IO server of the instance (socket/socket.ts) *)

(** [getIO()] *)
Definition getIO : M unit := λ w,
  if io (local w) then (Return tt, w)
  else (Throw (JsError "Socket.IO not initialized. Call initializeSocketIO first."), w).

Definition push_event (event : string) (data : Payload) (s : Socket) : Socket :=
  mkSocket (socket_id s) (socket_userId s) (socket_email s) (rooms s)
           (received s ++ [(event, data)]).

(** [io.to(room).emit(event, data)]: to the sockets of this instance that
    joined the room.  No adapter is configured on the server, so nothing
    leaves the instance. *)
Definition io_to_emit (room event : string) (data : Payload) : M unit :=
  modify (set_local (set_sockets
    (fmap (λ s, if decide (room ∈ rooms s) then push_event event data s else s)))).

(** [io.emit(event, data)] *)
Definition io_emit (event : string) (data : Payload) : M unit :=
  modify (set_local (set_sockets (fmap (push_event event data)))).

(** [socket.join(room)] and [socket.leave(room)] *)
Definition socket_join (socket : Socket) (room : string) : M unit :=
  modify (set_local (set_sockets
    (fmap (λ s, if decide (socket_id s = socket_id socket)
                then mkSocket (socket_id s) (socket_userId s) (socket_email s)
                              (rooms s ∪ {[room]}) (received s)
                else s)))).
Definition socket_leave (socket : Socket) (room : string) : M unit :=
  modify (set_local (set_sockets
    (fmap (λ s, if decide (socket_id s = socket_id socket)
                then mkSocket (socket_id s) (socket_userId s) (socket_email s)
                              (rooms s ∖ {[room]}) (received s)
                else s)))).

(** ** socket/pubsub.ts: subscribing *)

Definition getRedisSubscriber : M unit := λ w,
  if redisSubscriber (local w) then (Return tt, w)
  else (Throw (JsError "Redis subscriber not initialized"), w).

(** The three handlers of [initializePubSub]. *)
Definition relay (handler : ChannelHandler) (message : PubSubMessage) : M unit :=
  match handler with
  | BroadcastRelay =>
      getIO;; io_emit (msg_event message) (msg_data message)
  | RoomRelay =>
      if negb (truthy (msg_room message))
      then logger log_warn "Received room message without room identifier"
      else getIO;;
           io_to_emit (default "" (msg_room message)) (msg_event message) (msg_data message)
  | UserRelay =>
      if negb (truthy (msg_userId message))
      then logger log_warn "Received user message without userId"
      else getIO;;
           io_to_emit ("user:" +:+ default "" (msg_userId message))
                      (msg_event message) (msg_data message)
  end.

(** The listener [subscribeToChannel] hands to the subscriber connection. *)
Definition on_message (handler : ChannelHandler) (messageString : Stored PubSubMessage) : M unit :=
  try_catch
    (message ← JSON_parse messageString;
     logger log_debug "Received message from Redis channel";;
     relay handler message)
    (λ error, logger log_error "Failed to parse Redis pub/sub message").

(** [subscribeToChannel]: the [SUBSCRIBE] command goes through the fault
    schedule like the others and, when served, registers the listener. *)
Definition subscribeToChannel (channel : string) (handler : ChannelHandler) : M unit :=
  try_catch
    (getRedisSubscriber;;
     modify (set_local (set_activeChannels (<[channel := handler]>)));;
     command (λ _ r, (tt, r));;
     modify (set_local (set_listeners (λ l, l ++ [(channel, handler)])));;
     logger log_info "Subscribed to Redis channel")
    (λ error, logger log_error "Failed to subscribe to Redis channel";; throw error).

(** [initializePubSub] *)
Definition initializePubSub : M unit :=
  try_catch
    (subscribeToChannel "socket:broadcast" BroadcastRelay;;
     subscribeToChannel "socket:room" RoomRelay;;
     subscribeToChannel "socket:user" UserRelay;;
     logger log_info "Redis pub/sub initialized for Socket.IO")
    (λ error, logger log_error "Failed to initialize pub/sub";; throw error).

(** What an instance does when a message arrives on a channel. *)
Definition receive (channel : string) (message : PubSubMessage) : M unit :=
  subs ← gets (λ w, filter (λ e, e.1 = channel) (listeners (local w)));
  for_of subs (λ e, on_message e.2 (Json message)).

(** ** socket/chatHandlers.ts *)

Record SendMessagePayload := mkSendMessagePayload {
  payload_chatId : option string;
  payload_content : option string;
}.

(** The argument the acknowledgement callback is called with. *)
Inductive Ack :=
  | AckError (error : string)
  | AckMessage (m : MessageResponse)
  | AckChat (chatId : string).

(** [if (callback) callback(a)]: the result is what the client gets back. *)
Definition acknowledge (callback : bool) (a : Ack) : option Ack :=
  if callback then Some a else None.

(** The [send_message] listener of [registerChatHandlers]. *)
Definition on_send_message (socket : Socket) (payload : SendMessagePayload)
    (callback : bool) : M (option Ack) :=
  try_catch
    (if negb (truthy (socket_userId socket))
     then
       logger log_warn "Unauthenticated socket attempted to send message";;
       mret (acknowledge callback (AckError "Authentication required"))
     else
       let chatId := default "" (payload_chatId payload) in
       let content := default "" (payload_content payload) in
       if negb (truthy (payload_chatId payload)) || negb (truthy (payload_content payload))
          || (js_length (trim content) =? 0)
       then
         logger log_warn "Invalid send_message payload";;
         mret (acknowledge callback (AckError "Invalid message data"))
       else
         message ← sendMessage (default "" (socket_userId socket)) chatId content;
         logger log_info "Message sent via socket";;
         getIO;;
         io_to_emit ("chat:" +:+ chatId) "new_message" (MessageData message);;
         logger log_debug "Message broadcast to room";;
         mret (acknowledge callback (AckMessage message)))
    (λ error,
       logger log_error "Failed to handle send_message event";;
       mret (acknowledge callback (AckError (error_message error)))).

(** The [join_chat] listener *)
Definition on_join_chat (socket : Socket) (chatId : option string)
    (callback : bool) : M (option Ack) :=
  try_catch
    (if negb (truthy (socket_userId socket))
     then
       logger log_warn "Unauthenticated socket attempted to join chat";;
       mret (acknowledge callback (AckError "Authentication required"))
     else if negb (truthy chatId)
     then
       logger log_warn "Invalid join_chat payload";;
       mret (acknowledge callback (AckError "Chat ID required"))
     else
       socket_join socket ("chat:" +:+ default "" chatId);;
       logger log_info "User joined chat room";;
       mret (acknowledge callback (AckChat (default "" chatId))))
    (λ error,
       logger log_error "Failed to handle join_chat event";;
       mret (acknowledge callback (AckError (error_message error)))).

(** The [typing] listener *)
Definition on_typing (socket : Socket) (chatId : option string) : M unit :=
  try_catch
    (if negb (truthy (socket_userId socket))
     then logger log_warn "Unauthenticated socket attempted to send typing indicator"
     else if negb (truthy chatId)
     then logger log_warn "Invalid typing payload"
     else
       emitToRoomAcrossInstances ("chat:" +:+ default "" chatId) "user_typing"
         (TypingData (default "" chatId) (default "" (socket_userId socket))
                     (socket_email socket));;
       logger log_debug "Typing indicator sent")
    (λ error, logger log_error "Failed to handle typing event").

(** ** socket/notificationHandlers.ts *)

(** [emitNotificationToUser] *)
Definition emitNotificationToUser (user : string) (notification : NotificationView) : M unit :=
  try_catch
    (getIO;;
     let notificationRoom := "notifications:" +:+ user in
     io_to_emit notificationRoom "notification:new" (NotificationData notification);;
     logger log_debug "Notification emitted to user")
    (λ error, logger log_error "Failed to emit notification to user").

(** ** The notification service (modules/notifications) *)

(** [CreateNotificationDTO] of notification.types.ts *)
Record CreateNotificationDTO := mkCreateNotificationDTO {
  recipientId : string;
  dto_type : NotificationType;
  actorId : string;
  dto_message : string;
  dto_resource : option (ResourceType * string);
}.

(** [NotificationFilters] of notification.types.ts *)
Record NotificationFilters := mkNotificationFilters {
  filter_isRead : option bool;
  filter_type : option NotificationType;
}.

Definition populate_actor (m : Mongo) (n : Notification) : NotificationView :=
  mkNotificationView n (populate_user false (actor n) m).

(** The private method [NotificationService.emitNotificationToUser] *)
Definition NotificationService_emitNotificationToUser (user : string)
    (notification : NotificationView) : M unit :=
  try_catch
    (emitNotificationToUser user notification)
    (λ error, logger log_error "Failed to emit notification via Socket.IO").

(** What [notification.save()] validates of the document built from the
    request: the identifier of the resource, when there is a resource, is
    cast to an ObjectId (the empty string, which the service lets
    through, is none), and the message is required, which the empty
    string is not.  The result is the resource as it is stored. *)
Definition notification_validate (data : CreateNotificationDTO)
    : M (option (ResourceType * option ObjectId)) :=
  let cast_resource :=
    match dto_resource data with
    | Some (ty, id) => (λ oid, Some (ty, Some oid)) <$> toObjectId id
    | None => Some None
    end in
  match cast_resource with
  | Some stored =>
      if String.eqb (dto_message data) ""
      then throw (SchemaError "Notification validation failed")
      else mret stored
  | None => throw (SchemaError "Notification validation failed")
  end.

(** [NotificationService.createNotification]; the result [None] is the
    [null] returned when the actor is the recipient. *)
Definition createNotification (data : CreateNotificationDTO) : M (option NotificationView) :=
  try_catch
    (if negb (isValid (recipientId data))
     then throw (ValidationError "Invalid recipient ID")
     else if negb (isValid (actorId data))
     then throw (ValidationError "Invalid actor ID")
     else if String.eqb (recipientId data) (actorId data)
     then
       logger log_debug "Skipping notification creation: actor is recipient";;
       mret None
     else if match dto_resource data with
             | Some (_, id) => truthy (Some id) && negb (isValid id)
             | None => false
             end
     then throw (ValidationError "Invalid resource ID")
     else
       to ← cast (recipientId data);
       by_ ← cast (actorId data);
       stored ← notification_validate data;
       id ← fresh_id;
       t ← new_Date;
       let notification :=
         mkNotification id to (dto_type data) by_ stored (dto_message data) false t in
       modify (set_mongo (set_notification_docs (λ l, l ++ [notification])));;
       populated ← gets (λ w, populate_actor (mongo w) notification);
       logger log_info "Notification created";;
       NotificationService_emitNotificationToUser (recipientId data) populated;;
       mret (Some populated))
    (λ error, logger log_error "Error creating notification:";; throw error).

(** [sort({createdAt: -1})]: most recent first. *)
Definition newer_first {D} (createdAt : D → nat) (a b : D) : Prop :=
  createdAt b ≤ createdAt a.

#[global] Instance newer_first_dec {D} (createdAt : D → nat) a b :
  Decision (newer_first createdAt a b).
Proof. unfold newer_first. apply _. Defined.

Definition notification_matches (user : ObjectId) (filters : NotificationFilters)
    (n : Notification) : Prop :=
  recipient n = user
  ∧ from_option (λ r, isRead n = r) True (filter_isRead filters)
  ∧ from_option (λ ty, notification_type n = ty) True (filter_type filters).

#[global] Instance notification_matches_dec user filters n :
  Decision (notification_matches user filters n).
Proof using ObjectId_eq_dec.
  unfold notification_matches.
  destruct (filter_isRead filters), (filter_type filters); cbn; apply _.
Defined.

(** [NotificationService.getUserNotifications] *)
Definition getUserNotifications (user : string) (filters : NotificationFilters)
    : M (list NotificationView) :=
  if negb (isValid user)
  then throw (ValidationError "Invalid user ID")
  else
    userOid ← cast user;
    gets (λ w,
      populate_actor (mongo w) <$>
        take 50 (merge_sort (newer_first notification_createdAt)
                   (filter (notification_matches userOid filters)
                           (notification_docs (mongo w))))).

(** ** The post service (modules/posts) *)

(** MongoDB's text index: whether a post matches [{$text: {$search: q}}]
    and its [textScore]. *)
Variable textMatches : string → Post → bool.
Variable textScore : string → Post → nat.

(** [CreatePostDTO] and [CreateCommentDTO] of post.types.ts *)
Record CreatePostDTO := mkCreatePostDTO {
  dto_title : string;
  dto_content : string;
  dto_tags : option (list string);
  dto_status : option PostStatus;
}.

Record CreateCommentDTO := mkCreateCommentDTO {
  comment_dto_content : string;
  comment_dto_parent : option string;
}.

(** [Pagination]: the controllers pass [Number(x) || default] of a digit
    string, so both numbers are at least 1. *)
Record Pagination := mkPagination {
  pagination_page : positive;
  pagination_limit : positive;
}.

Definition populate_author (m : Mongo) (p : Post) : PostView :=
  mkPostView p (populate_user false (post_author p) m) None.

(** [PostService.invalidatePostCaches] *)
Definition invalidatePostCaches (postId : option string) : M unit :=
  try_catch
    ((if truthy postId
      then CacheService_delete (CacheKeys_post (default "" postId))
      else mret tt);;
     CacheService_invalidatePattern CacheKeys_postListPattern;;
     CacheService_invalidatePattern CacheKeys_searchPattern;;
     logger log_debug "Post caches invalidated")
    (λ error, logger log_error "Error invalidating post caches:").

(** The validators of the post schema. *)
Definition post_validate (title content : string) (tags : list string) : M unit :=
  let n := js_length (trim title) in
  let c := js_length (trim content) in
  if (n <? 3) || (200 <? n) then throw (SchemaError "Post validation failed: title")
  else if (c <? 10) || (50 * 1000 <? c) then throw (SchemaError "Post validation failed: content")
  else if 10 <? length tags then throw (SchemaError "Cannot have more than 10 tags")
  else mret tt.

(** [PostService.createPost] *)
Definition createPost (user : string) (data : CreatePostDTO) : M Post :=
  id ← fresh_id;
  authorOid ← match toObjectId user with
              | Some a => mret a
              | None => throw (SchemaError "Post validation failed: author")
              end;
  let tags := default [] (dto_tags data) in
  post_validate (dto_title data) (dto_content data) tags;;
  t ← new_Date;
  let post := mkPost id authorOid (trim (dto_title data)) (trim (dto_content data)) tags
                [] [] 0 0 (default published (dto_status data)) t t in
  modify (set_mongo (set_post_docs (λ l, l ++ [post])));;
  invalidatePostCaches None;;
  mret post.

(** [Post.findByIdAndUpdate(id, {$inc: {viewCount: 1}})] and the same for
    [commentCount]; the schema's timestamps refresh [updatedAt]. *)
Definition inc_viewCount (t : nat) (p : Post) : Post :=
  mkPost (post_id p) (post_author p) (post_title p) (post_content p) (post_tags p)
         (likes p) (bookmarks p) (commentCount p) (S (viewCount p)) (post_status p)
         (post_createdAt p) t.
Definition inc_commentCount (t : nat) (p : Post) : Post :=
  mkPost (post_id p) (post_author p) (post_title p) (post_content p) (post_tags p)
         (likes p) (bookmarks p) (S (commentCount p)) (viewCount p) (post_status p)
         (post_createdAt p) t.

Definition findByIdAndUpdate (id : ObjectId) (update : nat → Post → Post) : M (option Post) :=
  t ← new_Date;
  found ← gets (λ w, find_by_id post_id id (post_docs (mongo w)));
  match found with
  | Some p =>
      modify (set_mongo (set_post_docs (replace_by_id post_id (update t p))));;
      mret (Some (update t p))
  | None => mret None
  end.

(** [PostService.getPost].  The result is what the caller receives: on a
    hit the parsed cache entry as it is. *)
Definition getPost (postId : string) : M CacheDoc :=
  if negb (isValid postId) then throw (NotFoundError "Post")
  else
    let cacheKey := CacheKeys_post postId in
    cachedPost ← CacheService_get cacheKey;
    match cachedPost with
    | Some cached =>
        logger log_debug "Cache hit for post:";;
        id ← cast postId;
        findByIdAndUpdate id inc_viewCount;;
        mret cached
    | None =>
        logger log_debug "Cache miss for post:";;
        id ← cast postId;
        updated ← findByIdAndUpdate id inc_viewCount;
        match updated with
        | None => throw (NotFoundError "Post")
        | Some p =>
            post ← gets (λ w, populate_author (mongo w) p);
            CacheService_set cacheKey (DocPost post) (Some CacheTTL_POSTS);;
            mret (DocPost post)
        end
    end.

(** [Math.ceil(total / limit)] *)
Definition ceil_div (n d : nat) : nat := (n + d - 1) / d.

Definition paginate {D} (pg : Pagination) (l : list D) : list D :=
  let limit := Pos.to_nat (pagination_limit pg) in
  take limit (drop ((Pos.to_nat (pagination_page pg) - 1) * limit) l).

Definition paginated (pg : Pagination) (found : list PostView) (count : nat) : PaginatedPosts :=
  let totalPages := ceil_div count (Pos.to_nat (pagination_limit pg)) in
  mkPaginatedPosts found count (Pos.to_nat (pagination_page pg)) totalPages
                   (Pos.to_nat (pagination_page pg) <? totalPages).

(** The filter [listPosts] builds. *)
Definition list_query (author : option ObjectId) (filters : PostFilters) (p : Post) : Prop :=
  from_option (λ a, post_author p = a) True author
  ∧ match filter_tags filters with
    | Some (t :: ts) => Exists (λ tag, tag ∈ post_tags p) (t :: ts)
    | _ => True
    end
  ∧ post_status p = default published (filter_status filters).

#[global] Instance list_query_dec author filters p : Decision (list_query author filters p).
Proof using ObjectId_eq_dec.
  unfold list_query.
  destruct author, (filter_tags filters) as [[|t ts]|]; cbn; apply _.
Defined.

(** [filters.author] in a query: cast when given. *)
Definition cast_author (filters : PostFilters) : M (option ObjectId) :=
  if truthy (filter_author filters)
  then (a ← cast (default "" (filter_author filters)); mret (Some a))
  else mret None.

(** What the query of [listPosts] finds in the store. *)
Definition list_result (author : option ObjectId) (filters : PostFilters)
    (pagination : Pagination) (m : Mongo) : PaginatedPosts :=
  let matching := filter (list_query author filters) (post_docs m) in
  let found := paginate pagination (merge_sort (newer_first post_createdAt) matching) in
  paginated pagination (populate_author m <$> found) (length matching).

(** [PostService.listPosts] *)
Definition listPosts (filters : PostFilters) (pagination : Pagination) : M CacheDoc :=
  let page := Pos.to_nat (pagination_page pagination) in
  let limit := Pos.to_nat (pagination_limit pagination) in
  let cacheKey := CacheKeys_postList filters page limit in
  cachedResult ← CacheService_get cacheKey;
  match cachedResult with
  | Some cached =>
      logger log_debug "Cache hit for post list:";;
      mret cached
  | None =>
      logger log_debug "Cache miss for post list:";;
      author ← cast_author filters;
      result ← gets (λ w, list_result author filters pagination (mongo w));
      CacheService_set cacheKey (DocPosts result) (Some CacheTTL_POSTS);;
      mret (DocPosts result)
  end.

(** The filter [searchPosts] builds. *)
Definition search_query (query : string) (author : option ObjectId) (filters : PostFilters)
    (p : Post) : Prop :=
  post_status p = default published (filter_status filters)
  ∧ (String.eqb (trim query) "" = false → textMatches query p = true)
  ∧ match filter_tags filters with
    | Some (t :: ts) => Exists (λ tag, tag ∈ post_tags p) (t :: ts)
    | _ => True
    end
  ∧ from_option (λ a, post_author p = a) True author.

#[global] Instance search_query_dec query author filters p :
  Decision (search_query query author filters p).
Proof using ObjectId_eq_dec.
  unfold search_query.
  destruct author, (filter_tags filters) as [[|t ts]|]; cbn; apply _.
Defined.

(** The sort orders of [searchPosts]. *)
Definition popularity_first (a b : Post) : Prop :=
  length (likes b) < length (likes a)
  ∨ length (likes b) = length (likes a)
    ∧ (commentCount b < commentCount a
       ∨ commentCount b = commentCount a ∧ post_createdAt b ≤ post_createdAt a).

Definition relevance_first (query : string) (a b : Post) : Prop :=
  textScore query b < textScore query a
  ∨ textScore query b = textScore query a ∧ post_createdAt b ≤ post_createdAt a.

#[global] Instance popularity_first_dec a b : Decision (popularity_first a b).
Proof. unfold popularity_first. apply _. Defined.
#[global] Instance relevance_first_dec query a b : Decision (relevance_first query a b).
Proof. unfold relevance_first. apply _. Defined.

(** [$lookup] and [$unwind] of the author in the popularity pipeline: a
    post whose author is gone leaves the page. *)
Definition unwind_author (m : Mongo) (p : Post) : option PostView :=
  a ← populate_user true (post_author p) m;
  Some (mkPostView p (Some a) None).

(** What the queries of [searchPosts] find in the store. *)
Definition search_result (query : string) (author : option ObjectId) (filters : PostFilters)
    (pagination : Pagination) (sortBy : SortBy) (m : Mongo) : PaginatedPosts :=
  let textual := negb (String.eqb (trim query) "") in
  let matching := filter (search_query query author filters) (post_docs m) in
  match sortBy with
  | by_popularity =>
      paginated pagination
        (omap (unwind_author m) (paginate pagination (merge_sort popularity_first matching)))
        (length matching)
  | by_relevance =>
      if textual
      then paginated pagination
             ((λ p, mkPostView p (populate_user false (post_author p) m)
                               (Some (textScore query p)))
              <$> paginate pagination (merge_sort (relevance_first query) matching))
             (length matching)
      else paginated pagination
             (populate_author m
              <$> paginate pagination (merge_sort (newer_first post_createdAt) matching))
             (length matching)
  | by_date =>
      paginated pagination
        (populate_author m
         <$> paginate pagination (merge_sort (newer_first post_createdAt) matching))
        (length matching)
  end.

(** [PostService.searchPosts] *)
Definition searchPosts (query : string) (filters : PostFilters) (pagination : Pagination)
    (sortBy : SortBy) : M CacheDoc :=
  let page := Pos.to_nat (pagination_page pagination) in
  let cacheKey := CacheKeys_search query filters (Some sortBy) page in
  cachedResult ← CacheService_get cacheKey;
  match cachedResult with
  | Some cached =>
      logger log_debug "Cache hit for search:";;
      mret cached
  | None =>
      logger log_debug "Cache miss for search:";;
      author ← cast_author filters;
      result ← gets (λ w, search_result query author filters pagination sortBy (mongo w));
      CacheService_set cacheKey (DocPosts result) (Some CacheTTL_SEARCH);;
      mret (DocPosts result)
  end.

(** [post.save()] after a change of [likes] or [bookmarks] *)
Definition with_likes (l : list ObjectId) (t : nat) (p : Post) : Post :=
  mkPost (post_id p) (post_author p) (post_title p) (post_content p) (post_tags p)
         l (bookmarks p) (commentCount p) (viewCount p) (post_status p)
         (post_createdAt p) t.
Definition with_bookmarks (l : list ObjectId) (t : nat) (p : Post) : Post :=
  mkPost (post_id p) (post_author p) (post_title p) (post_content p) (post_tags p)
         (likes p) l (commentCount p) (viewCount p) (post_status p)
         (post_createdAt p) t.

Definition save_post (p : Post) : M unit :=
  modify (set_mongo (set_post_docs (replace_by_id post_id p))).

(** A promise that is not awaited and has a [catch] handler: its effects
    follow those of the caller. *)
Definition fire_and_forget (task : M unit) (on_error : string) : M unit :=
  try_catch task (λ error, logger log_error on_error).

(** [PostService.createLikeNotification] *)
Definition createLikeNotification (postAuthorId likerId postId postTitle : string) : M unit :=
  createNotification
    (mkCreateNotificationDTO postAuthorId like likerId
       ("liked your post " +:+ quotation_mark +:+ postTitle +:+ quotation_mark) (Some (post, postId)));;
  mret tt.

(** [PostService.createCommentNotification] *)
Definition createCommentNotification (postAuthorId commenterId postId postTitle : string)
    : M unit :=
  createNotification
    (mkCreateNotificationDTO postAuthorId comment commenterId
       ("commented on your post " +:+ quotation_mark +:+ postTitle +:+ quotation_mark) (Some (post, postId)));;
  mret tt.

(** [PostService.likePost] *)
Definition likePost (postId user : string) : M unit :=
  if negb (isValid postId) then throw (NotFoundError "Post")
  else
    id ← cast postId;
    found ← gets (λ w, find_by_id post_id id (post_docs (mongo w)));
    match found with
    | None => throw (NotFoundError "Post")
    | Some p =>
        userObjectId ← cast user;
        let alreadyLiked := bool_decide (userObjectId ∈ likes p) in
        if negb alreadyLiked
        then
          t ← new_Date;
          save_post (with_likes (likes p ++ [userObjectId]) t p);;
          invalidatePostCaches (Some postId);;
          fire_and_forget
            (createLikeNotification (oidToString (post_author p)) user postId (post_title p))
            "Error creating like notification:"
        else mret tt
    end.

(** [PostService.unlikePost].  [post.save()] writes nothing, and leaves
    [updatedAt] as it is, when the list assigned is the list the post
    had. *)
Definition unlikePost (postId user : string) : M unit :=
  if negb (isValid postId) then throw (NotFoundError "Post")
  else
    id ← cast postId;
    found ← gets (λ w, find_by_id post_id id (post_docs (mongo w)));
    match found with
    | None => throw (NotFoundError "Post")
    | Some p =>
        userObjectId ← cast user;
        let remaining := filter (λ i, i ≠ userObjectId) (likes p) in
        (if bool_decide (remaining = likes p) then mret tt
         else t ← new_Date; save_post (with_likes remaining t p));;
        invalidatePostCaches (Some postId)
    end.

(** [PostService.bookmarkPost] *)
Definition bookmarkPost (postId user : string) : M unit :=
  if negb (isValid postId) then throw (NotFoundError "Post")
  else
    id ← cast postId;
    found ← gets (λ w, find_by_id post_id id (post_docs (mongo w)));
    match found with
    | None => throw (NotFoundError "Post")
    | Some p =>
        userObjectId ← cast user;
        let alreadyBookmarked := bool_decide (userObjectId ∈ bookmarks p) in
        if negb alreadyBookmarked
        then
          t ← new_Date;
          save_post (with_bookmarks (bookmarks p ++ [userObjectId]) t p);;
          invalidatePostCaches (Some postId)
        else mret tt
    end.

(** [PostService.unbookmarkPost]; [post.save()] as in [unlikePost]. *)
Definition unbookmarkPost (postId user : string) : M unit :=
  if negb (isValid postId) then throw (NotFoundError "Post")
  else
    id ← cast postId;
    found ← gets (λ w, find_by_id post_id id (post_docs (mongo w)));
    match found with
    | None => throw (NotFoundError "Post")
    | Some p =>
        userObjectId ← cast user;
        let remaining := filter (λ i, i ≠ userObjectId) (bookmarks p) in
        (if bool_decide (remaining = bookmarks p) then mret tt
         else t ← new_Date; save_post (with_bookmarks remaining t p));;
        invalidatePostCaches (Some postId)
    end.

(** The matches of [/@(\w+)/g] in a text, without the [@]: [current] is
    the name being read after an [@], if any. *)
Fixpoint scan_mentions (content : string) (current : option string) : list string :=
  let emit := match current with
              | Some (String c w) => [String c w]
              | _ => []
              end in
  match content with
  | EmptyString => emit
  | String c rest =>
      match current with
      | Some w =>
          if is_word_char c then scan_mentions rest (Some (w +:+ String c EmptyString))
          else emit ++ scan_mentions rest (if Ascii.eqb c "@" then Some EmptyString else None)
      | None => scan_mentions rest (if Ascii.eqb c "@" then Some EmptyString else None)
      end
  end.

(** [[...new Set(names)]]: first occurrences, in order. *)
Definition unique (names : list string) : list string :=
  reverse (remove_dups (reverse names)).

(** [PostService.createMentionNotifications] *)
Definition createMentionNotifications (content mentionerId postId postTitle : string) : M unit :=
  let mentions := scan_mentions content None in
  if length mentions =? 0 then mret tt
  else
    let usernames := unique mentions in
    mentioned ← gets (λ w, filter (λ u, username u ∈ usernames) (user_docs (mongo w)));
    for_of mentioned (λ user,
      createNotification
        (mkCreateNotificationDTO (oidToString (user_id user)) mention mentionerId
           ("mentioned you in a post " +:+ quotation_mark +:+ postTitle +:+ quotation_mark)
           (Some (post, postId)));;
      mret tt).

(** The validators of the comment schema on [content]. *)
Definition comment_validate (content : string) : M string :=
  let c := trim content in
  if (js_length c <? 1) || (10 * 1000 <? js_length c)
  then throw (SchemaError "Comment validation failed: content")
  else mret c.

(** [PostService.addComment] *)
Definition addComment (postId user : string) (data : CreateCommentDTO) : M CommentView :=
  if negb (isValid postId) then throw (NotFoundError "Post")
  else
    id ← cast postId;
    found ← gets (λ w, find_by_id post_id id (post_docs (mongo w)));
    match found with
    | None => throw (NotFoundError "Post")
    | Some p =>
        parent ←
          (if truthy (comment_dto_parent data)
           then
             let parentId := default "" (comment_dto_parent data) in
             if negb (isValid parentId) then throw (NotFoundError "Parent comment")
             else
               parentOid ← cast parentId;
               parentDoc ← gets (λ w, find_by_id comment_id parentOid (comment_docs (mongo w)));
               match parentDoc with
               | None => throw (NotFoundError "Parent comment")
               | Some pc =>
                   if bool_decide (oidToString <$> comment_post pc = Some postId)
                   then mret (Some parentOid)
                   else throw (JsError "Parent comment does not belong to this post")
               end
           else mret None);
        commentId ← fresh_id;
        authorOid ← match toObjectId user with
                    | Some a => mret a
                    | None => throw (SchemaError "Comment validation failed: author")
                    end;
        stored ← comment_validate (comment_dto_content data);
        t ← new_Date;
        let c := mkComment commentId authorOid (Some id) stored parent t in
        modify (set_mongo (set_comment_docs (λ l, l ++ [c])));;
        findByIdAndUpdate id inc_commentCount;;
        view ← gets (λ w, mkCommentView c (populate_user false authorOid (mongo w)));
        invalidatePostCaches (Some postId);;
        fire_and_forget
          (createCommentNotification (oidToString (post_author p)) user postId (post_title p))
          "Error creating comment notification:";;
        fire_and_forget
          (createMentionNotifications (comment_dto_content data) user postId (post_title p))
          "Error creating mention notifications:";;
        mret view
    end.

(** ** Several instances behind one Redis and one MongoDB *)

Record Cluster := mkCluster {
  cluster_redis : Redis;
  cluster_mongo : Mongo;
  cluster_now : nat;
  instances : list Local;
}.

(** Running code on instance [i]. *)
Definition on_instance {A} (i : nat) (code : M A) (c : Cluster) : option (Outcome A * Cluster) :=
  l ← instances c !! i;
  let '(o, w) := code (mkWorld (cluster_redis c) (cluster_mongo c) l (cluster_now c)) in
  Some (o, mkCluster (redis w) (mongo w) (now w) (<[i := local w]> (instances c))).

(** Redis hands a published message to every instance; each runs its
    listeners on it. *)
Definition deliver (c : Cluster) (publication : string * PubSubMessage) : Cluster :=
  foldl (λ c' i,
           match on_instance i (receive publication.1 publication.2) c' with
           | Some (_, c'') => c''
           | None => c'
           end)
        c (seq 0 (length (instances c))).

(** An event handled on instance [i], followed by the delivery of what
    the handler published. *)
Definition handle_on {A} (i : nat) (code : M A) (c : Cluster) : option (Outcome A * Cluster) :=
  '(o, c') ← on_instance i code c;
  let sent := drop (length (channel_log (cluster_redis c))) (channel_log (cluster_redis c')) in
  Some (o, foldl deliver c' sent).

(** The events socket [sid] of instance [i] has received. *)
Definition received_by (i : nat) (sid : string) (c : Cluster) : list (string * Payload) :=
  match instances c !! i with
  | Some l => default [] (received <$> (snd <$> list_find (λ s, socket_id s = sid) (sockets l)))
  | None => []
  end.

(** ** Sequences of calls *)

(** [n] calls one after the other, as long as they succeed. *)
Fixpoint times (n : nat) (call : M unit) : M unit :=
  match n with
  | 0 => mret tt
  | S k => call;; times k call
  end.

(** ** The writes and the cached reads of the post service *)

Inductive PostWrite :=
  | CreatePost (user : string) (data : CreatePostDTO)
  | LikePost (postId user : string)
  | UnlikePost (postId user : string)
  | BookmarkPost (postId user : string)
  | UnbookmarkPost (postId user : string)
  | AddComment (postId user : string) (data : CreateCommentDTO).

Definition perform (op : PostWrite) : M unit :=
  match op with
  | CreatePost user data => createPost user data;; mret tt
  | LikePost postId user => likePost postId user
  | UnlikePost postId user => unlikePost postId user
  | BookmarkPost postId user => bookmarkPost postId user
  | UnbookmarkPost postId user => unbookmarkPost postId user
  | AddComment postId user data => addComment postId user data;; mret tt
  end.

(** The post a write is about, when it is about one. *)
Definition written_post (op : PostWrite) : option string :=
  match op with
  | CreatePost _ _ => None
  | LikePost postId _ | UnlikePost postId _ | BookmarkPost postId _
  | UnbookmarkPost postId _ | AddComment postId _ _ => Some postId
  end.

Inductive PostRead :=
  | ListPosts (filters : PostFilters) (pagination : Pagination)
  | SearchPosts (query : string) (filters : PostFilters) (pagination : Pagination)
                (sortBy : SortBy).

Definition read (q : PostRead) : M CacheDoc :=
  match q with
  | ListPosts filters pagination => listPosts filters pagination
  | SearchPosts query filters pagination sortBy => searchPosts query filters pagination sortBy
  end.

(** The key under which a read is cached. *)
Definition read_key (q : PostRead) : string :=
  match q with
  | ListPosts filters pagination =>
      CacheKeys_postList filters (Pos.to_nat (pagination_page pagination))
                         (Pos.to_nat (pagination_limit pagination))
  | SearchPosts query filters pagination sortBy =>
      CacheKeys_search query filters (Some sortBy) (Pos.to_nat (pagination_page pagination))
  end.

(** ** More of modules/presence/presence.service.ts *)

(** [SISMEMBER] *)
Definition redis_sIsMember (name member : string) : M bool :=
  command (λ _ r, (bool_decide (member ∈ members name r), r)).

(** [getOnlineUsers] *)
Definition getOnlineUsers : M (list string) :=
  try_catch
    (getRedisClient;;
     onlineUsers ← redis_sMembers ONLINE_USERS_SET;
     mret onlineUsers)
    (λ error, logger log_error "Failed to get online users";; mret []).

(** [isUserOnline] *)
Definition isUserOnline (user : string) : M bool :=
  try_catch
    (getRedisClient;;
     isMember ← redis_sIsMember ONLINE_USERS_SET user;
     mret isMember)
    (λ error, logger log_error "Failed to check if user is online";; mret false).

(** The same server, store and instance at another time of the clock. *)
Definition at_time (t : nat) (w : World) : World :=
  mkWorld (redis w) (mongo w) (local w) t.

(** ** More of socket/socket.ts and socket/chatHandlers.ts *)

(** [emitToUser], [emitToRoom] and [broadcastToAll] of socket.ts: on this
    instance only. *)
Definition emitToUser (user event : string) (data : Payload) : M unit := λ w,
  if io (local w)
  then (io_to_emit ("user:" +:+ user) event data;;
        logger log_debug "Emitted event to user") w
  else logger log_error "Cannot emit to user: Socket.IO not initialized" w.

Definition emitToRoom (room event : string) (data : Payload) : M unit := λ w,
  if io (local w)
  then (io_to_emit room event data;;
        logger log_debug "Emitted event to room") w
  else logger log_error "Cannot emit to room: Socket.IO not initialized" w.

Definition broadcastToAll (event : string) (data : Payload) : M unit := λ w,
  if io (local w)
  then (io_emit event data;;
        logger log_debug "Broadcast event to all clients") w
  else logger log_error "Cannot broadcast: Socket.IO not initialized" w.

(** [broadcastEvent] of pubsub.ts *)
Definition broadcastEvent (event : string) (data : Payload) : M unit :=
  try_catch
    (publishMessage "socket:broadcast" (mkPubSubMessage event data None None))
    (λ error, logger log_error "Failed to broadcast event").

(** [registerNotificationHandlers]: the part that runs when the socket
    connects. *)
Definition registerNotificationHandlers (socket : Socket) : M unit :=
  if negb (truthy (socket_userId socket))
  then logger log_warn "Cannot register notification handlers: socket not authenticated"
  else
    let notificationRoom := "notifications:" +:+ default "" (socket_userId socket) in
    socket_join socket notificationRoom;;
    logger log_debug "User joined notification room".

(** [registerChatHandlers]: registering the listeners leaves a log entry. *)
Definition registerChatHandlers (socket : Socket) : M unit :=
  logger log_debug "Chat handlers registered for socket".

(** The [connection] handler of [initializeSocketIO]. *)
Definition on_connection (socket : Socket) : M unit :=
  logger log_info "Client connected";;
  (if truthy (socket_userId socket)
   then
     let user := default "" (socket_userId socket) in
     socket_join socket ("user:" +:+ user);;
     logger log_debug "User joined personal room";;
     try_catch (setUserOnline user (socket_id socket))
               (λ error, logger log_error "Failed to set user online")
   else mret tt);;
  registerChatHandlers socket;;
  registerNotificationHandlers socket.

(** The [presence:heartbeat] listener *)
Definition on_heartbeat (socket : Socket) : M unit :=
  if truthy (socket_userId socket)
  then try_catch (refreshUserPresence (default "" (socket_userId socket)))
                 (λ error, logger log_error "Failed to refresh user presence")
  else mret tt.

(** The [disconnect] listener *)
Definition on_disconnect (socket : Socket) : M unit :=
  logger log_info "Client disconnected";;
  if truthy (socket_userId socket)
  then try_catch (setUserOffline (default "" (socket_userId socket)))
                 (λ error, logger log_error "Failed to set user offline")
  else mret tt.

(** The [leave_chat] listener *)
Definition on_leave_chat (socket : Socket) (chatId : option string)
    (callback : bool) : M (option Ack) :=
  try_catch
    (if negb (truthy (socket_userId socket))
     then
       logger log_warn "Unauthenticated socket attempted to leave chat";;
       mret (acknowledge callback (AckError "Authentication required"))
     else if negb (truthy chatId)
     then
       logger log_warn "Invalid leave_chat payload";;
       mret (acknowledge callback (AckError "Chat ID required"))
     else
       socket_leave socket ("chat:" +:+ default "" chatId);;
       logger log_info "User left chat room";;
       mret (acknowledge callback (AckChat (default "" chatId))))
    (λ error,
       logger log_error "Failed to handle leave_chat event";;
       mret (acknowledge callback (AckError (error_message error)))).

(** The [stop_typing] listener *)
Definition on_stop_typing (socket : Socket) (chatId : option string) : M unit :=
  try_catch
    (if negb (truthy (socket_userId socket))
     then logger log_warn "Unauthenticated socket attempted to send stop typing indicator"
     else if negb (truthy chatId)
     then logger log_warn "Invalid stop_typing payload"
     else
       emitToRoomAcrossInstances ("chat:" +:+ default "" chatId) "user_stop_typing"
         (TypingData (default "" chatId) (default "" (socket_userId socket))
                     (socket_email socket));;
       logger log_debug "Stop typing indicator sent")
    (λ error, logger log_error "Failed to handle stop_typing event").

(** What the [user_online] and [user_offline] listeners call back with. *)
Inductive StatusAck :=
  | StatusError (error : string)
  | StatusSuccess (st : PresenceStatus).

(** The [user_online] listener *)
Definition on_user_online (socket : Socket) (callback : bool) : M (option StatusAck) :=
  try_catch
    (if negb (truthy (socket_userId socket))
     then
       logger log_warn "Unauthenticated socket attempted to set online status";;
       mret (if callback then Some (StatusError "Authentication required") else None)
     else
       setUserOnline (default "" (socket_userId socket)) (socket_id socket);;
       logger log_debug "User explicitly set online";;
       mret (if callback then Some (StatusSuccess online) else None))
    (λ error,
       logger log_error "Failed to handle user_online event";;
       mret (if callback then Some (StatusError (error_message error)) else None)).

(** The [user_offline] listener *)
Definition on_user_offline (socket : Socket) (callback : bool) : M (option StatusAck) :=
  try_catch
    (if negb (truthy (socket_userId socket))
     then
       logger log_warn "Unauthenticated socket attempted to set offline status";;
       mret (if callback then Some (StatusError "Authentication required") else None)
     else
       setUserOffline (default "" (socket_userId socket));;
       logger log_debug "User explicitly set offline";;
       mret (if callback then Some (StatusSuccess offline) else None))
    (λ error,
       logger log_error "Failed to handle user_offline event";;
       mret (if callback then Some (StatusError (error_message error)) else None)).

(** ** More of the notification service *)

(** [notification.isRead = true] *)
Definition read_notification (n : Notification) : Notification :=
  mkNotification (notification_id n) (recipient n) (notification_type n) (actor n)
                 (resource n) (notification_message n) true (notification_createdAt n).

(** [NotificationService.markAsRead] *)
Definition NotificationService_markAsRead (notificationId user : string)
    : M NotificationView :=
  if negb (isValid notificationId)
  then throw (ValidationError "Invalid notification ID")
  else
    id ← cast notificationId;
    found ← gets (λ w, find_by_id notification_id id (notification_docs (mongo w)));
    match found with
    | None => throw (NotFoundError "Notification")
    | Some notification =>
        if negb (String.eqb (oidToString (recipient notification)) user)
        then throw (ValidationError "Unauthorized access to notification")
        else
          let notification' := read_notification notification in
          modify (set_mongo (set_notification_docs
                    (replace_by_id notification_id notification')));;
          populated ← gets (λ w, populate_actor (mongo w) notification');
          logger log_debug "Notification marked as read";;
          mret populated
    end.

(** The filter [{recipient: userId, isRead: false}] *)
Definition unread_of (user : ObjectId) (n : Notification) : Prop :=
  recipient n = user ∧ isRead n = false.

#[global] Instance unread_of_dec user n : Decision (unread_of user n).
Proof using ObjectId_eq_dec. unfold unread_of. apply _. Defined.

(** [NotificationService.markAllAsRead]: the result is [modifiedCount]. *)
Definition markAllAsRead (user : string) : M nat :=
  if negb (isValid user)
  then throw (ValidationError "Invalid user ID")
  else
    userOid ← cast user;
    modifiedCount ← gets (λ w,
      length (filter (unread_of userOid) (notification_docs (mongo w))));
    modify (set_mongo (set_notification_docs
      (fmap (λ n, if decide (unread_of userOid n) then read_notification n else n))));;
    logger log_info "All notifications marked as read";;
    mret modifiedCount.

(** [NotificationService.getUnreadCount] *)
Definition getUnreadCount (user : string) : M nat :=
  if negb (isValid user)
  then throw (ValidationError "Invalid user ID")
  else
    userOid ← cast user;
    gets (λ w, length (filter (unread_of userOid) (notification_docs (mongo w)))).

(** ** More of the post service *)

(** [PostService.hasUserLikedPost] and [hasUserBookmarkedPost] *)
Definition hasUserLikedPost (postId user : string) : M bool :=
  id ← cast postId;
  found ← gets (λ w, find_by_id post_id id (post_docs (mongo w)));
  match found with
  | None => mret false
  | Some p =>
      userObjectId ← cast user;
      mret (bool_decide (userObjectId ∈ likes p))
  end.

Definition hasUserBookmarkedPost (postId user : string) : M bool :=
  id ← cast postId;
  found ← gets (λ w, find_by_id post_id id (post_docs (mongo w)));
  match found with
  | None => mret false
  | Some p =>
      userObjectId ← cast user;
      mret (bool_decide (userObjectId ∈ bookmarks p))
  end.

(** The filter [{bookmarks: user, status: 'published'}] *)
Definition bookmarked_by (user : ObjectId) (p : Post) : Prop :=
  user ∈ bookmarks p ∧ post_status p = published.

#[global] Instance bookmarked_by_dec user p : Decision (bookmarked_by user p).
Proof using ObjectId_eq_dec. unfold bookmarked_by. apply _. Defined.

(** [PostService.getBookmarkedPosts] *)
Definition getBookmarkedPosts (user : string) (pagination : Pagination) : M PaginatedPosts :=
  userObjectId ← cast user;
  gets (λ w,
    let matching := filter (bookmarked_by userObjectId) (post_docs (mongo w)) in
    paginated pagination
      (populate_author (mongo w)
       <$> paginate pagination (merge_sort (newer_first post_createdAt) matching))
      (length matching)).

(** The filter [{post: postId, parentComment: null}] *)
Definition top_level_of (id : ObjectId) (c : Comment) : Prop :=
  comment_post c = Some id ∧ parentComment c = None.

#[global] Instance top_level_of_dec id c : Decision (top_level_of id c).
Proof using ObjectId_eq_dec. unfold top_level_of. apply _. Defined.

(** [PostService.getComments] *)
Definition getComments (postId : string) (pagination : Pagination) : M (list CommentView) :=
  if negb (isValid postId) then throw (NotFoundError "Post")
  else
    id ← cast postId;
    gets (λ w,
      (λ c, mkCommentView c (populate_user false (comment_author c) (mongo w)))
      <$> paginate pagination
            (merge_sort (newer_first comment_createdAt)
               (filter (top_level_of id) (comment_docs (mongo w))))).

(** [PostService.getPostsByTag] *)
Definition getPostsByTag (tag : string) (pagination : Pagination) : M CacheDoc :=
  listPosts (mkPostFilters None (Some [tag]) (Some published)) pagination.

(** ** More of modules/chat/chat.service.ts *)

(** [$addToSet: {readBy: user}] on a message *)
Definition read_by (user : ObjectId) (m : Message) : Message :=
  mkMessage (message_id m) (message_chat m) (sender m) (message_content m)
            (readBy m ++ [user]) (message_createdAt m).

(** The filter [{chat: chatId, readBy: {$ne: user}}] *)
Definition unread_in (chat user : ObjectId) (m : Message) : Prop :=
  message_chat m = chat ∧ user ∉ readBy m.

#[global] Instance unread_in_dec chat user m : Decision (unread_in chat user m).
Proof using ObjectId_eq_dec. unfold unread_in. apply _. Defined.

(** [markAsRead] of the chat service *)
Definition markAsRead (user chatId : string) : M unit :=
  try_catch
    (chatOid ← cast chatId;
     found ← gets (λ w, find_by_id chat_id chatOid (chat_docs (mongo w)));
     match found with
     | None => throw (NotFoundError "Chat")
     | Some chat =>
         userObjectId ← cast user;
         let isParticipant := bool_decide (userObjectId ∈ participants chat) in
         if negb isParticipant
         then throw (ValidationError "User is not a participant in this chat")
         else
           modify (set_mongo (set_message_docs
             (fmap (λ m, if decide (unread_in chatOid userObjectId m)
                         then read_by userObjectId m else m))));;
           logger log_info "Messages marked as read"
     end)
    (λ error, logger log_error "Failed to mark messages as read";; throw error).

(** [getChatById]; [participants.some] runs on the populated array. *)
Definition getChatById (user chatId : string) : M ChatResponse :=
  try_catch
    (chatOid ← cast chatId;
     found ← gets (λ w,
       (λ c, mkChatView c (populate_participants (mongo w) c)
               (populate_lastMessage (mongo w) c))
       <$> find_by_id chat_id chatOid (chat_docs (mongo w)));
     match found with
     | None => throw (NotFoundError "Chat")
     | Some chat =>
         userObjectId ← cast user;
         let isParticipant :=
           bool_decide (userObjectId ∈ uv_id <$> chv_participants chat) in
         if negb isParticipant
         then throw (ValidationError "User is not a participant in this chat")
         else
           logger log_debug "Retrieved chat";;
           formatChatResponse chat
     end)
    (λ error, logger log_error "Failed to get chat";; throw error).





(** The filter [{chat: chatId}] *)
Definition in_chat (chat : ObjectId) (m : Message) : Prop := message_chat m = chat.

#[global] Instance in_chat_dec chat m : Decision (in_chat chat m).
Proof using ObjectId_eq_dec. unfold in_chat. apply _. Defined.





(** * Properties *)

(** ** Reasoning about outcomes *)

Lemma bind_run {A B} (m : M A) (f : A → M B) (w : World) :
  (m ≫= f) w =
  match m w with
  | (Return a, w') => f a w'
  | (Throw e, w') => (Throw e, w')
  end.
Proof. reflexivity. Qed.

Lemma try_catch_run {A} (body : M A) (handler : Error → M A) (w : World) :
  try_catch body handler w =
  match body w with
  | (Return a, w') => (Return a, w')
  | (Throw e, w') => handler e w'
  end.
Proof. reflexivity. Qed.

(** A computation that cannot end in [Throw]. *)
Definition never_throws {A} (m : M A) : Prop :=
  ∀ w, ∃ a w', m w = (Return a, w').

Lemma never_throws_ret {A} (a : A) : never_throws (mret a).
Proof. intros w. by exists a, w. Qed.

Lemma never_throws_bind {A B} (m : M A) (f : A → M B) :
  never_throws m → (∀ a, never_throws (f a)) → never_throws (m ≫= f).
Proof.
  intros Hm Hf w. rewrite bind_run.
  destruct (Hm w) as (a & w' & ->). apply Hf.
Qed.

Lemma never_throws_logger level message : never_throws (logger level message).
Proof. intros w. by eexists _, _. Qed.

Lemma never_throws_try_catch {A} (body : M A) (handler : Error → M A) :
  (∀ e, never_throws (handler e)) → never_throws (try_catch body handler).
Proof.
  intros Hh w. rewrite try_catch_run.
  destruct (body w) as [[a|e] w']; [by eexists _, _ | apply Hh].
Qed.

Lemma never_throws_unit (m : M unit) (w : World) :
  never_throws m → (m w).1 = Return tt.
Proof. intros Hm. destruct (Hm w) as ([] & w' & ->). done. Qed.

Create HintDb no_throw.
#[local] Hint Resolve never_throws_ret never_throws_logger never_throws_bind
  never_throws_try_catch : no_throw.

(** ** Redis commands under the fault schedule *)

Lemma command_rejected {A} (run : nat → Redis → A * Redis) (w : World) fs :
  faults (redis w) = true :: fs →
  command run w = (Throw RedisError, set_redis (set_faults fs) w).
Proof. intros H. unfold command. by rewrite H. Qed.

Lemma command_served {A} (run : nat → Redis → A * Redis) (w : World) :
  faults (redis w) = [] →
  command run w = (Return (run (now w) (redis w)).1,
                   set_redis (λ _, (run (now w) (redis w)).2) w).
Proof. intros H. unfold command. rewrite H. by destruct (run _ _). Qed.

Lemma getRedisClient_ready (w : World) :
  redisClient (redis w) = true → getRedisClient w = (Return tt, w).
Proof. intros H. unfold getRedisClient. by rewrite H. Qed.

Lemma getRedisClient_missing (w : World) :
  redisClient (redis w) = false →
  getRedisClient w = (Throw (JsError "Redis client not initialized"), w).
Proof. intros H. unfold getRedisClient. by rewrite H. Qed.

(** ** Rejected commands are thrown or logged

    [accounted m]: the commands [m] sends take a prefix of the fault
    schedule; error-level log entries are only added; and when a command
    of that prefix was rejected and [m] still returns, the log has gained
    an error-level entry. *)

Definition error_count (w : World) : nat :=
  length (filter (λ e, e.1 = log_error) (log (local w))).

Definition accounted {A} (m : M A) : Prop :=
  ∀ w, ∃ pre,
    faults (redis w) = pre ++ faults (redis (m w).2)
    ∧ error_count w ≤ error_count (m w).2
    ∧ (true ∈ pre → is_return (m w).1 = true → error_count w < error_count (m w).2).

Lemma accounted_pure {A} (m : M A) :
  (∀ w, faults (redis (m w).2) = faults (redis w)) →
  (∀ w, log (local (m w).2) = log (local w)) →
  accounted m.
Proof.
  intros Hf Hl w. exists []. unfold error_count. rewrite Hf, Hl.
  split_and!; [done | done | ]. intros H. by apply elem_of_nil in H.
Qed.

Lemma accounted_ret {A} (a : A) : accounted (mret a).
Proof. by apply accounted_pure. Qed.

Lemma accounted_throw {A} (e : Error) : accounted (throw (A := A) e).
Proof. by apply accounted_pure. Qed.

Lemma accounted_gets {A} (f : World → A) : accounted (gets f).
Proof. by apply accounted_pure. Qed.

Lemma accounted_modify (f : World → World) :
  (∀ w, faults (redis (f w)) = faults (redis w)) →
  (∀ w, log (local (f w)) = log (local w)) →
  accounted (modify f).
Proof. intros. by apply accounted_pure. Qed.

Lemma error_count_logger level message w :
  error_count (logger level message w).2 =
  error_count w + (if decide (level = log_error) then 1 else 0).
Proof.
  unfold error_count, logger, modify. cbn.
  rewrite filter_app, length_app. f_equal.
  rewrite filter_cons, filter_nil. cbn. by destruct (decide (level = log_error)).
Qed.

Lemma accounted_logger level message : accounted (logger level message).
Proof.
  intros w. exists []. rewrite error_count_logger.
  split_and!; [done | lia | ]. intros H. by apply elem_of_nil in H.
Qed.

Lemma accounted_command {A} (run : nat → Redis → A * Redis) :
  (∀ t r, faults (run t r).2 = faults r) →
  accounted (command run).
Proof.
  intros Hrun w. unfold command, error_count.
  destruct w as [r m l t]. cbn.
  destruct (faults r) as [|[] fs] eqn:Hfs.
  - exists []. specialize (Hrun t r). destruct (run t r) as [a r']. cbn in *.
    rewrite Hrun, Hfs. split_and!; [done | done | ]. intros H. by apply elem_of_nil in H.
  - exists [true]. cbn. split_and!; [done | done | done].
  - exists [false]. specialize (Hrun t (set_faults fs r)).
    destruct (run t (set_faults fs r)) as [a r']. cbn in *. rewrite Hrun.
    split_and!; [done | done | ].
    intros H. apply list_elem_of_singleton in H. done.
Qed.

Lemma accounted_bind {A B} (m : M A) (f : A → M B) :
  accounted m → (∀ a, accounted (f a)) → accounted (m ≫= f).
Proof.
  intros Hm Hf w. rewrite bind_run.
  destruct (Hm w) as (pre1 & E1 & L1 & S1).
  destruct (m w) as [[a|e] w1]; cbn in *.
  - destruct (Hf a w1) as (pre2 & E2 & L2 & S2).
    exists (pre1 ++ pre2). rewrite <- (assoc_L (++)), <- E2.
    split_and!; [done | lia | ].
    intros Hin Hret. apply elem_of_app in Hin as [Hin|Hin].
    + specialize (S1 Hin eq_refl). lia.
    + specialize (S2 Hin Hret). lia.
  - exists pre1. split_and!; [done | done | done].
Qed.

(** A handler that logs the error and goes on. *)
Definition logs_error {A} (handler : Error → M A) : Prop :=
  ∀ e w, is_return (handler e w).1 = true → error_count w < error_count (handler e w).2.

Lemma accounted_try_catch {A} (body : M A) (handler : Error → M A) :
  accounted body → (∀ e, accounted (handler e)) → logs_error handler →
  accounted (try_catch body handler).
Proof.
  intros Hb Hh Hs w. rewrite try_catch_run.
  destruct (Hb w) as (pre1 & E1 & L1 & S1).
  destruct (body w) as [[a|e] w1]; cbn in *.
  - exists pre1. split_and!; [done | done | done].
  - destruct (Hh e w1) as (pre2 & E2 & L2 & S2).
    exists (pre1 ++ pre2). rewrite <- (assoc_L (++)), <- E2.
    split_and!; [done | lia | ].
    intros _ Hret. specialize (Hs e w1 Hret). lia.
Qed.

Lemma logs_error_return {A} message (a : A) :
  logs_error (λ _, logger log_error message;; mret a).
Proof.
  intros e w _. rewrite bind_run. cbn.
  change (error_count w < error_count (logger log_error message w).2).
  rewrite error_count_logger. case_decide; [lia | done].
Qed.

Lemma logs_error_unit message : logs_error (λ _, logger log_error message).
Proof. intros e w _. rewrite error_count_logger. case_decide; [lia | done]. Qed.

Lemma logs_error_rethrow {A} message :
  logs_error (A := A) (λ error, logger log_error message;; throw error).
Proof. intros e w H. rewrite bind_run in H. cbn in H. done. Qed.

Lemma accounted_for_fold {A S} (xs : list A) (s : S) (body : S → A → M S) :
  (∀ s x, accounted (body s x)) → accounted (for_fold xs s body).
Proof.
  intros Hb. revert s. induction xs as [|x xs IH]; intros s; cbn.
  - apply accounted_ret.
  - apply accounted_bind; [apply Hb | apply IH].
Qed.

Lemma accounted_for_of {A} (xs : list A) (body : A → M unit) :
  (∀ x, accounted (body x)) → accounted (for_of xs body).
Proof.
  intros Hb. induction xs as [|x xs IH]; cbn.
  - apply accounted_ret.
  - apply accounted_bind; [apply Hb | intros _; apply IH].
Qed.

Lemma accounted_getRedisClient : accounted getRedisClient.
Proof. apply accounted_pure; intros w; unfold getRedisClient; by destruct (redisClient _). Qed.

Lemma accounted_getRedisPublisher : accounted getRedisPublisher.
Proof. apply accounted_pure; intros w; unfold getRedisPublisher; by destruct (redisPublisher _). Qed.

Lemma accounted_JSON_parse {V} (s : Stored V) : accounted (JSON_parse s).
Proof. destruct s; [apply accounted_ret | apply accounted_throw]. Qed.

(** One step of a proof of [accounted] along the structure of the code. *)
Ltac accounted_step :=
  lazymatch goal with
  | |- accounted (mbind _ _) => apply accounted_bind; [| intros ?]
  | |- accounted (try_catch _ _) =>
      apply accounted_try_catch;
      [ | intros ?
        | first [apply logs_error_unit | apply logs_error_return | apply logs_error_rethrow] ]
  | |- accounted (mret _) => apply accounted_ret
  | |- accounted (throw _) => apply accounted_throw
  | |- accounted (gets _) => apply accounted_gets
  | |- accounted (logger _ _) => apply accounted_logger
  | |- accounted (command _) => apply accounted_command; intros ? ?; reflexivity
  | |- accounted (modify _) => apply accounted_modify; intros ?; reflexivity
  | |- accounted (for_fold _ _ _) => apply accounted_for_fold; intros ? ?
  | |- accounted (for_of _ _) => apply accounted_for_of; intros ?
  | |- accounted getRedisClient => apply accounted_getRedisClient
  | |- accounted getRedisPublisher => apply accounted_getRedisPublisher
  | |- accounted (JSON_parse _) => apply accounted_JSON_parse
  | |- accounted (match ?x with _ => _ end) => destruct x
  | |- accounted (let _ := _ in _) => cbv zeta
  end.

Ltac accounted_auto := repeat (first [assumption | accounted_step]).

(** ** Presence tracker *)

(** Whether the server rejects the [i]-th command from now. *)
Definition fault_at (i : nat) (w : World) : bool :=
  default false (faults (redis w) !! i).

(** A storage-layer error at the first command of an operation: the
    client is missing or the command is rejected. *)
Definition storage_error (w : World) : Prop :=
  redisClient (redis w) = false ∨ fault_at 0 w = true.

Ltac run_m :=
  cbv [try_catch mbind M_bind mret M_ret throw gets modify logger new_Date
       getRedisClient getRedisPublisher command JSON_parse
       presence_get presence_setEx presence_exists cache_get cache_set cache_setEx
       redis_del redis_scan redis_sAdd redis_sRem redis_sMembers redis_publish
       publishMessage emitToRoomAcrossInstances emitToUserAcrossInstances
       broadcastPresenceUpdate];
  cbn [redis mongo local now faults redisClient redisPublisher set_redis set_faults
       set_local set_log fst snd].

Lemma accounted_publishMessage channel message : accounted (publishMessage channel message).
Proof. unfold publishMessage, redis_publish. accounted_auto. Qed.

Lemma accounted_emitToUserAcrossInstances user event data :
  accounted (emitToUserAcrossInstances user event data).
Proof.
  unfold emitToUserAcrossInstances. accounted_auto. apply accounted_publishMessage.
Qed.

Lemma accounted_emitToRoomAcrossInstances room event data :
  accounted (emitToRoomAcrossInstances room event data).
Proof.
  unfold emitToRoomAcrossInstances. accounted_auto. apply accounted_publishMessage.
Qed.

Lemma accounted_broadcastPresenceUpdate user st : accounted (broadcastPresenceUpdate user st).
Proof.
  unfold broadcastPresenceUpdate, new_Date. accounted_auto.
  apply accounted_emitToUserAcrossInstances.
Qed.

Lemma accounted_setUserOnline user sock : accounted (setUserOnline user sock).
Proof.
  unfold setUserOnline, new_Date, presence_setEx, redis_sAdd. accounted_auto.
  apply accounted_broadcastPresenceUpdate.
Qed.

Lemma accounted_setUserOffline user : accounted (setUserOffline user).
Proof.
  unfold setUserOffline, new_Date, presence_setEx, redis_sRem. accounted_auto.
  apply accounted_broadcastPresenceUpdate.
Qed.

Lemma accounted_getUserPresence user : accounted (getUserPresence user).
Proof. unfold getUserPresence, new_Date, presence_get. accounted_auto. Qed.

Lemma accounted_refreshUserPresence user : accounted (refreshUserPresence user).
Proof. unfold refreshUserPresence, new_Date, presence_get, presence_setEx. accounted_auto. Qed.

Lemma accounted_cleanupStalePresence : accounted cleanupStalePresence.
Proof.
  unfold cleanupStalePresence, redis_sMembers, presence_exists, redis_sRem. accounted_auto.
Qed.

Lemma refreshUserPresence_never_throws user : never_throws (refreshUserPresence user).
Proof. unfold refreshUserPresence. auto with no_throw. Qed.

Lemma cleanupStalePresence_never_throws : never_throws cleanupStalePresence.
Proof. unfold cleanupStalePresence. auto with no_throw. Qed.

Lemma getUserPresence_never_throws user : never_throws (getUserPresence user).
Proof. unfold getUserPresence. auto with no_throw. Qed.

(** [setUserOnline] fails exactly when the client is missing or the server
    rejects the write of the record or the update of the set; a rejected
    publication of the update does not count. *)
Lemma setUserOnline_outcome user sock w :
  (setUserOnline user sock w).1 =
  if redisClient (redis w) && negb (fault_at 0 w) && negb (fault_at 1 w)
  then Return tt
  else Throw (if redisClient (redis w) then RedisError
              else JsError "Redis client not initialized").
Proof.
  destruct w as [[rc rp pk ck rs cl fs] m l t].
  unfold setUserOnline, fault_at. cbn [redis faults redisClient].
  destruct rc; [|reflexivity].
  destruct fs as [|[] fs]; [| reflexivity |].
  - run_m. destruct rp; reflexivity.
  - destruct fs as [|[] fs]; [| reflexivity |].
    + run_m. destruct rp; reflexivity.
    + run_m. destruct rp; [|reflexivity]. destruct fs as [|[] fs]; reflexivity.
Qed.

Lemma setUserOffline_outcome user w :
  (setUserOffline user w).1 =
  if redisClient (redis w) && negb (fault_at 0 w) && negb (fault_at 1 w)
  then Return tt
  else Throw (if redisClient (redis w) then RedisError
              else JsError "Redis client not initialized").
Proof.
  destruct w as [[rc rp pk ck rs cl fs] m l t].
  unfold setUserOffline, fault_at. cbn [redis faults redisClient].
  destruct rc; [|reflexivity].
  destruct fs as [|[] fs]; [| reflexivity |].
  - run_m. destruct rp; reflexivity.
  - destruct fs as [|[] fs]; [| reflexivity |].
    + run_m. destruct rp; reflexivity.
    + run_m. destruct rp; [|reflexivity]. destruct fs as [|[] fs]; reflexivity.
Qed.

(** What [getUserPresence] returns, by the state of the store. *)
Lemma getUserPresence_outcome user w :
  (getUserPresence user w).1 =
  if redisClient (redis w) && negb (fault_at 0 w)
  then match lookup_live (now w) (PRESENCE_KEY_PREFIX +:+ user) (presenceKeys (redis w)) with
       | Some (Json p) => Return (Some p)
       | Some (Text s) =>
           if String.eqb s "" then Return (Some (mkUserPresence user offline (now w) None))
           else Return None
       | None => Return (Some (mkUserPresence user offline (now w) None))
       end
  else Return None.
Proof.
  destruct w as [[rc rp pk ck rs cl fs] m l t].
  unfold getUserPresence, fault_at. cbn [redis faults redisClient now presenceKeys].
  destruct rc; [|reflexivity].
  destruct fs as [|[] fs]; [| reflexivity |]; run_m; cbn [presenceKeys];
    destruct (lookup_live _ _ _) as [[p|s]|]; try reflexivity;
    cbn [stored_falsy]; destruct (String.eqb s ""); reflexivity.
Qed.

(** When [setUserOnline] or [setUserOffline] throws, the error has been
    logged first: the log has one more error-level entry. *)
Ltac throw_logged :=
  let H := fresh in
  intros H; cbn in H; try discriminate H; clear H;
  unfold error_count;
  cbn [log local redis faults set_local set_log set_redis set_faults set_presenceKeys
       set_redisSets set_channel_log fst snd];
  rewrite filter_app, length_app, filter_cons, filter_nil;
  cbn [fst]; rewrite decide_True by done; cbn; lia.

Lemma setUserOnline_throw_logged user sock w :
  is_return (setUserOnline user sock w).1 = false →
  error_count (setUserOnline user sock w).2 = S (error_count w).
Proof.
  destruct w as [[rc rp pk ck rs cl fs] m l t].
  unfold setUserOnline.
  destruct rc; [ | run_m; throw_logged].
  destruct fs as [|[] fs]; [ | run_m; throw_logged | ].
  - run_m. destruct rp; throw_logged.
  - destruct fs as [|[] fs]; [ | run_m; throw_logged | ].
    + run_m. destruct rp; throw_logged.
    + run_m. destruct rp; [ | throw_logged].
      destruct fs as [|[] fs]; throw_logged.
Qed.

Lemma setUserOffline_throw_logged user w :
  is_return (setUserOffline user w).1 = false →
  error_count (setUserOffline user w).2 = S (error_count w).
Proof.
  destruct w as [[rc rp pk ck rs cl fs] m l t].
  unfold setUserOffline.
  destruct rc; [ | run_m; throw_logged].
  destruct fs as [|[] fs]; [ | run_m; throw_logged | ].
  - run_m. destruct rp; throw_logged.
  - destruct fs as [|[] fs]; [ | run_m; throw_logged | ].
    + run_m. destruct rp; throw_logged.
    + run_m. destruct rp; [ | throw_logged].
      destruct fs as [|[] fs]; throw_logged.
Qed.

(** ** Invariants along the code *)

Definition preserves (P : World → Prop) {A} (m : M A) : Prop :=
  ∀ w, P w → P (m w).2.

Lemma preserves_ret P {A} (a : A) : preserves P (mret a).
Proof. by intros w. Qed.

Lemma preserves_throw P {A} (e : Error) : preserves P (throw (A := A) e).
Proof. by intros w. Qed.

Lemma preserves_gets P {A} (f : World → A) : preserves P (gets f).
Proof. by intros w. Qed.

Lemma preserves_modify P (f : World → World) :
  (∀ w, P w → P (f w)) → preserves P (modify f).
Proof. intros Hf w. apply Hf. Qed.

Lemma preserves_logger P level message :
  (∀ w f, P w → P (set_local (set_log f) w)) → preserves P (logger level message).
Proof. intros Hl w. apply Hl. Qed.

Lemma preserves_bind P {A B} (m : M A) (f : A → M B) :
  preserves P m → (∀ a, preserves P (f a)) → preserves P (m ≫= f).
Proof.
  intros Hm Hf w Hw. rewrite bind_run. specialize (Hm w Hw).
  destruct (m w) as [[a|e] w']; [by apply Hf | done].
Qed.

Lemma preserves_try_catch P {A} (body : M A) (handler : Error → M A) :
  preserves P body → (∀ e, preserves P (handler e)) → preserves P (try_catch body handler).
Proof.
  intros Hb Hh w Hw. rewrite try_catch_run. specialize (Hb w Hw).
  destruct (body w) as [[a|e] w']; [done | by apply Hh].
Qed.

Lemma preserves_for_fold P {A S} (xs : list A) (s : S) (body : S → A → M S) :
  (∀ s x, preserves P (body s x)) → preserves P (for_fold xs s body).
Proof.
  intros Hb. revert s. induction xs as [|x xs IH]; intros s; cbn.
  - apply preserves_ret.
  - apply preserves_bind; [apply Hb | apply IH].
Qed.

Lemma preserves_for_of P {A} (xs : list A) (body : A → M unit) :
  (∀ x, preserves P (body x)) → preserves P (for_of xs body).
Proof.
  intros Hb. induction xs as [|x xs IH]; cbn.
  - apply preserves_ret.
  - apply preserves_bind; [apply Hb | intros _; apply IH].
Qed.

(** A command keeps an invariant that does not read the fault schedule
    and that its effect on the server keeps. *)
Lemma preserves_command P {A} (run : nat → Redis → A * Redis) :
  (∀ w fs, P w → P (set_redis (set_faults fs) w)) →
  (∀ w, P w → P (set_redis (λ _, (run (now w) (redis w)).2) w)) →
  preserves P (command run).
Proof.
  intros Hfs Hrun w Hw. unfold command.
  destruct (faults (redis w)) as [|[] fs] eqn:E.
  - specialize (Hrun w Hw). by destruct (run (now w) (redis w)).
  - by apply Hfs.
  - specialize (Hrun _ (Hfs w fs Hw)). destruct w as [r m l t]. cbn in *.
    by destruct (run t (set_faults fs r)).
Qed.

Lemma preserves_getRedisClient P : preserves P getRedisClient.
Proof. intros w Hw. unfold getRedisClient. by destruct (redisClient _). Qed.

Lemma preserves_getRedisPublisher P : preserves P getRedisPublisher.
Proof. intros w Hw. unfold getRedisPublisher. by destruct (redisPublisher _). Qed.

Lemma preserves_getIO P : preserves P getIO.
Proof. intros w Hw. unfold getIO. by destruct (io _). Qed.

Lemma preserves_JSON_parse P {V} (s : Stored V) : preserves P (JSON_parse s).
Proof. destruct s; [apply preserves_ret | apply preserves_throw]. Qed.

Lemma preserves_cast P s : preserves P (cast s).
Proof. unfold cast. destruct (toObjectId s); [apply preserves_ret | apply preserves_throw]. Qed.

(** One step of a proof of [preserves] along the structure of the code;
    what depends on the invariant is left to the caller. *)
Ltac preserves_step :=
  lazymatch goal with
  | |- preserves _ (mbind _ _) => apply preserves_bind; [| intros ?]
  | |- preserves _ (try_catch _ _) => apply preserves_try_catch; [| intros ?]
  | |- preserves _ (mret _) => apply preserves_ret
  | |- preserves _ (throw _) => apply preserves_throw
  | |- preserves _ (gets _) => apply preserves_gets
  | |- preserves _ (for_fold _ _ _) => apply preserves_for_fold; intros ? ?
  | |- preserves _ (for_of _ _) => apply preserves_for_of; intros ?
  | |- preserves _ getRedisClient => apply preserves_getRedisClient
  | |- preserves _ getRedisPublisher => apply preserves_getRedisPublisher
  | |- preserves _ getIO => apply preserves_getIO
  | |- preserves _ (JSON_parse _) => apply preserves_JSON_parse
  | |- preserves _ (cast _) => apply preserves_cast
  | |- preserves _ (logger _ _) => apply preserves_logger
  | |- preserves _ (modify _) => apply preserves_modify
  | |- preserves _ (command _) => apply preserves_command
  | |- preserves _ (match ?x with _ => _ end) => destruct x
  | |- preserves _ (let _ := _ in _) => cbv zeta
  end.

Ltac preserves_auto := repeat (first [assumption | preserves_step]).

(** Every presence key holds the serialisation of a record: what the
    tracker itself writes. *)
Definition presence_records_well_formed (w : World) : Prop :=
  ∀ key e, presenceKeys (redis w) !! key = Some e → ∃ p, entry_value e = Json p.

Lemma well_formed_insert w key p expires :
  presence_records_well_formed w →
  presence_records_well_formed
    (set_redis (λ _, set_presenceKeys (<[key := mkEntry (Json p) expires]>) (redis w)) w).
Proof.
  intros Hw k e. cbn. rewrite lookup_insert. case_decide.
  - intros [= <-]. by exists p.
  - apply Hw.
Qed.

Ltac well_formed_side :=
  first
    [ by intros [[] ? ? ?] ?
    | intros [[] ? ? ?] ?; cbn; by intros ?
    | intros ?; apply well_formed_insert ].

Lemma well_formed_broadcast user st :
  preserves presence_records_well_formed (broadcastPresenceUpdate user st).
Proof.
  unfold broadcastPresenceUpdate, emitToUserAcrossInstances, publishMessage, redis_publish,
    new_Date.
  preserves_auto; well_formed_side.
Qed.

(** The operations of the tracker keep the store well formed. *)
Lemma presence_well_formed_kept user sock :
  preserves presence_records_well_formed (setUserOnline user sock)
  ∧ preserves presence_records_well_formed (setUserOffline user)
  ∧ preserves presence_records_well_formed (refreshUserPresence user)
  ∧ preserves presence_records_well_formed (getUserPresence user)
  ∧ preserves presence_records_well_formed cleanupStalePresence.
Proof.
  split_and!.
  - unfold setUserOnline, presence_setEx, redis_sAdd, new_Date.
    preserves_auto; try apply well_formed_broadcast; well_formed_side.
  - unfold setUserOffline, presence_setEx, redis_sRem, new_Date.
    preserves_auto; try apply well_formed_broadcast; well_formed_side.
  - unfold refreshUserPresence, presence_setEx, presence_get, new_Date.
    preserves_auto; well_formed_side.
  - unfold getUserPresence, presence_get, new_Date.
    preserves_auto; well_formed_side.
  - unfold cleanupStalePresence, redis_sMembers, presence_exists, redis_sRem.
    preserves_auto; well_formed_side.
Qed.

(** C8.  [getUserPresence] never fails its caller.  On a store whose
    presence keys hold records, it returns the live record of the user
    when there is one, a record with status [offline] made up on the spot
    when there is none, and [null] exactly when the storage layer fails
    (the client is missing or the server rejects the read): [null] and
    [offline] are told apart. *)
Theorem getUserPresence_result (user : string) (w : World) :
  presence_records_well_formed w →
  ∃ r, (getUserPresence user w).1 = Return r
    ∧ (r = None ↔ storage_error w)
    ∧ (¬ storage_error w →
       ∀ p, lookup_live (now w) (PRESENCE_KEY_PREFIX +:+ user) (presenceKeys (redis w))
            = Some (Json p) →
            r = Some p)
    ∧ (¬ storage_error w →
       lookup_live (now w) (PRESENCE_KEY_PREFIX +:+ user) (presenceKeys (redis w)) = None →
       r = Some (mkUserPresence user offline (now w) None)).
Proof.
  intros Hwf. rewrite getUserPresence_outcome. unfold storage_error.
  destruct (redisClient (redis w)); cbn [andb];
    [| exists None; split_and!; [done | split; auto | intros []; auto | intros []; auto] ].
  destruct (fault_at 0 w); cbn [negb];
    [ exists None; split_and!; [done | split; auto | intros []; auto | intros []; auto] | ].
  assert (¬ (true = false ∨ false = true)) as Hno by (intros [|]; discriminate).
  unfold lookup_live.
  destruct (presenceKeys (redis w) !! (PRESENCE_KEY_PREFIX +:+ user)) as [e|] eqn:E.
  - destruct (Hwf _ _ E) as [p Hp]. destruct (entry_live (now w) e).
    + rewrite Hp. exists (Some p).
      split_and!; [done | split; [discriminate | intros []; discriminate] | | discriminate].
      intros _ p' [= <-]. done.
    + eexists. split_and!;
        [done | split; [discriminate | intros []; discriminate] | discriminate | done].
  - eexists. split_and!;
      [done | split; [discriminate | intros []; discriminate] | discriminate | done].
Qed.

(** C2, as the code has it.  The heartbeat, the cleanup and
    [getUserPresence] never throw, whatever the server rejects;
    [setUserOnline] and [setUserOffline] log a storage error and throw it
    again to the caller: they fail exactly when the client is missing or
    the server rejects the write of the record or the update of the online
    set, while a rejected publication of the presence update is swallowed;
    [getUserPresence] signals a storage error by [null]; in all five
    operations a rejected command is either thrown or leaves an error-level
    log entry; and whenever [setUserOnline] or [setUserOffline] throws, the
    error has been logged first, the log having one more error-level
    entry. *)
Theorem presence_error_policy :
  (∀ user, never_throws (refreshUserPresence user))
  ∧ never_throws cleanupStalePresence
  ∧ (∀ user, never_throws (getUserPresence user))
  ∧ (∀ user w, storage_error w → (getUserPresence user w).1 = Return None)
  ∧ (∀ user sock w,
       (setUserOnline user sock w).1 =
       if redisClient (redis w) && negb (fault_at 0 w) && negb (fault_at 1 w)
       then Return tt
       else Throw (if redisClient (redis w) then RedisError
                   else JsError "Redis client not initialized"))
  ∧ (∀ user w,
       (setUserOffline user w).1 =
       if redisClient (redis w) && negb (fault_at 0 w) && negb (fault_at 1 w)
       then Return tt
       else Throw (if redisClient (redis w) then RedisError
                   else JsError "Redis client not initialized"))
  ∧ (∀ user sock,
       accounted (setUserOnline user sock) ∧ accounted (setUserOffline user)
       ∧ accounted (refreshUserPresence user) ∧ accounted cleanupStalePresence
       ∧ accounted (getUserPresence user))
  ∧ (∀ user sock w,
       is_return (setUserOnline user sock w).1 = false →
       error_count (setUserOnline user sock w).2 = S (error_count w))
  ∧ (∀ user w,
       is_return (setUserOffline user w).1 = false →
       error_count (setUserOffline user w).2 = S (error_count w)).
Proof.
  split_and!.
  - apply refreshUserPresence_never_throws.
  - apply cleanupStalePresence_never_throws.
  - apply getUserPresence_never_throws.
  - intros user w Hs. rewrite getUserPresence_outcome.
    destruct Hs as [-> | ->]; [done | by rewrite andb_false_r].
  - apply setUserOnline_outcome.
  - apply setUserOffline_outcome.
  - intros user sock. split_and!.
    + apply accounted_setUserOnline.
    + apply accounted_setUserOffline.
    + apply accounted_refreshUserPresence.
    + apply accounted_cleanupStalePresence.
    + apply accounted_getUserPresence.
  - apply setUserOnline_throw_logged.
  - apply setUserOffline_throw_logged.
Qed.

(** ** Cache service *)

Lemma CacheService_get_never_throws key : never_throws (CacheService_get key).
Proof. unfold CacheService_get. auto with no_throw. Qed.

Lemma CacheService_set_never_throws key value ttl : never_throws (CacheService_set key value ttl).
Proof. unfold CacheService_set. auto with no_throw. Qed.

Lemma CacheService_delete_never_throws key : never_throws (CacheService_delete key).
Proof. unfold CacheService_delete. auto with no_throw. Qed.

Lemma CacheService_invalidatePattern_never_throws pattern :
  never_throws (CacheService_invalidatePattern pattern).
Proof. unfold CacheService_invalidatePattern. auto with no_throw. Qed.

Lemma invalidatePostCaches_never_throws postId : never_throws (invalidatePostCaches postId).
Proof. unfold invalidatePostCaches. auto with no_throw. Qed.

#[local] Hint Resolve CacheService_get_never_throws CacheService_set_never_throws
  CacheService_delete_never_throws CacheService_invalidatePattern_never_throws
  invalidatePostCaches_never_throws : no_throw.

Lemma accounted_CacheService_get key : accounted (CacheService_get key).
Proof. unfold CacheService_get, cache_get. accounted_auto. Qed.

Lemma accounted_CacheService_set key value ttl : accounted (CacheService_set key value ttl).
Proof. unfold CacheService_set, cache_set, cache_setEx. accounted_auto. Qed.

Lemma accounted_CacheService_delete key : accounted (CacheService_delete key).
Proof. unfold CacheService_delete, redis_del. accounted_auto. Qed.

Lemma accounted_CacheService_invalidatePattern pattern :
  accounted (CacheService_invalidatePattern pattern).
Proof. unfold CacheService_invalidatePattern, redis_scan, redis_del. accounted_auto. Qed.

(** What [CacheService.get] returns, by the state of the store. *)
Lemma CacheService_get_outcome key w :
  (CacheService_get key w).1 =
  Return (if redisClient (redis w) && negb (fault_at 0 w)
          then match lookup_live (now w) key (cacheKeys (redis w)) with
               | Some (Json d) => Some d
               | _ => None
               end
          else None).
Proof.
  destruct w as [[rc rp pk ck rs cl fs] m l t].
  unfold CacheService_get, fault_at. cbn [redis faults redisClient now cacheKeys].
  destruct rc; [|reflexivity].
  destruct fs as [|[] fs]; [| reflexivity |]; run_m; cbn [cacheKeys];
    destruct (lookup_live _ _ _) as [[p|s]|]; try reflexivity;
    cbn [stored_falsy]; destruct (String.eqb s ""); reflexivity.
Qed.

(** An invariant that reads neither the Redis server nor the log. *)
Definition beside_redis (P : World → Prop) : Prop :=
  (∀ w f, P w → P (set_redis f w)) ∧ (∀ w f, P w → P (set_local (set_log f) w)).

Ltac beside_redis_side Hr Hl :=
  intros; first [apply Hr | apply Hl]; assumption.

(** The cache service touches nothing but the Redis server and the log. *)
Lemma cache_service_beside P :
  beside_redis P →
  (∀ key, preserves P (CacheService_get key))
  ∧ (∀ key value ttl, preserves P (CacheService_set key value ttl))
  ∧ (∀ key, preserves P (CacheService_delete key))
  ∧ (∀ pattern, preserves P (CacheService_invalidatePattern pattern)).
Proof.
  intros [Hr Hl]. split_and!.
  - intros key. unfold CacheService_get, cache_get. preserves_auto; beside_redis_side Hr Hl.
  - intros key value ttl. unfold CacheService_set, cache_set, cache_setEx.
    preserves_auto; beside_redis_side Hr Hl.
  - intros key. unfold CacheService_delete, redis_del.
    preserves_auto; beside_redis_side Hr Hl.
  - intros pattern. unfold CacheService_invalidatePattern, redis_scan, redis_del.
    preserves_auto; beside_redis_side Hr Hl.
Qed.

Lemma invalidatePostCaches_beside P postId :
  beside_redis P → preserves P (invalidatePostCaches postId).
Proof.
  intros HP. destruct (cache_service_beside P HP) as (_ & _ & Hd & Hi).
  destruct HP as [Hr Hl].
  unfold invalidatePostCaches. preserves_auto; try apply Hd; try apply Hi;
    beside_redis_side Hr Hl.
Qed.

(** ** Reads of the post service *)

Arguments CacheKeys_postList : simpl never.
Arguments CacheKeys_search : simpl never.
Arguments CacheKeys_post : simpl never.
Arguments list_result : simpl never.
Arguments search_result : simpl never.

Definition same_store (w0 w : World) : Prop := mongo w = mongo w0 ∧ now w = now w0.

Lemma same_store_beside w0 : beside_redis (same_store w0).
Proof. split; intros [r m l t] f H; exact H. Qed.

(** [CacheService.get] and [CacheService.set] return and leave the store
    as it is. *)
Lemma CacheService_get_run key w :
  ∃ r w1, CacheService_get key w = (Return r, w1) ∧ same_store w w1.
Proof.
  destruct (CacheService_get_never_throws key w) as (r & w1 & E).
  exists r, w1. split; [done | ].
  destruct (cache_service_beside _ (same_store_beside w)) as (Hg & _).
  specialize (Hg key w). rewrite E in Hg. by apply Hg.
Qed.

Lemma CacheService_set_run key value ttl w :
  ∃ w1, CacheService_set key value ttl w = (Return tt, w1) ∧ same_store w w1.
Proof.
  destruct (CacheService_set_never_throws key value ttl w) as ([] & w1 & E).
  exists w1. split; [done | ].
  destruct (cache_service_beside _ (same_store_beside w)) as (_ & Hs & _).
  specialize (Hs key value ttl w). rewrite E in Hs. by apply Hs.
Qed.

(** The answer of a cache-aside read, by what the cache said. *)
Definition cache_aside (cached : Outcome (option CacheDoc)) (fresh : Outcome CacheDoc)
    : Outcome CacheDoc :=
  match cached with
  | Return (Some d) => Return d
  | Return None => fresh
  | Throw e => Throw e
  end.

(** [filters.author] as the query gets it: [Throw] when the cast fails. *)
Definition author_filter (filters : PostFilters) : Outcome (option ObjectId) :=
  if truthy (filter_author filters)
  then match toObjectId (default "" (filter_author filters)) with
       | Some a => Return (Some a)
       | None => Throw (CastError (default "" (filter_author filters)))
       end
  else Return None.

Lemma cast_author_run filters w : cast_author filters w = (author_filter filters, w).
Proof.
  unfold cast_author, author_filter, cast. destruct (truthy _); [|done].
  rewrite bind_run. by destruct (toObjectId _).
Qed.

Definition with_author {A} (author : Outcome (option ObjectId)) (f : option ObjectId → A)
    : Outcome A :=
  match author with
  | Return a => Return (f a)
  | Throw e => Throw e
  end.

(** [listPosts] answers from the cache on a hit and from the store
    otherwise, and leaves the store as it is. *)
Lemma listPosts_outcome filters pagination w :
  (listPosts filters pagination w).1 =
  cache_aside
    (CacheService_get (CacheKeys_postList filters (Pos.to_nat (pagination_page pagination))
                          (Pos.to_nat (pagination_limit pagination))) w).1
    (with_author (author_filter filters)
       (λ a, DocPosts (list_result a filters pagination (mongo w))))
  ∧ same_store w (listPosts filters pagination w).2.
Proof.
  unfold listPosts. cbv zeta. rewrite bind_run.
  destruct (CacheService_get_run
              (CacheKeys_postList filters (Pos.to_nat (pagination_page pagination))
                 (Pos.to_nat (pagination_limit pagination))) w) as (r & w1 & E & Hs).
  rewrite E. cbn [fst].
  destruct r as [d|]; cbn [cache_aside].
  - rewrite bind_run. cbn. done.
  - rewrite bind_run. cbn. rewrite bind_run, cast_author_run.
    destruct (author_filter filters) as [a|e]; cbn [with_author]; [| done].
    rewrite bind_run. cbn [gets].
    rewrite bind_run.
    match goal with |- context [CacheService_set ?k ?v ?t ?w'] =>
      destruct (CacheService_set_run k v t w') as (w2 & E2 & Hs2) end.
    rewrite E2. cbn. destruct Hs as [Hm Ht]. destruct Hs2 as [Hm2 Ht2]. cbn in Hm2, Ht2.
    rewrite Hm. split; [done | ]. split; congruence.
Qed.

(** The same for [searchPosts]. *)
Lemma searchPosts_outcome query filters pagination sortBy w :
  (searchPosts query filters pagination sortBy w).1 =
  cache_aside
    (CacheService_get (CacheKeys_search query filters (Some sortBy)
                          (Pos.to_nat (pagination_page pagination))) w).1
    (with_author (author_filter filters)
       (λ a, DocPosts (search_result query a filters pagination sortBy (mongo w))))
  ∧ same_store w (searchPosts query filters pagination sortBy w).2.
Proof.
  unfold searchPosts. cbv zeta. rewrite bind_run.
  destruct (CacheService_get_run
              (CacheKeys_search query filters (Some sortBy)
                 (Pos.to_nat (pagination_page pagination))) w) as (r & w1 & E & Hs).
  rewrite E. cbn [fst].
  destruct r as [d|]; cbn [cache_aside].
  - rewrite bind_run. cbn. done.
  - rewrite bind_run. cbn. rewrite bind_run, cast_author_run.
    destruct (author_filter filters) as [a|e]; cbn [with_author]; [| done].
    rewrite bind_run. cbn [gets].
    rewrite bind_run.
    match goal with |- context [CacheService_set ?k ?v ?t ?w'] =>
      destruct (CacheService_set_run k v t w') as (w2 & E2 & Hs2) end.
    rewrite E2. cbn. destruct Hs as [Hm Ht]. destruct Hs2 as [Hm2 Ht2]. cbn in Hm2, Ht2.
    rewrite Hm. split; [done | ]. split; congruence.
Qed.

(** The store after [findByIdAndUpdate id update] at time [t]. *)
Definition updated (update : nat → Post → Post) (t : nat) (id : ObjectId) (m : Mongo) : Mongo :=
  match find_by_id post_id id (post_docs m) with
  | Some p => set_post_docs (replace_by_id post_id (update t p)) m
  | None => m
  end.

Lemma findByIdAndUpdate_run id update w :
  findByIdAndUpdate id update w =
  (Return (update (now w) <$> find_by_id post_id id (post_docs (mongo w))),
   set_mongo (λ _, updated update (now w) id (mongo w)) w).
Proof.
  unfold findByIdAndUpdate, updated, new_Date. rewrite bind_run. cbn [gets].
  rewrite bind_run. cbn [gets].
  destruct (find_by_id post_id id (post_docs (mongo w))) as [p|]; cbn.
  - destruct w as [r [] l t]. reflexivity.
  - destruct w as [r [] l t]. reflexivity.
Qed.

Lemma isValid_cast s : isValid s = true → ∃ id, toObjectId s = Some id.
Proof. unfold isValid. intros H. apply bool_decide_eq_true in H. destruct H as [id H]. eauto. Qed.

Lemma cast_run s id w : toObjectId s = Some id → cast s w = (Return id, w).
Proof. intros H. unfold cast. by rewrite H. Qed.

Lemma find_by_id_cons {D} (id_of : D → ObjectId) id (x : D) (xs : list D) :
  find_by_id id_of id (x :: xs) =
  if decide (id_of x = id) then Some x else find_by_id id_of id xs.
Proof.
  unfold find_by_id. cbn. case_decide; [done | ].
  by destruct (list_find _ xs) as [[i y]|].
Qed.

(** [find_by_id] after the found document is written back. *)
Lemma find_by_id_replace {D} (id_of : D → ObjectId) (d : D) (docs : list D) :
  is_Some (find_by_id id_of (id_of d) docs) →
  find_by_id id_of (id_of d) (replace_by_id id_of d docs) = Some d.
Proof.
  induction docs as [|x xs IH]; cbn [replace_by_id].
  - intros [? H]. done.
  - rewrite find_by_id_cons. case_decide as Hx.
    + intros _. rewrite find_by_id_cons. by rewrite decide_True.
    + intros H. rewrite find_by_id_cons, decide_False by done. by apply IH.
Qed.

Lemma find_by_id_Some {D} (id_of : D → ObjectId) id (d : D) (docs : list D) :
  find_by_id id_of id docs = Some d → id_of d = id ∧ d ∈ docs.
Proof.
  unfold find_by_id. destruct (list_find _ docs) as [[i x]|] eqn:E; [| done].
  intros [= <-]. apply list_find_Some in E as (Hl & Hx & _).
  split; [done | ]. by eapply list_elem_of_lookup_2.
Qed.

Arguments find_by_id : simpl never.
Arguments updated : simpl never.
Arguments populate_author : simpl never.
Arguments inc_viewCount : simpl never.

Lemma populate_author_updated update t id m p :
  populate_author (updated update t id m) p = populate_author m p.
Proof. unfold updated. destruct (find_by_id _ _ _); [by destruct m | done]. Qed.

(** [getPost] on a well-formed identifier: the answer is the cached
    snapshot on a hit and the updated post otherwise; in both cases the
    store gets the view counted. *)
Lemma getPost_run postId id w :
  toObjectId postId = Some id →
  ∃ w', getPost postId w =
        (cache_aside (CacheService_get (CacheKeys_post postId) w).1
           match find_by_id post_id id (post_docs (mongo w)) with
           | Some p => Return (DocPost (populate_author (mongo w) (inc_viewCount (now w) p)))
           | None => Throw (NotFoundError "Post")
           end, w')
      ∧ mongo w' = updated inc_viewCount (now w) id (mongo w)
      ∧ now w' = now w.
Proof.
  intros Hid. unfold getPost.
  assert (isValid postId = true) as ->.
  { unfold isValid. apply bool_decide_eq_true. by eexists. }
  cbn [negb]. cbv zeta. rewrite bind_run.
  destruct (CacheService_get_run (CacheKeys_post postId) w) as (r & w1 & E & Hm & Ht).
  rewrite E. cbn [fst].
  destruct r as [d|]; cbn [cache_aside].
  - rewrite bind_run. cbn [logger modify]. rewrite bind_run, (cast_run _ id) by done.
    rewrite bind_run, findByIdAndUpdate_run. cbn [mret M_ret mongo now set_local set_mongo].
    rewrite Hm, Ht. eexists. split_and!; [reflexivity | done | done].
  - rewrite bind_run. cbn [logger modify]. rewrite bind_run, (cast_run _ id) by done.
    rewrite bind_run, findByIdAndUpdate_run. cbn [now mongo set_local set_mongo].
    rewrite Hm, Ht.
    destruct (find_by_id post_id id (post_docs (mongo w))) as [p|] eqn:Ef;
      cbn [fmap option_fmap option_map].
    + rewrite bind_run. cbn [gets mongo set_mongo]. rewrite bind_run.
      match goal with |- context [CacheService_set ?k ?v ?t ?w'] =>
        destruct (CacheService_set_run k v t w') as (w2 & E2 & Hm2 & Ht2) end.
      rewrite E2. cbn [mret M_ret]. rewrite populate_author_updated.
      eexists. split_and!; [reflexivity | exact Hm2 | by rewrite Ht2].
    + cbn [throw]. eexists. split_and!; [reflexivity | done | done].
Qed.

Lemma CacheService_get_storage_error key w :
  storage_error w → (CacheService_get key w).1 = Return None.
Proof.
  intros Hs. rewrite CacheService_get_outcome.
  destruct Hs as [-> | ->]; [done | by rewrite andb_false_r].
Qed.

Lemma CacheService_get_hit key d w :
  ¬ storage_error w →
  lookup_live (now w) key (cacheKeys (redis w)) = Some (Json d) →
  (CacheService_get key w).1 = Return (Some d).
Proof.
  intros Hs Hl. rewrite CacheService_get_outcome, Hl. unfold storage_error in Hs.
  destruct (redisClient (redis w)); [| by destruct Hs; left].
  destruct (fault_at 0 w); [by destruct Hs; right | done].
Qed.

Lemma CacheService_get_absent key w :
  lookup_live (now w) key (cacheKeys (redis w)) = None →
  (CacheService_get key w).1 = Return None.
Proof. intros Hl. rewrite CacheService_get_outcome, Hl. by destruct (_ && _). Qed.

(** C7.  With the cache backend failing, [CacheService.get] returns
    [null] and [CacheService.set] and [CacheService.delete] return
    normally: none of the three ever throws, and every rejected command
    leaves an error-level log entry.  The reads built on them still give
    the answer of the store: [listPosts] the result of its query, and
    [getPost] the post with its view counted. *)
Theorem cache_degrades_gracefully :
  (∀ key, never_throws (CacheService_get key))
  ∧ (∀ key value ttl, never_throws (CacheService_set key value ttl))
  ∧ (∀ key, never_throws (CacheService_delete key))
  ∧ (∀ key w, storage_error w → (CacheService_get key w).1 = Return None)
  ∧ (∀ key value ttl,
       accounted (CacheService_get key) ∧ accounted (CacheService_set key value ttl)
       ∧ accounted (CacheService_delete key))
  ∧ (∀ filters pagination author w,
       storage_error w → author_filter filters = Return author →
       (listPosts filters pagination w).1 =
         Return (DocPosts (list_result author filters pagination (mongo w))))
  ∧ (∀ postId id p w,
       storage_error w → toObjectId postId = Some id →
       find_by_id post_id id (post_docs (mongo w)) = Some p →
       (getPost postId w).1 =
         Return (DocPost (populate_author (mongo w) (inc_viewCount (now w) p)))).
Proof.
  split_and!.
  - apply CacheService_get_never_throws.
  - apply CacheService_set_never_throws.
  - apply CacheService_delete_never_throws.
  - apply CacheService_get_storage_error.
  - intros key value ttl. split_and!.
    + apply accounted_CacheService_get.
    + apply accounted_CacheService_set.
    + apply accounted_CacheService_delete.
  - intros filters pagination author w Hs Ha.
    destruct (listPosts_outcome filters pagination w) as [-> _].
    by rewrite CacheService_get_storage_error, Ha.
  - intros postId id p w Hs Hid Hp.
    destruct (getPost_run postId id w Hid) as (w' & -> & _).
    cbn [fst]. by rewrite CacheService_get_storage_error, Hp.
Qed.

(** C9.  For an existing post, every call of [getPost] counts one view in
    the store, on a hit as on a miss and whatever the cache backend does;
    on a hit the caller gets the cached snapshot as it is, whatever the
    store holds, and on a miss the post as updated. *)
Theorem getPost_counts_every_view (postId : string) (id : ObjectId) (p : Post) (w : World) :
  toObjectId postId = Some id →
  find_by_id post_id id (post_docs (mongo w)) = Some p →
  find_by_id post_id id (post_docs (mongo (getPost postId w).2))
    = Some (inc_viewCount (now w) p)
  ∧ viewCount (inc_viewCount (now w) p) = S (viewCount p)
  ∧ (∀ cached,
       ¬ storage_error w →
       lookup_live (now w) (CacheKeys_post postId) (cacheKeys (redis w)) = Some (Json cached) →
       (getPost postId w).1 = Return cached)
  ∧ (lookup_live (now w) (CacheKeys_post postId) (cacheKeys (redis w)) = None →
     (getPost postId w).1 =
       Return (DocPost (populate_author (mongo w) (inc_viewCount (now w) p)))).
Proof.
  intros Hid Hp.
  destruct (getPost_run postId id w Hid) as (w' & E & Hm & _). rewrite E. cbn [fst snd].
  split_and!.
  - rewrite Hm. unfold updated. rewrite Hp.
    pose proof (find_by_id_Some _ _ _ _ Hp) as [Hidp _].
    replace (post_docs (set_post_docs (replace_by_id post_id (inc_viewCount (now w) p))
                          (mongo w)))
      with (replace_by_id post_id (inc_viewCount (now w) p) (post_docs (mongo w)))
      by (by destruct (mongo w)).
    rewrite <- Hidp at 1.
    change (post_id p) with (post_id (inc_viewCount (now w) p)) at 1.
    apply find_by_id_replace.
    change (post_id (inc_viewCount (now w) p)) with (post_id p).
    rewrite Hidp, Hp. by eexists.
  - done.
  - intros cached Hs Hl. by rewrite (CacheService_get_hit _ cached).
  - intros Hl. by rewrite CacheService_get_absent, Hp.
Qed.

(** ** Notification service *)

(** C3.  When the recipient is the actor, [createNotification] stores no
    notification, pushes nothing to any socket and publishes nothing: the
    store, every socket and the channels are as before.  With well-formed
    identifiers it returns [null]; with a malformed one it throws the
    validation error instead. *)
Theorem createNotification_self_suppressed (data : CreateNotificationDTO) (w : World) :
  recipientId data = actorId data →
  mongo (createNotification data w).2 = mongo w
  ∧ sockets (local (createNotification data w).2) = sockets (local w)
  ∧ redis (createNotification data w).2 = redis w
  ∧ (createNotification data w).1 =
      if isValid (recipientId data) then Return None
      else Throw (ValidationError "Invalid recipient ID").
Proof.
  intros Heq. unfold createNotification. rewrite try_catch_run, <- Heq.
  destruct (isValid (recipientId data)); cbn [negb].
  - rewrite String.eqb_refl. by destruct w as [r m [] t].
  - by destruct w as [r m [] t].
Qed.

#[global] Instance newer_first_trans {D} (createdAt : D → nat) :
  Transitive (newer_first createdAt).
Proof. unfold newer_first. intros a b c. lia. Qed.

#[global] Instance newer_first_total {D} (createdAt : D → nat) :
  Total (newer_first createdAt).
Proof. unfold newer_first. intros a b. lia. Qed.

(** The first [n] of a list sorted by [R] are in order, and each of them
    is before each of those left out. *)
Lemma take_sorted_first {D} (R : relation D) `{!∀ a b, Decision (R a b)}
    `{!Transitive R} `{!Total R} (n : nat) (l : list D) :
  StronglySorted R (take n (merge_sort R l))
  ∧ (∀ x y, x ∈ take n (merge_sort R l) → y ∈ l → y ∉ take n (merge_sort R l) → R x y).
Proof.
  pose proof (StronglySorted_merge_sort R l) as Hs.
  rewrite <- (take_drop n (merge_sort R l)) in Hs.
  split; [by eapply StronglySorted_app_1_l | ].
  intros x y Hx Hy Hny.
  eapply StronglySorted_app_1_elem_of; [exact Hs | done | ].
  assert (y ∈ merge_sort R l) as Hin by (by rewrite merge_sort_Permutation).
  rewrite <- (take_drop n (merge_sort R l)) in Hin.
  apply elem_of_app in Hin as [|]; done.
Qed.

(** C10.  [getUserNotifications] returns for a well-formed user id, and
    what it returns is at most 50 notifications: the matching ones, most
    recent first, cut after the 50th, so that every matching notification
    left out is no more recent than each one returned.  The function takes
    the user and the filters [isRead] and [type] and nothing else: there is
    no argument to reach the older ones. *)
Theorem getUserNotifications_most_recent_50 (user : string) (filters : NotificationFilters)
    (w : World) (userOid : ObjectId) :
  toObjectId user = Some userOid →
  let matching := filter (notification_matches userOid filters) (notification_docs (mongo w)) in
  ∃ found,
    getUserNotifications user filters w = (Return (populate_actor (mongo w) <$> found), w)
    ∧ found = take 50 (merge_sort (newer_first notification_createdAt) matching)
    ∧ length found = 50 `min` length matching
    ∧ length found ≤ 50
    ∧ StronglySorted (newer_first notification_createdAt) found
    ∧ (∀ n, n ∈ found → n ∈ notification_docs (mongo w) ∧ notification_matches userOid filters n)
    ∧ (∀ n older, n ∈ found → older ∈ matching → older ∉ found →
         notification_createdAt older ≤ notification_createdAt n).
Proof.
  intros Hid matching.
  exists (take 50 (merge_sort (newer_first notification_createdAt) matching)).
  destruct (take_sorted_first (newer_first notification_createdAt) 50 matching) as [Hs Hfirst].
  split_and!.
  - unfold getUserNotifications.
    assert (isValid user = true) as ->.
    { unfold isValid. apply bool_decide_eq_true. by eexists. }
    cbn [negb]. rewrite bind_run, (cast_run _ userOid) by done. done.
  - done.
  - rewrite length_take. f_equal. apply Permutation_length, merge_sort_Permutation.
  - rewrite length_take. lia.
  - done.
  - intros n Hn.
    assert (n ∈ matching) as Hm.
    { rewrite <- (merge_sort_Permutation (newer_first notification_createdAt) matching).
      eapply elem_of_take in Hn as (i & Hi & _). by eapply list_elem_of_lookup_2. }
    unfold matching in Hm. apply list_elem_of_filter in Hm as [? ?]. done.
  - intros n older Hn Ho Hno. by apply (Hfirst n older).
Qed.

(** ** Likes *)

Arguments with_likes : simpl never.
Arguments with_bookmarks : simpl never.
Arguments replace_by_id : simpl never.

Lemma run_kept {A} (m : M A) (P : World → Prop) (w : World) :
  never_throws m → preserves P m → P w → ∃ a w', m w = (Return a, w') ∧ P w'.
Proof.
  intros Hn Hp HP. destruct (Hn w) as (a & w' & E). exists a, w'. split; [done | ].
  specialize (Hp w HP). by rewrite E in Hp.
Qed.

(** Side conditions of [preserves] for an invariant given in terms of
    fields of the world. *)
Ltac frame_side :=
  intros;
  repeat match goal with w : World |- _ => destruct w as [[] [] [] ?] end;
  cbn in *; done.

Lemma emitNotificationToUser_preserves P user n :
  (∀ w f, P w → P (set_local (set_log f) w)) →
  (∀ w f, P w → P (set_local (set_sockets f) w)) →
  preserves P (NotificationService_emitNotificationToUser user n).
Proof.
  intros Hl Hs.
  unfold NotificationService_emitNotificationToUser, emitNotificationToUser, io_to_emit.
  preserves_auto; intros; first [by apply Hl | by apply Hs].
Qed.

(** [createNotification] touches the notifications, the supply of
    identifiers, the sockets and the log. *)
Lemma createNotification_preserves P data :
  (∀ w f, P w → P (set_local (set_log f) w)) →
  (∀ w f, P w → P (set_local (set_sockets f) w)) →
  (∀ w f, P w → P (set_mongo (set_notification_docs f) w)) →
  (∀ w n, P w → P (set_mongo (set_nextId n) w)) →
  preserves P (createNotification data).
Proof.
  intros Hl Hs Hn Hi. unfold createNotification, notification_validate, new_Date.
  preserves_auto; try (by apply emitNotificationToUser_preserves);
    try (intros; first [by apply Hl | by apply Hn]).
  intros w Hw. unfold fresh_id. cbn. by apply Hi.
Qed.

(** The posts and the cache are out of reach of the notifications. *)
Definition posts_and_redis (ps : list Post) (r : Redis) (t : nat) (w : World) : Prop :=
  post_docs (mongo w) = ps ∧ redis w = r ∧ now w = t.

Lemma fire_and_forget_never_throws task message : never_throws (fire_and_forget task message).
Proof. unfold fire_and_forget. auto with no_throw. Qed.

Lemma likeNotification_kept ps r t a b c d message :
  preserves (posts_and_redis ps r t)
    (fire_and_forget (createLikeNotification a b c d) message).
Proof.
  unfold fire_and_forget, createLikeNotification.
  preserves_auto; try apply createNotification_preserves; frame_side.
Qed.

Lemma invalidatePostCaches_run postId w :
  ∃ w', invalidatePostCaches postId w = (Return tt, w') ∧ same_store w w'.
Proof.
  destruct (run_kept (invalidatePostCaches postId) (same_store w) w) as ([] & w' & E & H).
  - apply invalidatePostCaches_never_throws.
  - apply invalidatePostCaches_beside, same_store_beside.
  - done.
  - by exists w'.
Qed.

Lemma isValid_true s id : toObjectId s = Some id → isValid s = true.
Proof. intros H. unfold isValid. apply bool_decide_eq_true. by eexists. Qed.

(** The posts after a successful [likePost]. *)
Definition liked (u : ObjectId) (t : nat) (p : Post) (ps : list Post) : list Post :=
  if bool_decide (u ∈ likes p) then ps
  else replace_by_id post_id (with_likes (likes p ++ [u]) t p) ps.

(** [likePost] on an existing post with well-formed identifiers returns,
    whatever the cache backend does, and leaves the posts [liked]. *)
Lemma likePost_run postId id user u p w :
  toObjectId postId = Some id → toObjectId user = Some u →
  find_by_id post_id id (post_docs (mongo w)) = Some p →
  ∃ w', likePost postId user w = (Return tt, w')
      ∧ post_docs (mongo w') = liked u (now w) p (post_docs (mongo w))
      ∧ now w' = now w.
Proof.
  intros Hid Hu Hp. unfold likePost, liked. rewrite (isValid_true _ id) by done.
  cbn [negb]. rewrite bind_run, (cast_run _ id) by done.
  rewrite bind_run. cbn [gets]. rewrite Hp.
  rewrite bind_run, (cast_run _ u) by done. cbv zeta.
  destruct (bool_decide (u ∈ likes p)); cbn [negb].
  - by exists w.
  - rewrite bind_run. cbn [new_Date gets]. rewrite bind_run. cbn [save_post modify].
    rewrite bind_run.
    match goal with |- context [invalidatePostCaches ?k ?w'] =>
      destruct (invalidatePostCaches_run k w') as (w1 & E1 & Hm1 & Ht1) end.
    rewrite E1.
    match goal with |- context [fire_and_forget ?task ?msg w1] =>
      destruct (run_kept (fire_and_forget task msg)
                  (posts_and_redis (post_docs (mongo w1)) (redis w1) (now w1)) w1)
        as ([] & w2 & E2 & Hps & _ & Ht2)
    end.
    + apply fire_and_forget_never_throws.
    + apply likeNotification_kept.
    + done.
    + rewrite E2. exists w2. split_and!; [done | | ].
      * rewrite Hps, Hm1. by destruct w as [r [] l t].
      * rewrite Ht2, Ht1. done.
Qed.

(** The post after a successful [unlikePost]. *)
Lemma unlikePost_run postId id user u p w :
  toObjectId postId = Some id → toObjectId user = Some u →
  find_by_id post_id id (post_docs (mongo w)) = Some p →
  ∃ w' p', unlikePost postId user w = (Return tt, w')
      ∧ find_by_id post_id id (post_docs (mongo w')) = Some p'
      ∧ likes p' = filter (λ i, i ≠ u) (likes p)
      ∧ now w' = now w.
Proof.
  intros Hid Hu Hp. unfold unlikePost. rewrite (isValid_true _ id) by done.
  cbn [negb]. rewrite bind_run, (cast_run _ id) by done.
  rewrite bind_run. cbn [gets]. rewrite Hp.
  rewrite bind_run, (cast_run _ u) by done. cbv zeta. rewrite bind_run.
  case_bool_decide as Hsame.
  - cbn [mret M_ret].
    match goal with |- context [invalidatePostCaches ?k ?w'] =>
      destruct (invalidatePostCaches_run k w') as (w1 & E1 & Hm1 & Ht1) end.
    rewrite E1. exists w1, p. split_and!; [done | by rewrite Hm1 | done | done].
  - rewrite bind_run. cbn [new_Date gets save_post modify].
    match goal with |- context [invalidatePostCaches ?k ?w'] =>
      destruct (invalidatePostCaches_run k w') as (w1 & E1 & Hm1 & Ht1) end.
    rewrite E1.
    exists w1, (with_likes (filter (λ i, i ≠ u) (likes p)) (now w) p).
    split_and!; [done | | done | done].
    rewrite Hm1. cbn [mongo set_mongo post_docs set_post_docs].
    pose proof (find_by_id_Some _ _ _ _ Hp) as [Hid1 _].
    rewrite <- Hid1 at 1.
    change (post_id p)
      with (post_id (with_likes (filter (λ i, i ≠ u) (likes p)) (now w) p)) at 1.
    apply find_by_id_replace.
    change (post_id (with_likes (filter (λ i, i ≠ u) (likes p)) (now w) p))
      with (post_id p).
    rewrite Hid1, Hp. by eexists.
Qed.

(** How many times a user is in the like list of a post. *)
Definition memberships (u : ObjectId) (p : Post) : nat :=
  length (filter (λ i, i = u) (likes p)).

Lemma filter_eq_absent (u : ObjectId) (l : list ObjectId) :
  u ∉ l → filter (λ i, i = u) l = [].
Proof.
  induction l as [|x l IH]; [done | ].
  intros Hn. apply not_elem_of_cons in Hn as [Hx Hl].
  rewrite filter_cons, decide_False by done. by apply IH.
Qed.

Lemma filter_eq_NoDup (u : ObjectId) (l : list ObjectId) :
  NoDup l → u ∈ l → length (filter (λ i, i = u) l) = 1.
Proof.
  induction 1 as [|x l Hx Hl IH]; [by intros ?%elem_of_nil | ].
  intros Hin. rewrite filter_cons. case_decide as Hd.
  - subst x. cbn. by rewrite filter_eq_absent.
  - apply elem_of_cons in Hin as [|]; [congruence | by apply IH].
Qed.

Lemma filter_eq_after_remove (u : ObjectId) (l : list ObjectId) :
  filter (λ i, i = u) (filter (λ i, i ≠ u) l) = [].
Proof.
  apply filter_eq_absent. intros Hin. apply list_elem_of_filter in Hin as [Hne _]. done.
Qed.

Lemma find_liked id u t p ps :
  find_by_id post_id id ps = Some p →
  ∃ p', find_by_id post_id id (liked u t p ps) = Some p'
      ∧ likes p' = (if bool_decide (u ∈ likes p) then likes p else likes p ++ [u]).
Proof.
  intros Hp. unfold liked. destruct (bool_decide (u ∈ likes p)); [by exists p | ].
  exists (with_likes (likes p ++ [u]) t p). split; [ | done].
  pose proof (find_by_id_Some _ _ _ _ Hp) as [Hid _].
  rewrite <- Hid at 1.
  change (post_id p) with (post_id (with_likes (likes p ++ [u]) t p)) at 1.
  apply find_by_id_replace.
  change (post_id (with_likes (likes p ++ [u]) t p)) with (post_id p).
  rewrite Hid, Hp. by eexists.
Qed.

(** Any number of likes in a row: the post is there afterwards, with the
    user added once if absent and the list as it was otherwise. *)
Lemma times_likePost postId id user u N :
  toObjectId postId = Some id → toObjectId user = Some u →
  ∀ p w, find_by_id post_id id (post_docs (mongo w)) = Some p →
  ∃ w' p', times N (likePost postId user) w = (Return tt, w')
         ∧ find_by_id post_id id (post_docs (mongo w')) = Some p'
         ∧ likes p' = (if decide (N = 0) then likes p
                       else if bool_decide (u ∈ likes p) then likes p else likes p ++ [u]).
Proof.
  intros Hid Hu. induction N as [|N IH]; intros p w Hp.
  - exists w, p. done.
  - cbn [times]. rewrite bind_run.
    destruct (likePost_run postId id user u p w Hid Hu Hp) as (w1 & -> & Hps & _).
    destruct (find_liked id u (now w) p _ Hp) as (p1 & Hp1 & Hl1).
    rewrite <- Hps in Hp1.
    destruct (IH p1 w1 Hp1) as (w' & p' & E & Hp' & Hl').
    exists w', p'. split_and!; [done | done | ].
    rewrite Hl', Hl1. destruct (decide (S N = 0)) as [|_]; [lia | ].
    destruct (decide (N = 0)); [done | ].
    destruct (bool_decide (u ∈ likes p)) eqn:Hb; [by rewrite Hb | ].
    rewrite bool_decide_eq_true_2; [done | ].
    apply elem_of_app. right. by apply list_elem_of_singleton.
Qed.

(** C5.  On an existing post whose like list has no duplicates, and with
    well-formed identifiers, [N] calls of [likePost] all return and, for
    [N >= 1], leave the user exactly once in the like list; [unlikePost]
    afterwards returns and leaves the user out of it, whatever [N] was. *)
Theorem likePost_idempotent (postId user : string) (id u : ObjectId) (p : Post)
    (w : World) (N : nat) :
  toObjectId postId = Some id →
  toObjectId user = Some u →
  find_by_id post_id id (post_docs (mongo w)) = Some p →
  NoDup (likes p) →
  ∃ w1 p1,
    times N (likePost postId user) w = (Return tt, w1)
    ∧ find_by_id post_id id (post_docs (mongo w1)) = Some p1
    ∧ (1 ≤ N → memberships u p1 = 1)
    ∧ ∃ w2 p2,
        unlikePost postId user w1 = (Return tt, w2)
        ∧ find_by_id post_id id (post_docs (mongo w2)) = Some p2
        ∧ memberships u p2 = 0.
Proof.
  intros Hid Hu Hp Hnd.
  destruct (times_likePost postId id user u N Hid Hu p w Hp) as (w1 & p1 & E & Hp1 & Hl1).
  exists w1, p1. split_and!; [done | done | | ].
  - intros HN. unfold memberships. rewrite Hl1, decide_False by lia.
    destruct (bool_decide (u ∈ likes p)) eqn:Hb.
    + apply bool_decide_eq_true in Hb. by apply filter_eq_NoDup.
    + apply bool_decide_eq_false in Hb.
      rewrite filter_app, filter_eq_absent by done.
      rewrite filter_cons, decide_True by done. done.
  - destruct (unlikePost_run postId id user u p1 w1 Hid Hu Hp1)
      as (w2 & p2 & E2 & Hp2 & Hl2 & _).
    exists w2, p2. split_and!; [done | done | ].
    unfold memberships. by rewrite Hl2, filter_eq_after_remove.
Qed.

(** ** Direct chats *)

Lemma formatMessageResponse_pure message :
  ∃ o, ∀ w, formatMessageResponse message w = (o, w).
Proof. unfold formatMessageResponse. destruct (mv_sender message); by eexists. Qed.

Lemma formatChatResponse_pure chat : ∃ o, ∀ w, formatChatResponse chat w = (o, w).
Proof.
  unfold formatChatResponse.
  destruct (chv_lastMessage chat) as [[m|]|].
  - destruct (formatMessageResponse_pure m) as [[r|e] Hm].
    + eexists. intros w. rewrite bind_run, bind_run, Hm. cbn. reflexivity.
    + eexists. intros w. rewrite bind_run, bind_run, Hm. reflexivity.
  - eexists. intros w. rewrite bind_run. reflexivity.
  - eexists. intros w. rewrite bind_run. reflexivity.
Qed.

(** The filter does not depend on the order of the two users. *)
Lemma is_direct_chat_of_sym a b c : is_direct_chat_of a b c ↔ is_direct_chat_of b a c.
Proof. unfold is_direct_chat_of. split; intros (? & ? & ? & ?); done. Qed.

Lemma list_find_iff {D} (P Q : D → Prop) `{!∀ x, Decision (P x)} `{!∀ x, Decision (Q x)}
    (l : list D) :
  (∀ x, P x ↔ Q x) → list_find P l = list_find Q l.
Proof.
  intros Hiff. induction l as [|x l IH]; [done | ]. cbn.
  destruct (decide (P x)) as [HP|HP], (decide (Q x)) as [HQ|HQ];
    [done | by apply Hiff in HP | by apply Hiff in HQ | by rewrite IH].
Qed.

(** The existing chat as the query of [getOrCreateDirectChat] returns it. *)
Definition existing_view (m : Mongo) (c : Chat) : ChatView :=
  mkChatView c (populate_participants m c) (populate_lastMessage m c).

(** The chat [getOrCreateDirectChat] creates. *)
Definition new_direct_chat (a b : ObjectId) (w : World) : Chat :=
  mkChat (generateId (nextId (mongo w))) direct None [a; b] None (now w) (now w).

Arguments new_direct_chat : simpl never.
Arguments existing_view : simpl never.
Arguments populate_participants : simpl never.

Lemma strings_differ userA userB a b :
  toObjectId userA = Some a → toObjectId userB = Some b → a ≠ b →
  String.eqb userA userB = false.
Proof.
  intros Ha Hb Hne. apply String.eqb_neq. intros ->. congruence.
Qed.

(** The call when a direct chat of the two users exists: it is answered
    from that chat and the store stays as it is. *)
Lemma getOrCreateDirectChat_existing userA userB a b i c w :
  toObjectId userA = Some a → toObjectId userB = Some b → a ≠ b →
  list_find (is_direct_chat_of a b) (chat_docs (mongo w)) = Some (i, c) →
  ∃ w', getOrCreateDirectChat userA userB w
        = ((formatChatResponse (existing_view (mongo w) c) w).1, w')
      ∧ mongo w' = mongo w.
Proof.
  intros Ha Hb Hne Hf. unfold getOrCreateDirectChat.
  rewrite try_catch_run, (strings_differ userA userB a b) by done.
  rewrite bind_run, (cast_run _ a) by done.
  rewrite bind_run, (cast_run _ b) by done.
  rewrite bind_run. cbn [gets]. rewrite Hf. cbn [fmap option_fmap option_map snd].
  rewrite bind_run. cbn [logger modify].
  fold (existing_view (mongo w) c).
  destruct (formatChatResponse_pure (existing_view (mongo w) c)) as [o Ho].
  rewrite !Ho. cbn [fst]. destruct o as [r|e].
  - eexists. split; [reflexivity | by destruct w as [? ? [] ?]].
  - rewrite bind_run. cbn. eexists. split; [reflexivity | by destruct w as [? ? [] ?]].
Qed.

Lemma find_by_id_fresh {D} (id_of : D → ObjectId) (d : D) (docs : list D) :
  id_of d ∉ id_of <$> docs → find_by_id id_of (id_of d) (docs ++ [d]) = Some d.
Proof.
  induction docs as [|x xs IH]; cbn [app fmap list_fmap].
  - intros _. rewrite find_by_id_cons. by rewrite decide_True.
  - intros Hn. apply not_elem_of_cons in Hn as [Hx Hxs].
    rewrite find_by_id_cons, decide_False by done. by apply IH.
Qed.

Lemma populate_participants_users m m' c :
  user_docs m = user_docs m' → populate_participants m c = populate_participants m' c.
Proof.
  intros H. unfold populate_participants, populate_user. by rewrite H.
Qed.

Lemma new_direct_chat_matches a b w : is_direct_chat_of a b (new_direct_chat a b w).
Proof.
  unfold is_direct_chat_of, new_direct_chat. cbn.
  split_and!; [done | | | done].
  - apply elem_of_cons. by left.
  - apply elem_of_cons. right. apply elem_of_cons. by left.
Qed.

(** The call with two strings that differ, when no direct chat of the two
    identifiers exists and the next identifier is not taken: one chat is
    added and answers the call. *)
Lemma getOrCreateDirectChat_new userA userB a b w :
  toObjectId userA = Some a → toObjectId userB = Some b → userA ≠ userB →
  list_find (is_direct_chat_of a b) (chat_docs (mongo w)) = None →
  generateId (nextId (mongo w)) ∉ chat_id <$> chat_docs (mongo w) →
  ∃ w', getOrCreateDirectChat userA userB w
        = ((formatChatResponse
              (mkChatView (new_direct_chat a b w)
                 (populate_participants (mongo w) (new_direct_chat a b w)) None) w).1, w')
      ∧ chat_docs (mongo w') = chat_docs (mongo w) ++ [new_direct_chat a b w]
      ∧ user_docs (mongo w') = user_docs (mongo w)
      ∧ message_docs (mongo w') = message_docs (mongo w).
Proof.
  intros Ha Hb Hne Hf Hfresh. unfold getOrCreateDirectChat.
  apply String.eqb_neq in Hne. rewrite try_catch_run, Hne.
  rewrite bind_run, (cast_run _ a) by done.
  rewrite bind_run, (cast_run _ b) by done.
  rewrite bind_run. cbn [gets]. rewrite Hf. cbn [fmap option_fmap option_map].
  rewrite bind_run. cbn [fresh_id]. rewrite bind_run. cbn [new_Date gets now set_mongo].
  fold (new_direct_chat a b w). cbv zeta.
  rewrite bind_run. unfold chat_pre_save.
  rewrite decide_False by (intros [_ H]; by apply H).
  cbn [mret M_ret]. rewrite bind_run. cbn [modify]. rewrite bind_run.
  cbn [gets mongo set_mongo chat_docs set_chat_docs set_nextId].
  rewrite (find_by_id_fresh chat_id (new_direct_chat a b w)) by done.
  cbn [fmap option_fmap option_map lastMessage new_direct_chat].
  fold (new_direct_chat a b w).
  match goal with |- context [formatChatResponse ?v] =>
    destruct (formatChatResponse_pure v) as [o Ho] end.
  rewrite bind_run. cbn [logger modify]. rewrite Ho.
  match goal with |- context [formatChatResponse ?v w] =>
    replace (formatChatResponse v w).1 with o end.
  - destruct o as [resp|e].
    + eexists. split; [reflexivity | done].
    + rewrite bind_run. cbn. eexists. split; [reflexivity | done].
  - match goal with |- context [formatChatResponse ?v w] =>
      destruct (formatChatResponse_pure v) as [o' Ho'] end.
    rewrite Ho'. cbn [fst].
    match type of Ho with ∀ _, formatChatResponse ?v _ = _ =>
      match type of Ho' with ∀ _, formatChatResponse ?v' _ = _ =>
        assert (v = v') as Hv
          by (f_equal; try (by apply populate_participants_users))
      end
    end.
    rewrite Hv in Ho. specialize (Ho w). rewrite Ho' in Ho. congruence.
Qed.

Lemma getOrCreateDirectChat_create userA userB a b w :
  toObjectId userA = Some a → toObjectId userB = Some b → a ≠ b →
  list_find (is_direct_chat_of a b) (chat_docs (mongo w)) = None →
  generateId (nextId (mongo w)) ∉ chat_id <$> chat_docs (mongo w) →
  ∃ w', getOrCreateDirectChat userA userB w
        = ((formatChatResponse
              (mkChatView (new_direct_chat a b w)
                 (populate_participants (mongo w) (new_direct_chat a b w)) None) w).1, w')
      ∧ chat_docs (mongo w') = chat_docs (mongo w) ++ [new_direct_chat a b w]
      ∧ user_docs (mongo w') = user_docs (mongo w)
      ∧ message_docs (mongo w') = message_docs (mongo w).
Proof.
  intros Ha Hb Hne. apply getOrCreateDirectChat_new; [done | done | ].
  intros ->. congruence.
Qed.

(** One user under two spellings of the identifier (the cast reads the
    hexadecimal digits whatever their case): the strings differ, so the
    call is not rejected, and when the user has no chat with themself one
    is created, with the user as both participants. *)
Lemma getOrCreateDirectChat_oneself userA userB a w :
  userA ≠ userB → toObjectId userA = Some a → toObjectId userB = Some a →
  list_find (is_direct_chat_of a a) (chat_docs (mongo w)) = None →
  generateId (nextId (mongo w)) ∉ chat_id <$> chat_docs (mongo w) →
  ∃ r w', getOrCreateDirectChat userA userB w = (Return r, w')
      ∧ cr_type r = direct
      ∧ chat_docs (mongo w') = chat_docs (mongo w) ++ [new_direct_chat a a w]
      ∧ participants (new_direct_chat a a w) = [a; a].
Proof.
  intros Hne Ha Hb Hf Hfresh.
  destruct (getOrCreateDirectChat_new userA userB a a w Ha Hb Hne Hf Hfresh)
    as (w' & E & Hc & _).
  unfold formatChatResponse in E. rewrite bind_run in E. cbn in E.
  eexists _, w'. split_and!; [exact E | done | done | done].
Qed.

Lemma formatChatResponse_outcome chat w w' :
  (formatChatResponse chat w).1 = (formatChatResponse chat w').1.
Proof. destruct (formatChatResponse_pure chat) as [o Ho]. by rewrite !Ho. Qed.

Lemma filter_none {D} (P : D → Prop) `{!∀ x, Decision (P x)} (l : list D) :
  list_find P l = None → filter P l = [].
Proof.
  intros Hn. apply list_find_None in Hn.
  induction Hn as [|x l Hx _ IH]; [done | ]. by rewrite filter_cons, decide_False.
Qed.

Lemma filter_some {D} (P : D → Prop) `{!∀ x, Decision (P x)} (l : list D) i x :
  list_find P l = Some (i, x) → 1 ≤ length (filter P l).
Proof.
  intros Hs. apply list_find_Some in Hs as (Hl & Hx & _).
  assert (x ∈ filter P l) as Hin.
  { apply list_elem_of_filter. split; [done | by eapply list_elem_of_lookup_2]. }
  destruct (filter P l); [by apply elem_of_nil in Hin | cbn; lia].
Qed.

(** The direct chats of two users in the store. *)
Definition direct_chats_of (a b : ObjectId) (w : World) : list Chat :=
  filter (is_direct_chat_of a b) (chat_docs (mongo w)).

(** A second call, in either order, after a call that returned. *)
Lemma getOrCreateDirectChat_again userA userB userX userY a b x y i c r1 w w1 :
  toObjectId userA = Some a → toObjectId userB = Some b →
  toObjectId userX = Some x → toObjectId userY = Some y → x ≠ y →
  (∀ ch, is_direct_chat_of a b ch ↔ is_direct_chat_of x y ch) →
  list_find (is_direct_chat_of a b) (chat_docs (mongo w1)) = Some (i, c) →
  (formatChatResponse (existing_view (mongo w1) c) w).1 = Return r1 →
  ∃ w2, getOrCreateDirectChat userX userY w1 = (Return r1, w2)
      ∧ chat_docs (mongo w2) = chat_docs (mongo w1).
Proof.
  intros Ha Hb Hx Hy Hne Hiff Hf Hr.
  rewrite (list_find_iff _ _ _ Hiff) in Hf.
  destruct (getOrCreateDirectChat_existing userX userY x y i c w1 Hx Hy Hne Hf)
    as (w2 & E & Hm).
  exists w2. rewrite E, (formatChatResponse_outcome _ w1 w), Hr, Hm. done.
Qed.

(** What holds of the direct chats.  For two distinct users, when a call
    of [getOrCreateDirectChat] returns (the next identifier of the driver
    being unused), a second call with the same two users, in the same or
    in the other order, returns the same chat and leaves the chats as
    they are; the first call adds a chat only when the two had none, so
    their direct chats are as many as before or one.  With the same string
    twice the call is rejected with the validation error and nothing is
    stored. *)
Theorem direct_chat_unique (userA userB : string) (a b : ObjectId)
    (r1 : ChatResponse) (w w1 : World) :
  toObjectId userA = Some a → toObjectId userB = Some b → a ≠ b →
  generateId (nextId (mongo w)) ∉ chat_id <$> chat_docs (mongo w) →
  getOrCreateDirectChat userA userB w = (Return r1, w1) →
  (∃ w2, getOrCreateDirectChat userA userB w1 = (Return r1, w2)
       ∧ chat_docs (mongo w2) = chat_docs (mongo w1))
  ∧ (∃ w2, getOrCreateDirectChat userB userA w1 = (Return r1, w2)
         ∧ chat_docs (mongo w2) = chat_docs (mongo w1))
  ∧ length (direct_chats_of a b w1) = 1 `max` length (direct_chats_of a b w)
  ∧ (∀ user w0,
       (getOrCreateDirectChat user user w0).1
         = Throw (ValidationError "Cannot create chat with yourself")
       ∧ mongo (getOrCreateDirectChat user user w0).2 = mongo w0).
Proof.
  intros Ha Hb Hne Hfresh Hrun.
  assert (∃ i c, list_find (is_direct_chat_of a b) (chat_docs (mongo w1)) = Some (i, c)
                 ∧ (formatChatResponse (existing_view (mongo w1) c) w).1 = Return r1
                 ∧ length (direct_chats_of a b w1) = 1 `max` length (direct_chats_of a b w))
    as (i & c & Hf1 & Hr1 & Hcount).
  { destruct (list_find (is_direct_chat_of a b) (chat_docs (mongo w))) as [[i c]|] eqn:Hf.
    - destruct (getOrCreateDirectChat_existing userA userB a b i c w Ha Hb Hne Hf)
        as (w' & E & Hm).
      rewrite E in Hrun.
      pose proof (f_equal fst Hrun) as Hr. pose proof (f_equal snd Hrun) as Hw.
      cbn [fst snd] in Hr, Hw. subst w1.
      exists i, c. unfold direct_chats_of. rewrite Hm. split_and!; [done | done | ].
      apply filter_some in Hf. lia.
    - destruct (getOrCreateDirectChat_create userA userB a b w Ha Hb Hne Hf Hfresh)
        as (w' & E & Hc & Hu & Hms).
      rewrite E in Hrun.
      pose proof (f_equal fst Hrun) as Hr. pose proof (f_equal snd Hrun) as Hw.
      cbn [fst snd] in Hr, Hw. subst w1.
      exists (0 + length (chat_docs (mongo w))), (new_direct_chat a b w).
      split_and!.
      + rewrite Hc, list_find_app_r by done. cbn.
        rewrite decide_True by apply new_direct_chat_matches. done.
      + rewrite <- Hr. do 2 f_equal. unfold existing_view. f_equal.
        by apply populate_participants_users.
      + unfold direct_chats_of. rewrite Hc, filter_app, (filter_none _ _ Hf).
        rewrite filter_cons, decide_True by apply new_direct_chat_matches. done. }
  split_and!.
  - by apply (getOrCreateDirectChat_again userA userB userA userB a b a b i c r1 w w1).
  - apply (getOrCreateDirectChat_again userA userB userB userA a b b a i c r1 w w1);
      [done | done | done | done | by intros -> | apply is_direct_chat_of_sym | done | done].
  - done.
  - intros user w0. unfold getOrCreateDirectChat.
    rewrite try_catch_run, String.eqb_refl. cbn. by destruct w0 as [? ? [] ?].
Qed.

(** ** Chat events *)

Lemma formatMessageResponse_preserves P message : preserves P (formatMessageResponse message).
Proof.
  unfold formatMessageResponse. destruct (mv_sender message);
    [apply preserves_ret | apply preserves_throw].
Qed.

(** [sendMessage] works on the store and the log only. *)
Lemma sendMessage_beside_redis r user chatId content :
  preserves (λ w, redis w = r) (sendMessage user chatId content).
Proof.
  unfold sendMessage, message_validate, chat_pre_save, new_Date.
  preserves_auto; try apply formatMessageResponse_preserves; try frame_side.
  intros w Hw. unfold fresh_id. cbn. by destruct w.
Qed.

(** The [send_message] listener sends no command to Redis: whatever the
    event and the state, nothing is published on any channel. *)
Lemma send_message_publishes_nothing socket payload callback w :
  redis (on_send_message socket payload callback w).2 = redis w.
Proof.
  assert (preserves (λ x, redis x = redis w) (on_send_message socket payload callback))
    as Hp; [ | by apply Hp].
  unfold on_send_message, io_to_emit.
  preserves_auto; try apply sendMessage_beside_redis; frame_side.
Qed.

(** The [typing] listener of an authenticated socket, with a chat
    identifier and Redis serving: the indicator goes out on the room
    channel. *)
Lemma typing_is_published socket chatId user w :
  socket_userId socket = Some user → user ≠ "" → chatId ≠ "" →
  redisPublisher (redis w) = true → faults (redis w) = [] →
  channel_log (redis (on_typing socket (Some chatId) w).2) =
  channel_log (redis w)
  ++ [("socket:room",
       mkPubSubMessage "user_typing" (TypingData chatId user (socket_email socket))
                       (Some ("chat:" +:+ chatId)) None)].
Proof.
  intros Hu Hne Hc Hp Hf. unfold on_typing. rewrite Hu. cbn [truthy default].
  apply String.eqb_neq in Hne, Hc. rewrite Hne, Hc. cbn [negb].
  destruct w as [[rc rp pk ck rs cl fs] m l t]. cbn in Hp, Hf. subst rp fs.
  reflexivity.
Qed.

(** ** Cache invalidation *)

Lemma glob_star_any (s : string) : glob_match "*" s = true.
Proof.
  induction s as [|c s IH]; [done | ].
  change (glob_match "*" (String c s)) with (false || glob_match "*" s).
  by rewrite IH.
Qed.

Lemma append_empty (s : string) : s +:+ "" = s.
Proof.
  induction s as [|c s IH]; [done | ].
  change (String c s +:+ "") with (String c (s +:+ "")). by rewrite IH.
Qed.

Lemma join_starts sep p ps : ∃ rest, join sep (p :: ps) = p +:+ rest.
Proof.
  destruct ps as [|q qs]; cbn [join].
  - exists "". by rewrite append_empty.
  - by eexists.
Qed.

Lemma postList_key_matches filters pg lim :
  glob_match CacheKeys_postListPattern (CacheKeys_postList filters pg lim) = true.
Proof.
  unfold CacheKeys_postList. cbn [app].
  destruct (join_starts ":" CachePrefix_POST_LIST
              ((if truthy (filter_author filters)
                then ["author:" +:+ default "" (filter_author filters)] else [])
               ++ tags_part (filter_tags filters)
               ++ match filter_status filters with
                  | Some s => ["status:" +:+ PostStatus_text s]
                  | None => []
                  end
               ++ (if 0 <? pg then ["page:" +:+ pretty pg] else [])
               ++ (if 0 <? lim then ["limit:" +:+ pretty lim] else []))) as [rest ->].
  apply (glob_star_any rest).
Qed.

Lemma search_key_matches query filters sortBy pg :
  glob_match CacheKeys_searchPattern (CacheKeys_search query filters sortBy pg) = true.
Proof.
  unfold CacheKeys_search. cbn [app].
  match goal with |- context [join ":" (CachePrefix_SEARCH :: ?ps)] =>
    destruct (join_starts ":" CachePrefix_SEARCH ps) as [rest ->] end.
  apply (glob_star_any rest).
Qed.

(** Redis serves every command to come. *)
Definition serving (w : World) : Prop :=
  redisClient (redis w) = true ∧ true ∉ faults (redis w).

(** No live key of the cache matches the pattern. *)
Definition cache_clear (pattern : string) (w : World) : Prop :=
  ∀ key, glob_match pattern key = true →
         lookup_live (now w) key (cacheKeys (redis w)) = None.

(** The world once the next entry of the fault schedule is taken. *)
Definition pop (w : World) : World :=
  set_redis (set_faults (tail (faults (redis w)))) w.

(** A served command runs on the server as it is. *)
Lemma command_serving {A} (run : nat → Redis → A * Redis) (w : World) :
  true ∉ faults (redis w) →
  command run w =
  (Return (run (now w) (redis (pop w))).1,
   set_redis (λ _, (run (now w) (redis (pop w))).2) (pop w)).
Proof.
  intros Hf. unfold command, pop. destruct w as [r m l t]. cbn in *.
  destruct (faults r) as [|[] fs] eqn:E; cbn.
  - replace (set_faults [] r) with r by (destruct r; cbn in *; by subst).
    by destruct (run t r).
  - exfalso. apply Hf. apply elem_of_cons. by left.
  - by destruct (run t (set_faults fs r)).
Qed.

Lemma pop_serving w : serving w → serving (pop w).
Proof.
  intros [Hc Hf]. split; [done | ]. cbn. intros Hin. apply Hf.
  destruct (faults (redis w)); [done | ]. apply elem_of_cons. by right.
Qed.

Lemma lookup_live_delete {V} t key keys (m : gmap string (Entry V)) :
  lookup_live t key (foldr delete m keys) =
  if decide (key ∈ keys) then None else lookup_live t key m.
Proof.
  unfold lookup_live. case_decide.
  - by rewrite lookup_foldr_delete.
  - by rewrite lookup_foldr_delete_not_elem_of.
Qed.

Lemma live_keys_spec {V} t key (m : gmap string (Entry V)) :
  key ∈ live_keys t m ↔ is_Some (lookup_live t key m).
Proof.
  unfold live_keys. rewrite list_elem_of_filter. split; [by intros [? _] | ].
  intros Hs. split; [done | ].
  unfold lookup_live in Hs. destruct (m !! key) as [e|] eqn:E; [ | by destruct Hs].
  apply list_elem_of_fmap. exists (key, e). split; [done | ].
  by apply elem_of_map_to_list.
Qed.

Arguments scan_keys : simpl never.
Arguments del_keys : simpl never.
Arguments pop : simpl never.

Lemma serving_log w f : serving w → serving (set_local (set_log f) w).
Proof. by intros [? ?]. Qed.

Lemma serving_del keys w :
  serving w → serving (set_redis (λ _, del_keys keys (redis w)) w).
Proof. by intros [? ?]. Qed.

(** [CacheService.delete] when Redis serves. *)
Lemma CacheService_delete_effect key w :
  serving w →
  ∃ w', CacheService_delete key w = (Return tt, w')
      ∧ serving w' ∧ same_store w w'
      ∧ cacheKeys (redis w') = delete key (cacheKeys (redis w))
      ∧ error_count w' = error_count w.
Proof.
  intros Hs. pose proof (pop_serving w Hs) as Hp. destruct Hs as [Hc Hf].
  unfold CacheService_delete, redis_del.
  rewrite try_catch_run, bind_run, getRedisClient_ready by done.
  rewrite bind_run, command_serving by done. cbn [fst snd logger modify].
  eexists. split; [reflexivity | ]. split_and!.
  - by apply serving_log, serving_del.
  - done.
  - done.
  - unfold error_count. cbn. rewrite filter_app, filter_cons, decide_False by done.
    by rewrite filter_nil, app_nil_r.
Qed.

(** [CacheService.invalidatePattern] when Redis serves: the live keys
    that match are deleted; when none matches nothing is deleted and the
    call returns all the same, with no error logged. *)
Lemma CacheService_invalidatePattern_effect pattern w :
  serving w →
  ∃ w', CacheService_invalidatePattern pattern w = (Return tt, w')
      ∧ serving w' ∧ same_store w w'
      ∧ cacheKeys (redis w')
        = foldr delete (cacheKeys (redis w)) (scan_keys pattern (now w) (redis w))
      ∧ error_count w' = error_count w.
Proof.
  intros Hs. pose proof (pop_serving w Hs) as Hp.
  pose proof (pop_serving _ Hp) as Hpp. destruct Hs as [Hc Hf].
  unfold CacheService_invalidatePattern, redis_scan, redis_del.
  rewrite try_catch_run, bind_run, getRedisClient_ready by done.
  rewrite bind_run, command_serving by done. cbn [fst snd].
  change (scan_keys pattern (now w) (redis (pop w)))
    with (scan_keys pattern (now w) (redis w)).
  destruct (scan_keys pattern (now w) (redis w)) as [|k ks] eqn:Ek; cbn [length Nat.ltb Nat.leb].
  - eexists. split; [reflexivity | ]. split_and!; [ | done | done | done].
    destruct Hp. by split.
  - rewrite bind_run.
    match goal with |- context [command ?run ?w0] =>
      rewrite (command_serving run w0) by (by destruct Hp) end.
    cbn [fst snd logger modify]. eexists. split; [reflexivity | ]. split_and!.
    + destruct Hpp. by split.
    + done.
    + done.
    + unfold error_count. cbn. rewrite filter_app, filter_cons, decide_False by done.
      by rewrite filter_nil, app_nil_r.
Qed.

(** After the invalidation of a pattern no live key matches it. *)
Lemma scan_delete_clears pattern (w w' : World) :
  now w' = now w →
  cacheKeys (redis w')
    = foldr delete (cacheKeys (redis w)) (scan_keys pattern (now w) (redis w)) →
  cache_clear pattern w'.
Proof.
  intros Ht Hk key Hm. rewrite Ht, Hk, lookup_live_delete. case_decide as Hin; [done | ].
  destruct (lookup_live (now w) key (cacheKeys (redis w))) as [v|] eqn:E; [ | done].
  exfalso. apply Hin. unfold scan_keys. apply list_elem_of_filter. split; [done | ].
  apply elem_of_app. right. apply live_keys_spec. by rewrite E.
Qed.

(** Deleting keys keeps a pattern clear. *)
Lemma cache_clear_delete pattern keys (w w' : World) :
  now w' = now w →
  cacheKeys (redis w') = foldr delete (cacheKeys (redis w)) keys →
  cache_clear pattern w → cache_clear pattern w'.
Proof.
  intros Ht Hk Hc key Hm. rewrite Ht, Hk, lookup_live_delete.
  case_decide; [done | by apply Hc].
Qed.

(** What the invalidation of the post caches establishes. *)
Definition invalidated (postId : option string) (w : World) : Prop :=
  cache_clear CacheKeys_postListPattern w
  ∧ cache_clear CacheKeys_searchPattern w
  ∧ (truthy postId = true →
     lookup_live (now w) (CacheKeys_post (default "" postId)) (cacheKeys (redis w)) = None).

Lemma invalidated_log postId w f :
  invalidated postId w → invalidated postId (set_local (set_log f) w).
Proof. by intros (? & ? & ?). Qed.

(** [invalidatePostCaches] when Redis serves. *)
Lemma invalidatePostCaches_effect postId w :
  serving w →
  ∃ w', invalidatePostCaches postId w = (Return tt, w')
      ∧ serving w' ∧ same_store w w' ∧ invalidated postId w'
      ∧ error_count w' = error_count w.
Proof.
  intros Hs. unfold invalidatePostCaches. rewrite try_catch_run, bind_run.
  assert (∃ w1, (if truthy postId
                 then CacheService_delete (CacheKeys_post (default "" postId))
                 else mret tt) w = (Return tt, w1)
              ∧ serving w1 ∧ same_store w w1
              ∧ (truthy postId = true →
                 lookup_live (now w1) (CacheKeys_post (default "" postId))
                   (cacheKeys (redis w1)) = None)
              ∧ error_count w1 = error_count w)
    as (w1 & -> & Hs1 & [Hm1 Ht1] & Hk1 & He1).
  { destruct (truthy postId).
    - destruct (CacheService_delete_effect (CacheKeys_post (default "" postId)) w Hs)
        as (w1 & E & ? & ? & Hk & ?).
      exists w1. split_and!; try done.
      intros _. unfold lookup_live. by rewrite Hk, lookup_delete_eq.
    - exists w. split_and!; done. }
  rewrite bind_run.
  destruct (CacheService_invalidatePattern_effect CacheKeys_postListPattern w1 Hs1)
    as (w2 & -> & Hs2 & [Hm2 Ht2] & Hk2 & He2).
  rewrite bind_run.
  destruct (CacheService_invalidatePattern_effect CacheKeys_searchPattern w2 Hs2)
    as (w3 & -> & Hs3 & [Hm3 Ht3] & Hk3 & He3).
  cbn [logger modify]. eexists. split; [reflexivity | ]. split_and!.
  - by apply serving_log.
  - unfold same_store in *. cbn. split; congruence.
  - apply invalidated_log. split_and!.
    + eapply (cache_clear_delete _ _ w2); [done | done | ].
      by eapply (scan_delete_clears _ w1).
    + by eapply (scan_delete_clears _ w2).
    + intros Htr. rewrite Ht3, Hk3, lookup_live_delete. case_decide; [done | ].
      rewrite Ht2, Hk2, lookup_live_delete. case_decide; [done | ]. by apply Hk1.
  - unfold error_count in *. cbn. rewrite filter_app, filter_cons, decide_False by done.
    rewrite filter_nil, app_nil_r. congruence.
Qed.

(** ** Stepping through the code of an operation *)

Definition wp {A} (m : M A) (Q : Outcome A → World → Prop) (w : World) : Prop :=
  Q (m w).1 (m w).2.

Lemma wp_bind {A B} (m : M A) (f : A → M B) Q w :
  wp m (λ o w', match o with
                | Return a => wp (f a) Q w'
                | Throw e => Q (Throw e) w'
                end) w →
  wp (m ≫= f) Q w.
Proof. unfold wp. rewrite bind_run. by destruct (m w) as [[a|e] w']. Qed.

Lemma wp_try_catch {A} (body : M A) (handler : Error → M A) Q w :
  wp body (λ o w', match o with
                   | Return a => Q (Return a) w'
                   | Throw e => wp (handler e) Q w'
                   end) w →
  wp (try_catch body handler) Q w.
Proof. unfold wp. rewrite try_catch_run. by destruct (body w) as [[a|e] w']. Qed.

Lemma wp_ret {A} (a : A) (Q : Outcome A → World → Prop) w : Q (Return a) w → wp (mret a) Q w.
Proof. done. Qed.

Lemma wp_throw {A} e (Q : Outcome A → World → Prop) w : Q (Throw e) w → wp (throw e) Q w.
Proof. done. Qed.

Lemma wp_gets {A} (f : World → A) (Q : Outcome A → World → Prop) w :
  Q (Return (f w)) w → wp (gets f) Q w.
Proof. done. Qed.

Lemma wp_modify (f : World → World) (Q : Outcome unit → World → Prop) w :
  Q (Return tt) (f w) → wp (modify f) Q w.
Proof. done. Qed.

Lemma wp_logger level message (Q : Outcome unit → World → Prop) w :
  Q (Return tt) (set_local (set_log (λ l, l ++ [(level, message)])) w) →
  wp (logger level message) Q w.
Proof. done. Qed.

Lemma wp_cast s (Q : Outcome ObjectId → World → Prop) w :
  match toObjectId s with
  | Some id => Q (Return id) w
  | None => Q (Throw (CastError s)) w
  end →
  wp (cast s) Q w.
Proof. unfold wp, cast. by destruct (toObjectId s). Qed.

Lemma wp_fresh_id (Q : Outcome ObjectId → World → Prop) w :
  Q (Return (generateId (nextId (mongo w))))
    (set_mongo (set_nextId (S (nextId (mongo w)))) w) →
  wp fresh_id Q w.
Proof. done. Qed.

(** A call known to return in a state with a given property. *)
Lemma wp_returns {A} (m : M A) (R : A → World → Prop) Q w :
  (∃ a w', m w = (Return a, w') ∧ R a w') →
  (∀ a w', R a w' → Q (Return a) w') →
  wp m Q w.
Proof. intros (a & w' & E & HR) HQ. unfold wp. rewrite E. by apply HQ. Qed.

Ltac wp_step :=
  lazymatch goal with
  | |- wp (mbind _ _) _ _ => apply wp_bind
  | |- wp (try_catch _ _) _ _ => apply wp_try_catch
  | |- wp (mret _) _ _ => apply wp_ret
  | |- wp (throw _) _ _ => apply wp_throw
  | |- wp (gets _) _ _ => apply wp_gets
  | |- wp new_Date _ _ => apply wp_gets
  | |- wp (modify _) _ _ => apply wp_modify
  | |- wp (save_post _) _ _ => apply wp_modify
  | |- wp (logger _ _) _ _ => apply wp_logger
  | |- wp fresh_id _ _ => apply wp_fresh_id
  | |- wp (cast ?s) _ _ => apply wp_cast; destruct (toObjectId s) eqn:?
  | |- wp (if ?b then _ else _) _ _ => destruct b eqn:?
  | |- wp (match ?x with _ => _ end) _ _ => destruct x eqn:?
  | |- wp (let _ := _ in _) _ _ => cbv zeta
  end; cbv beta iota.

Ltac wp_steps := repeat wp_step.

(** ** Writes invalidate *)

(** What a read finds in the store. *)
Definition answer_of_store (q : PostRead) (m : Mongo) : Outcome CacheDoc :=
  match q with
  | ListPosts filters pagination =>
      match author_filter filters with
      | Return a => Return (DocPosts (list_result a filters pagination m))
      | Throw e => Throw e
      end
  | SearchPosts query filters pagination sortBy =>
      match author_filter filters with
      | Return a => Return (DocPosts (search_result query a filters pagination sortBy m))
      | Throw e => Throw e
      end
  end.

(** The postcondition of a write: when it returns, either the store is
    as it was or the caches are invalidated. *)
Definition invalidates (w0 : World) (postId : option string)
    {A} (o : Outcome A) (w : World) : Prop :=
  is_return o = true → mongo w = mongo w0 ∨ invalidated postId w.

(** The state on which [invalidated] depends. *)
Definition redis_and_clock (r : Redis) (t : nat) (w : World) : Prop :=
  redis w = r ∧ now w = t.

Lemma invalidated_redis_and_clock postId w w' :
  redis_and_clock (redis w) (now w) w' → invalidated postId w → invalidated postId w'.
Proof.
  intros [Hr Ht] (H1 & H2 & H3). unfold invalidated, cache_clear. rewrite Hr, Ht. done.
Qed.

Lemma notification_task_kept r t (task : M unit) message :
  preserves (redis_and_clock r t) task →
  ∀ w, redis_and_clock r t w →
  ∃ a w', fire_and_forget task message w = (Return a, w') ∧ redis_and_clock r t w'.
Proof.
  intros Ht w Hw. apply run_kept; [apply fire_and_forget_never_throws | | done].
  unfold fire_and_forget. preserves_auto. frame_side.
Qed.

Lemma createNotification_redis_and_clock r t data :
  preserves (redis_and_clock r t) (createNotification data).
Proof. apply createNotification_preserves; frame_side. Qed.

Lemma wp_returns_tt (m : M unit) (R : World → Prop) Q w :
  (∃ w', m w = (Return tt, w') ∧ R w') →
  (∀ w', R w' → Q (Return tt) w') →
  wp m Q w.
Proof. intros (w' & E & HR) HQ. unfold wp. rewrite E. by apply HQ. Qed.

(** The step over [invalidatePostCaches], given [Hs : serving _]. *)
Ltac wp_invalidate Hs :=
  lazymatch goal with
  | |- wp (invalidatePostCaches ?pid) _ ?w0 =>
      let w' := fresh "w" in
      let Hs' := fresh "Hs" in
      let Hst := fresh "Hst" in
      let Hinv := fresh "Hinv" in
      apply (wp_returns_tt _
               (λ w', serving w' ∧ same_store w0 w' ∧ invalidated pid w'
                      ∧ error_count w' = error_count w0));
      [ apply invalidatePostCaches_effect; exact Hs
      | intros w' (Hs' & Hst & Hinv & _); cbv beta iota ]
  end.

(** The step over a notification task that is not awaited. *)
Ltac wp_notify Hinv :=
  lazymatch goal with
  | |- wp (fire_and_forget ?task ?msg) _ ?w0 =>
      let w' := fresh "w" in
      let Hk := fresh "Hk" in
      apply (wp_returns _ (λ _ w', redis_and_clock (redis w0) (now w0) w'));
      [ apply notification_task_kept; [ | done]
      | intros [] w' Hk; cbv beta iota;
        apply (invalidated_redis_and_clock _ _ _ Hk) in Hinv ]
  end.

Lemma createPost_invalidates user data w :
  serving w → wp (createPost user data) (invalidates w None) w.
Proof.
  intros Hs. unfold createPost, post_validate. wp_steps; try (by intros ?).
  wp_invalidate Hs. wp_steps. intros _. by right.
Qed.

Lemma likeNotification_redis_and_clock r t a b c d :
  preserves (redis_and_clock r t) (createLikeNotification a b c d).
Proof.
  unfold createLikeNotification. preserves_auto. apply createNotification_redis_and_clock.
Qed.

Lemma likePost_invalidates postId user w :
  serving w → wp (likePost postId user) (invalidates w (Some postId)) w.
Proof.
  intros Hs. unfold likePost. wp_steps; try (by intros ?); try (intros _; by left).
  wp_invalidate Hs. wp_notify Hinv; [apply likeNotification_redis_and_clock | ].
  intros _. by right.
Qed.

Lemma unlikePost_invalidates postId user w :
  serving w → wp (unlikePost postId user) (invalidates w (Some postId)) w.
Proof.
  intros Hs. unfold unlikePost. wp_steps; try (by intros ?).
  all: wp_invalidate Hs; intros _; by right.
Qed.

Lemma bookmarkPost_invalidates postId user w :
  serving w → wp (bookmarkPost postId user) (invalidates w (Some postId)) w.
Proof.
  intros Hs. unfold bookmarkPost. wp_steps; try (by intros ?); try (intros _; by left).
  wp_invalidate Hs. intros _. by right.
Qed.

Lemma unbookmarkPost_invalidates postId user w :
  serving w → wp (unbookmarkPost postId user) (invalidates w (Some postId)) w.
Proof.
  intros Hs. unfold unbookmarkPost. wp_steps; try (by intros ?).
  all: wp_invalidate Hs; intros _; by right.
Qed.

Lemma commentNotification_redis_and_clock r t a b c d :
  preserves (redis_and_clock r t) (createCommentNotification a b c d).
Proof.
  unfold createCommentNotification. preserves_auto. apply createNotification_redis_and_clock.
Qed.

Lemma mentionNotifications_redis_and_clock r t a b c d :
  preserves (redis_and_clock r t) (createMentionNotifications a b c d).
Proof.
  unfold createMentionNotifications.
  preserves_auto; try apply createNotification_redis_and_clock.
Qed.

Lemma addComment_invalidates postId user data w :
  serving w → wp (addComment postId user data) (invalidates w (Some postId)) w.
Proof.
  intros Hs. unfold addComment, comment_validate, findByIdAndUpdate.
  wp_steps; try (by intros ?).
  all: wp_invalidate Hs.
  all: apply wp_bind.
  all: wp_notify Hinv; [apply commentNotification_redis_and_clock | ].
  all: apply wp_bind.
  all: wp_notify Hinv; [apply mentionNotifications_redis_and_clock | ].
  all: wp_steps; intros _; by right.
Qed.

(** Every write of the post service, when Redis serves and the write
    returns: the store is as it was or the caches are invalidated. *)
Lemma perform_invalidates op w :
  serving w → wp (perform op) (invalidates w (written_post op)) w.
Proof.
  intros Hs. destruct op as [user data|pid user|pid user|pid user|pid user|pid user data];
    cbn [perform written_post].
  - apply wp_bind. pose proof (createPost_invalidates user data w Hs) as H.
    unfold wp in *. destruct (createPost user data w) as [[a|e] w']; [ | done]. exact H.
  - by apply likePost_invalidates.
  - by apply unlikePost_invalidates.
  - by apply bookmarkPost_invalidates.
  - by apply unbookmarkPost_invalidates.
  - apply wp_bind. pose proof (addComment_invalidates pid user data w Hs) as H.
    unfold wp in *. destruct (addComment pid user data w) as [[a|e] w']; [ | done]. exact H.
Qed.

(** A cached read answers from the cache on a hit and from the store
    otherwise. *)
Lemma read_outcome q w :
  (read q w).1 = cache_aside (CacheService_get (read_key q) w).1 (answer_of_store q (mongo w)).
Proof.
  destruct q as [filters pagination|query filters pagination sortBy]; cbn [read read_key].
  - destruct (listPosts_outcome filters pagination w) as [-> _]. unfold answer_of_store.
    by destruct (author_filter filters).
  - destruct (searchPosts_outcome query filters pagination sortBy w) as [-> _].
    unfold answer_of_store. by destruct (author_filter filters).
Qed.

Lemma read_key_matches q :
  glob_match CacheKeys_postListPattern (read_key q) = true
  ∨ glob_match CacheKeys_searchPattern (read_key q) = true.
Proof.
  destruct q; [left; apply postList_key_matches | right; apply search_key_matches].
Qed.

(** After an invalidation every cached read goes to the store. *)
Lemma read_after_invalidation postId q w :
  invalidated postId w → (read q w).1 = answer_of_store q (mongo w).
Proof.
  intros (Hl & Hs & _). rewrite read_outcome.
  rewrite CacheService_get_absent; [done | ].
  destruct (read_key_matches q) as [H|H]; [by apply Hl | by apply Hs].
Qed.

(** C4, as the code has it.  Take a write of the post service (create,
    like, unlike, bookmark, unbookmark, comment) that returns and changes
    the store, in a state where Redis serves the commands.  When it
    returns, the key of the post it is about is gone from the cache and no
    live key matches the list pattern or the search pattern; hence a list
    or search read made next does not answer from the cache: it returns
    what the store holds after the write, and so not the value cached
    before when that differs.  A pattern invalidation that finds no key
    returns normally, deletes nothing and logs no error. *)
Theorem write_invalidates_cached_reads (op : PostWrite) (q : PostRead) (w : World) :
  serving w →
  (perform op w).1 = Return tt →
  mongo (perform op w).2 ≠ mongo w →
  invalidated (written_post op) (perform op w).2
  ∧ (read q (perform op w).2).1 = answer_of_store q (mongo (perform op w).2)
  ∧ (∀ stale, answer_of_store q (mongo (perform op w).2) ≠ Return stale →
              (read q (perform op w).2).1 ≠ Return stale)
  ∧ (∀ pattern w0,
       serving w0 → scan_keys pattern (now w0) (redis w0) = [] →
       ∃ w0', CacheService_invalidatePattern pattern w0 = (Return tt, w0')
            ∧ cacheKeys (redis w0') = cacheKeys (redis w0)
            ∧ error_count w0' = error_count w0).
Proof.
  intros Hs Hret Hch.
  pose proof (perform_invalidates op w Hs) as Hinv. unfold wp, invalidates in Hinv.
  rewrite Hret in Hinv. destruct (Hinv eq_refl) as [Hsame | Hinv']; [done | ].
  pose proof (read_after_invalidation _ q _ Hinv') as Hread.
  split_and!; [done | done | by rewrite Hread | ].
  intros pattern w0 Hs0 Hscan.
  destruct (CacheService_invalidatePattern_effect pattern w0 Hs0) as (w0' & E & _ & _ & Hk & He).
  exists w0'. rewrite Hscan in Hk. done.
Qed.

(** ** Stepping through code while Redis serves *)

(** A command takes the head of the fault schedule and nothing else of it. *)
Lemma preserves_command_pop P {A} (run : nat → Redis → A * Redis) :
  (∀ w, P w → P (pop w)) →
  (∀ w, P w → P (set_redis (λ _, (run (now w) (redis w)).2) w)) →
  preserves P (command run).
Proof.
  intros Hpop Hrun w Hw. unfold command.
  destruct (faults (redis w)) as [|[] fs] eqn:E.
  - specialize (Hrun w Hw). by destruct (run (now w) (redis w)).
  - specialize (Hpop w Hw). unfold pop in Hpop. by rewrite E in Hpop.
  - specialize (Hrun _ (Hpop w Hw)). unfold pop in Hrun. rewrite E in Hrun.
    destruct w as [r m l t]. cbn in *. by destruct (run t (set_faults fs r)).
Qed.

Lemma pop_now w : now (pop w) = now w.
Proof. reflexivity. Qed.
Lemma pop_mongo w : mongo (pop w) = mongo w.
Proof. reflexivity. Qed.
Lemma pop_local w : local (pop w) = local w.
Proof. reflexivity. Qed.
Lemma pop_presenceKeys w : presenceKeys (redis (pop w)) = presenceKeys (redis w).
Proof. reflexivity. Qed.
Lemma pop_cacheKeys w : cacheKeys (redis (pop w)) = cacheKeys (redis w).
Proof. reflexivity. Qed.
Lemma pop_redisSets w : redisSets (redis (pop w)) = redisSets (redis w).
Proof. reflexivity. Qed.
Lemma pop_channel_log w : channel_log (redis (pop w)) = channel_log (redis w).
Proof. reflexivity. Qed.
Lemma pop_redisClient w : redisClient (redis (pop w)) = redisClient (redis w).
Proof. reflexivity. Qed.
Lemma pop_redisPublisher w : redisPublisher (redis (pop w)) = redisPublisher (redis w).
Proof. reflexivity. Qed.
Lemma pop_members name w : members name (redis (pop w)) = members name (redis w).
Proof. reflexivity. Qed.

Create Rewrite HintDb pop.
#[local] Hint Rewrite pop_now pop_mongo pop_local pop_presenceKeys pop_cacheKeys
  pop_redisSets pop_channel_log pop_redisClient pop_redisPublisher pop_members : pop.

Lemma wp_command_serving {A} (run : nat → Redis → A * Redis) Q w :
  serving w →
  (serving (pop w) →
   Q (Return (run (now w) (redis (pop w))).1)
     (set_redis (λ _, (run (now w) (redis (pop w))).2) (pop w))) →
  wp (command run) Q w.
Proof.
  intros Hs HQ. unfold wp. rewrite command_serving by apply Hs.
  apply HQ, pop_serving, Hs.
Qed.

Lemma wp_getRedisClient_serving (Q : Outcome unit → World → Prop) w :
  serving w → Q (Return tt) w → wp getRedisClient Q w.
Proof. intros [Hc _] HQ. unfold wp. by rewrite getRedisClient_ready. Qed.

(** Redis still serves after a step that leaves the schedule alone. *)
Ltac solve_serving :=
  match goal with
  | H : serving _ |- serving _ => solve [exact H | destruct H; split; cbn; done]
  end.

Ltac wp_serve_step :=
  lazymatch goal with
  | |- wp getRedisClient _ _ => apply wp_getRedisClient_serving; [solve_serving | ]
  | |- wp (command _) _ _ =>
      apply wp_command_serving; [solve_serving | intros ?; cbn [fst snd]]
  | |- wp (presence_get _) _ _ => unfold presence_get
  | |- wp (presence_setEx _ _ _) _ _ => unfold presence_setEx
  | |- wp (presence_exists _) _ _ => unfold presence_exists
  | |- wp (cache_get _) _ _ => unfold cache_get
  | |- wp (cache_set _ _) _ _ => unfold cache_set
  | |- wp (cache_setEx _ _ _) _ _ => unfold cache_setEx
  | |- wp (redis_del _) _ _ => unfold redis_del
  | |- wp (redis_scan _) _ _ => unfold redis_scan
  | |- wp (redis_sAdd _ _) _ _ => unfold redis_sAdd
  | |- wp (redis_sRem _ _) _ _ => unfold redis_sRem
  | |- wp (redis_sMembers _) _ _ => unfold redis_sMembers
  | |- wp (redis_sIsMember _ _) _ _ => unfold redis_sIsMember
  | |- wp (redis_publish _ _) _ _ => unfold redis_publish
  | |- wp (JSON_parse (Json _)) _ _ => apply wp_ret
  | _ => wp_step
  end.

Ltac wp_serve := repeat wp_serve_step.

(** The facts about the final state, field by field. *)
Ltac wp_done :=
  cbn [now mongo local redis set_redis set_local set_mongo fst snd];
  autorewrite with pop;
  repeat match goal with |- _ ∧ _ => split end;
  try solve_serving; try done.

(** From a stepped-through call to its outcome and final state. *)
Lemma wp_run {A} (m : M A) (Q : Outcome A → World → Prop) w :
  wp m Q w → Q (m w).1 (m w).2.
Proof. done. Qed.

(** What a call leaves alone: everything but the log and what went out
    on the channels (and the fault schedule, which it consumes). *)
Definition quiet (w0 w : World) : Prop :=
  redisClient (redis w) = redisClient (redis w0)
  ∧ redisPublisher (redis w) = redisPublisher (redis w0)
  ∧ presenceKeys (redis w) = presenceKeys (redis w0)
  ∧ cacheKeys (redis w) = cacheKeys (redis w0)
  ∧ redisSets (redis w) = redisSets (redis w0)
  ∧ mongo w = mongo w0
  ∧ sockets (local w) = sockets (local w0)
  ∧ now w = now w0.

Lemma quiet_refl w : quiet w w.
Proof. by repeat split. Qed.

Ltac quiet_side :=
  intros;
  repeat match goal with
         | H : quiet _ _ |- _ => destruct H as (? & ? & ? & ? & ? & ? & ? & ?)
         | H : serving _ |- _ => destruct H as [? ?]
         | H : _ ∧ _ |- _ => destruct H
         end;
  repeat match goal with w : World |- _ => destruct w as [[] ? [] ?] end;
  unfold pop in *; cbn in *; try done; repeat split; try done.

Ltac serving_quiet_side :=
  lazymatch goal with
  | |- ∀ w, _ → _ ∧ quiet _ (pop w) =>
      intros ? [? ?]; split; [by apply pop_serving | quiet_side]
  | _ => quiet_side
  end.

Lemma publishMessage_quiet w0 channel message :
  preserves (λ w, serving w ∧ quiet w0 w) (publishMessage channel message).
Proof.
  unfold publishMessage, redis_publish.
  repeat first
    [ apply preserves_command_pop
    | preserves_step ]; serving_quiet_side.
Qed.

Lemma broadcastPresenceUpdate_quiet w0 user st :
  preserves (λ w, serving w ∧ quiet w0 w) (broadcastPresenceUpdate user st).
Proof.
  unfold broadcastPresenceUpdate, emitToUserAcrossInstances, new_Date.
  preserves_auto; try apply publishMessage_quiet; quiet_side.
Qed.

Lemma broadcastPresenceUpdate_never_throws user st :
  never_throws (broadcastPresenceUpdate user st).
Proof. unfold broadcastPresenceUpdate. auto with no_throw. Qed.

Lemma wp_broadcastPresenceUpdate user st (Q : Outcome unit → World → Prop) w :
  serving w →
  (∀ w', serving w' → quiet w w' → Q (Return tt) w') →
  wp (broadcastPresenceUpdate user st) Q w.
Proof.
  intros Hs HQ. unfold wp.
  destruct (run_kept _ _ w (broadcastPresenceUpdate_never_throws user st)
              (broadcastPresenceUpdate_quiet w user st) (conj Hs (quiet_refl w)))
    as ([] & w' & E & Hs' & Hq).
  rewrite E. by apply HQ.
Qed.

(** ** The presence tracker while Redis serves *)

Lemma serving_at_time t w : serving w → serving (at_time t w).
Proof. done. Qed.

Lemma wp_result {A} (m : M A) (a : A) (R : World → Prop) w :
  wp m (λ o w', o = Return a ∧ R w') w → ∃ w', m w = (Return a, w') ∧ R w'.
Proof. unfold wp. destruct (m w) as [o w']. cbn. intros [-> HR]. eauto. Qed.

(** [setUserOnline] when Redis serves: the record is written with its
    expiry and the user is in the online set. *)
Lemma setUserOnline_effect user sock w :
  serving w →
  ∃ w', setUserOnline user sock w = (Return tt, w')
      ∧ serving w' ∧ now w' = now w
      ∧ presenceKeys (redis w')
        = <[PRESENCE_KEY_PREFIX +:+ user :=
              mkEntry (Json (mkUserPresence user online (now w) (Some sock)))
                      (expiry (now w) PRESENCE_TTL)]> (presenceKeys (redis w))
      ∧ members ONLINE_USERS_SET (redis w')
        = members ONLINE_USERS_SET (redis w) ∪ {[user]}
      ∧ mongo w' = mongo w ∧ sockets (local w') = sockets (local w).
Proof.
  intros Hs. apply wp_result. unfold setUserOnline. wp_serve.
  apply wp_broadcastPresenceUpdate; [solve_serving | ].
  intros w' Hs' (_ & _ & Hk & _ & Hr & Hm & Hl & Ht).
  split_and!; [done | done | by rewrite Ht | by rewrite Hk | | by rewrite Hm | by rewrite Hl].
  unfold members at 1. rewrite Hr. cbn. by rewrite lookup_insert_eq.
Qed.

(** [setUserOffline] when Redis serves. *)
Lemma setUserOffline_effect user w :
  serving w →
  ∃ w', setUserOffline user w = (Return tt, w')
      ∧ serving w' ∧ now w' = now w
      ∧ presenceKeys (redis w')
        = <[PRESENCE_KEY_PREFIX +:+ user :=
              mkEntry (Json (mkUserPresence user offline (now w) None))
                      (expiry (now w) PRESENCE_TTL)]> (presenceKeys (redis w))
      ∧ members ONLINE_USERS_SET (redis w')
        = members ONLINE_USERS_SET (redis w) ∖ {[user]}
      ∧ mongo w' = mongo w ∧ sockets (local w') = sockets (local w).
Proof.
  intros Hs. apply wp_result. unfold setUserOffline. wp_serve.
  apply wp_broadcastPresenceUpdate; [solve_serving | ].
  intros w' Hs' (_ & _ & Hk & _ & Hr & Hm & Hl & Ht).
  split_and!; [done | done | by rewrite Ht | by rewrite Hk | | by rewrite Hm | by rewrite Hl].
  unfold members at 1. rewrite Hr. cbn. by rewrite lookup_insert_eq.
Qed.

Lemma serving_no_storage_error w : serving w → ¬ storage_error w.
Proof.
  intros [Hc Hf] [H | H]; [congruence | ].
  unfold fault_at in H. destruct (faults (redis w)) as [|[] fs]; cbn in H; try done.
  apply Hf. by left.
Qed.

Lemma serving_fault_at w : serving w → redisClient (redis w) && negb (fault_at 0 w) = true.
Proof.
  intros Hs. pose proof (serving_no_storage_error w Hs) as Hn. destruct Hs as [Hc _].
  rewrite Hc. cbn. destruct (fault_at 0 w) eqn:E; [ | done].
  exfalso. apply Hn. by right.
Qed.

(** [isUserOnline] and [getOnlineUsers] when Redis serves. *)
Lemma isUserOnline_serving user w :
  serving w →
  (isUserOnline user w).1 = Return (bool_decide (user ∈ members ONLINE_USERS_SET (redis w))).
Proof.
  intros Hs.
  assert (wp (isUserOnline user)
            (λ o _, o = Return (bool_decide (user ∈ members ONLINE_USERS_SET (redis w)))) w)
    as H; [ | exact H].
  unfold isUserOnline. wp_serve. done.
Qed.

Lemma getOnlineUsers_serving w :
  serving w →
  (getOnlineUsers w).1 = Return (elements (members ONLINE_USERS_SET (redis w))).
Proof.
  intros Hs.
  assert (wp getOnlineUsers
            (λ o _, o = Return (elements (members ONLINE_USERS_SET (redis w)))) w)
    as H; [ | exact H].
  unfold getOnlineUsers. wp_serve. done.
Qed.

Lemma lookup_live_insert {V} t key (v : Stored V) expires (m : gmap string (Entry V)) :
  lookup_live t key (<[key := mkEntry v expires]> m)
  = if entry_live t (mkEntry v expires) then Some v else None.
Proof. unfold lookup_live. by rewrite lookup_insert_eq. Qed.

Lemma entry_live_before {V} t t0 ttl (v : Stored V) :
  t < t0 + ttl * 1000 → entry_live t (mkEntry v (expiry t0 ttl)) = true.
Proof. intros H. unfold entry_live, expiry. cbn. by apply Nat.ltb_lt. Qed.

Lemma entry_live_after {V} t t0 ttl (v : Stored V) :
  t0 + ttl * 1000 ≤ t → entry_live t (mkEntry v (expiry t0 ttl)) = false.
Proof. intros H. unfold entry_live, expiry. cbn. by apply Nat.ltb_ge. Qed.

(** The record of a user that a reader sees at time [t]. *)
Definition live_presence (t : nat) (user : string) (w : World) : option (Stored UserPresence) :=
  lookup_live t (PRESENCE_KEY_PREFIX +:+ user) (presenceKeys (redis w)).

(** The loop of [cleanupStalePresence]: the users met without a live
    record leave the online set, nothing else changes. *)
Lemma cleanup_loop users :
  ∀ w cleaned, serving w →
  ∃ n w',
    for_fold users cleaned
      (λ cleanedCount user,
         let presenceKey := PRESENCE_KEY_PREFIX +:+ user in
         exists_ ← presence_exists presenceKey;
         if exists_ =? 0
         then (redis_sRem ONLINE_USERS_SET user;; mret (S cleanedCount))
         else mret cleanedCount) w = (Return n, w')
    ∧ serving w' ∧ now w' = now w
    ∧ presenceKeys (redis w') = presenceKeys (redis w)
    ∧ mongo w' = mongo w ∧ sockets (local w') = sockets (local w)
    ∧ log (local w') = log (local w)
    ∧ ∀ u, u ∈ members ONLINE_USERS_SET (redis w')
           ↔ u ∈ members ONLINE_USERS_SET (redis w)
             ∧ (u ∈ users → is_Some (live_presence (now w) u w)).
Proof.
  induction users as [|x xs IH]; intros w cleaned Hs.
  - exists cleaned, w. cbn. split_and!; try done.
    intros u. split; [intros Hu; split; [done | by intros ?%elem_of_nil] | by intros [? _]].
  - cbn [for_fold]. rewrite bind_run.
    assert (wp (let presenceKey := PRESENCE_KEY_PREFIX +:+ x in
                exists_ ← presence_exists presenceKey;
                if exists_ =? 0
                then (redis_sRem ONLINE_USERS_SET x;; mret (S cleaned))
                else mret cleaned)
              (λ o w1, ∃ n, o = Return n ∧ serving w1 ∧ now w1 = now w
                 ∧ presenceKeys (redis w1) = presenceKeys (redis w)
                 ∧ mongo w1 = mongo w ∧ sockets (local w1) = sockets (local w)
                 ∧ log (local w1) = log (local w)
                 ∧ members ONLINE_USERS_SET (redis w1)
                   = match live_presence (now w) x w with
                     | Some _ => members ONLINE_USERS_SET (redis w)
                     | None => members ONLINE_USERS_SET (redis w) ∖ {[x]}
                     end) w) as Hstep.
    { cbv zeta. unfold live_presence.
      wp_serve_step. wp_serve_step. wp_serve_step.
      autorewrite with pop.
      destruct (lookup_live (now w) (PRESENCE_KEY_PREFIX +:+ x) (presenceKeys (redis w)))
        as [v|] eqn:E; cbn [Nat.eqb].
      - wp_serve. eexists. split_and!; done.
      - wp_serve. eexists. split_and!; try done; try solve_serving.
        unfold members at 1. cbn. by rewrite lookup_insert_eq. }
    unfold wp in Hstep. cbv zeta in Hstep.
    match goal with |- context [let (_, _) := ?e in _] => destruct e as [o w1] end.
    cbn [fst snd] in Hstep.
    destruct Hstep as (n & -> & Hs1 & Ht1 & Hk1 & Hm1 & Hl1 & Hg1 & Hset1).
    destruct (IH w1 n Hs1) as (n' & w' & E & Hs' & Ht' & Hk' & Hm' & Hl' & Hg' & Hset').
    exists n', w'. split; [exact E | ].
    split_and!; try congruence.
    intros u. rewrite Hset', Hset1. unfold live_presence. rewrite Ht1, Hk1.
    destruct (lookup_live (now w) (PRESENCE_KEY_PREFIX +:+ x) (presenceKeys (redis w)))
      as [v|] eqn:E1.
    + split.
      * intros [Hu Hx]. split; [done | ]. intros [-> | Hin]%elem_of_cons; [ | by apply Hx].
        by rewrite E1.
      * intros [Hu Hx]. split; [done | ]. intros Hin. apply Hx. by right.
    + split.
      * intros [[Hu Hne]%elem_of_difference Hx]. split; [done | ].
        intros [-> | Hin]%elem_of_cons; [ | by apply Hx].
        exfalso. apply Hne. by apply elem_of_singleton.
      * intros [Hu Hx]. split.
        -- apply elem_of_difference. split; [done | ]. intros ->%elem_of_singleton.
           assert (is_Some (lookup_live (now w) (PRESENCE_KEY_PREFIX +:+ x)
                              (presenceKeys (redis w)))) as [? Hsome]
             by (apply Hx; by left).
           congruence.
        -- intros Hin. apply Hx. by right.
Qed.

(** [cleanupStalePresence] when Redis serves. *)
Lemma cleanupStalePresence_effect w :
  serving w →
  ∃ w', cleanupStalePresence w = (Return tt, w')
      ∧ serving w' ∧ now w' = now w
      ∧ presenceKeys (redis w') = presenceKeys (redis w)
      ∧ mongo w' = mongo w ∧ sockets (local w') = sockets (local w)
      ∧ ∀ u, u ∈ members ONLINE_USERS_SET (redis w')
             ↔ u ∈ members ONLINE_USERS_SET (redis w)
               ∧ is_Some (live_presence (now w) u w).
Proof.
  intros Hs. apply wp_result. unfold cleanupStalePresence.
  do 7 wp_serve_step. autorewrite with pop.
  eapply wp_returns.
  { apply cleanup_loop. solve_serving. }
  intros n w1 (Hs1 & Ht1 & Hk1 & Hm1 & Hl1 & _ & Hset). cbv beta.
  assert (∀ u, u ∈ members ONLINE_USERS_SET (redis w1)
               ↔ u ∈ members ONLINE_USERS_SET (redis w)
                 ∧ is_Some (live_presence (now w) u w)) as Hset'.
  { intros u. rewrite Hset. cbn. autorewrite with pop.
    change (members ONLINE_USERS_SET (redis (pop w)))
      with (members ONLINE_USERS_SET (redis w)).
    split; intros [Hu Hx]; (split; [done | ]).
    - apply Hx. by apply elem_of_elements.
    - done. }
  destruct (0 <? n); wp_serve; (split_and!; [done | done | done | done | done | done | done]).
Qed.


(** ** Presence: round trips, expiry and the online set *)

Lemma getUserPresence_serving user w :
  serving w →
  (getUserPresence user w).1 =
  match live_presence (now w) user w with
  | Some (Json p) => Return (Some p)
  | Some (Text s) =>
      if String.eqb s "" then Return (Some (mkUserPresence user offline (now w) None))
      else Return None
  | None => Return (Some (mkUserPresence user offline (now w) None))
  end.
Proof. intros Hs. by rewrite getUserPresence_outcome, serving_fault_at. Qed.

Lemma elem_of_added (s : gset string) (u : string) : u ∈ s ∪ {[u]}.
Proof. apply elem_of_union. right. by apply elem_of_singleton. Qed.

Lemma not_elem_of_removed (s : gset string) (u : string) : u ∉ s ∖ {[u]}.
Proof. intros [_ Hn]%elem_of_difference. apply Hn. by apply elem_of_singleton. Qed.

(** X1.  With Redis serving, [setUserOnline] returns and, for the 300
    seconds that follow, [getUserPresence] gives the record written (status
    online, the time of the call, the socket), [isUserOnline] is true and
    [getOnlineUsers] lists the user. *)
Theorem presence_online_round_trip (user sock : string) (w : World) (t : nat) :
  serving w → t < now w + PRESENCE_TTL * 1000 →
  ∃ w1, setUserOnline user sock w = (Return tt, w1)
      ∧ (getUserPresence user (at_time t w1)).1
        = Return (Some (mkUserPresence user online (now w) (Some sock)))
      ∧ (isUserOnline user (at_time t w1)).1 = Return true
      ∧ ∃ l, (getOnlineUsers (at_time t w1)).1 = Return l ∧ user ∈ l.
Proof.
  intros Hs Ht.
  destruct (setUserOnline_effect user sock w Hs) as (w1 & E & Hs1 & _ & Hk & Hset & _).
  exists w1. split; [exact E | ].
  pose proof (serving_at_time t w1 Hs1) as Hst. split_and!.
  - rewrite getUserPresence_serving by done. unfold live_presence. cbn [now redis at_time].
    by rewrite Hk, lookup_live_insert, entry_live_before.
  - rewrite isUserOnline_serving by done. cbn [redis at_time]. rewrite Hset.
    apply f_equal, bool_decide_eq_true, elem_of_added.
  - eexists. split; [by apply getOnlineUsers_serving | ].
    cbn [redis at_time]. rewrite Hset. apply elem_of_elements, elem_of_added.
Qed.

(** X2.  With Redis serving, [setUserOffline] returns and, whatever the
    state before, for the 300 seconds that follow [getUserPresence] gives
    an offline record with the time of the call as [lastSeen] and no
    socket, [isUserOnline] is false and [getOnlineUsers] does not list the
    user. *)
Theorem presence_offline_round_trip (user : string) (w : World) (t : nat) :
  serving w → t < now w + PRESENCE_TTL * 1000 →
  ∃ w1, setUserOffline user w = (Return tt, w1)
      ∧ (getUserPresence user (at_time t w1)).1
        = Return (Some (mkUserPresence user offline (now w) None))
      ∧ (isUserOnline user (at_time t w1)).1 = Return false
      ∧ ∃ l, (getOnlineUsers (at_time t w1)).1 = Return l ∧ user ∉ l.
Proof.
  intros Hs Ht.
  destruct (setUserOffline_effect user w Hs) as (w1 & E & Hs1 & _ & Hk & Hset & _).
  exists w1. split; [exact E | ].
  pose proof (serving_at_time t w1 Hs1) as Hst. split_and!.
  - rewrite getUserPresence_serving by done. unfold live_presence. cbn [now redis at_time].
    by rewrite Hk, lookup_live_insert, entry_live_before.
  - rewrite isUserOnline_serving by done. cbn [redis at_time]. rewrite Hset.
    apply f_equal, bool_decide_eq_false, not_elem_of_removed.
  - eexists. split; [by apply getOnlineUsers_serving | ].
    cbn [redis at_time]. rewrite Hset. rewrite elem_of_elements.
    apply not_elem_of_removed.
Qed.


(** X4.  A record written by [setUserOnline] and not refreshed expires
    after 300 seconds: from then on [getUserPresence] gives an offline
    record made up at the time of the question, while [isUserOnline] is
    still true, the online set having no expiry; it is false once
    [cleanupStalePresence] has run. *)
Theorem presence_expires_online_set_stays (user sock : string) (w : World) (t : nat) :
  serving w → now w + PRESENCE_TTL * 1000 ≤ t →
  ∃ w1, setUserOnline user sock w = (Return tt, w1)
      ∧ (getUserPresence user (at_time t w1)).1
        = Return (Some (mkUserPresence user offline t None))
      ∧ (isUserOnline user (at_time t w1)).1 = Return true
      ∧ (isUserOnline user (cleanupStalePresence (at_time t w1)).2).1 = Return false.
Proof.
  intros Hs Ht.
  destruct (setUserOnline_effect user sock w Hs) as (w1 & E & Hs1 & _ & Hk & Hset & _).
  exists w1. split; [exact E | ].
  pose proof (serving_at_time t w1 Hs1) as Hst.
  assert (live_presence t user (at_time t w1) = None) as Hdead.
  { unfold live_presence. cbn [redis at_time].
    by rewrite Hk, lookup_live_insert, entry_live_after. }
  split_and!.
  - rewrite getUserPresence_serving by done. cbn [now at_time]. by rewrite Hdead.
  - rewrite isUserOnline_serving by done. cbn [redis at_time]. rewrite Hset.
    apply f_equal, bool_decide_eq_true, elem_of_added.
  - destruct (cleanupStalePresence_effect _ Hst) as (w2 & E2 & Hs2 & _ & _ & _ & _ & Hset2).
    rewrite E2. cbn [snd]. rewrite isUserOnline_serving by done.
    apply f_equal, bool_decide_eq_false. rewrite Hset2. cbn [now at_time].
    rewrite Hdead. intros [_ [? ?]]. done.
Qed.


(** ** The cache service while Redis serves *)

Lemma CacheService_get_serving key w :
  serving w →
  (CacheService_get key w).1 =
  Return match lookup_live (now w) key (cacheKeys (redis w)) with
         | Some (Json d) => Some d
         | _ => None
         end.
Proof. intros Hs. by rewrite CacheService_get_outcome, serving_fault_at. Qed.

(** The expiry [CacheService.set] gives an entry: none when [ttl] is
    missing or 0. *)
Definition ttl_expiry (t : nat) (ttl : option nat) : option nat :=
  match ttl with
  | Some (S n) => expiry t (S n)
  | _ => None
  end.

Lemma CacheService_set_effect key value ttl w :
  serving w →
  ∃ w', CacheService_set key value ttl w = (Return tt, w')
      ∧ serving w' ∧ now w' = now w ∧ mongo w' = mongo w
      ∧ sockets (local w') = sockets (local w)
      ∧ presenceKeys (redis w') = presenceKeys (redis w)
      ∧ cacheKeys (redis w')
        = <[key := mkEntry (Json value) (ttl_expiry (now w) ttl)]> (cacheKeys (redis w)).
Proof.
  intros Hs. apply wp_result. unfold CacheService_set.
  destruct ttl as [[|n]|]; wp_serve; wp_done.
Qed.

(** X6.  With Redis serving, a value stored by [CacheService.set] is what
    [CacheService.get] returns for the key until the entry expires, [ttl]
    seconds after the call; with no [ttl], or a [ttl] of 0, the entry has
    no expiry and the value is returned at any later time. *)
Theorem cache_set_then_get (key : string) (value : CacheDoc) (ttl : option nat)
    (w : World) (t : nat) :
  serving w →
  ∃ w1, CacheService_set key value ttl w = (Return tt, w1)
      ∧ (CacheService_get key (at_time t w1)).1
        = Return match ttl with
                 | Some (S n) => if t <? now w + S n * 1000 then Some value else None
                 | _ => Some value
                 end.
Proof.
  intros Hs.
  destruct (CacheService_set_effect key value ttl w Hs) as (w1 & E & Hs1 & _ & _ & _ & _ & Hk).
  exists w1. split; [exact E | ].
  rewrite CacheService_get_serving by by apply serving_at_time.
  cbn [now redis at_time]. rewrite Hk, lookup_live_insert. f_equal.
  destruct ttl as [[|n]|]; cbn [ttl_expiry]; try done.
  unfold entry_live, expiry. cbn [entry_expires]. by destruct (t <? now w + S n * 1000).
Qed.




(** The key of a search names the query, the tags, the author, the sort
    order and the page: neither the status filter nor the page size. *)
Lemma CacheKeys_search_fields query filters filters' sortBy pg :
  filter_tags filters' = filter_tags filters →
  filter_author filters' = filter_author filters →
  CacheKeys_search query filters' sortBy pg = CacheKeys_search query filters sortBy pg.
Proof. intros Ht Ha. unfold CacheKeys_search. by rewrite Ht, Ha. Qed.

Lemma wp_CacheService_get key (Q : Outcome (option CacheDoc) → World → Prop) w :
  serving w →
  (∀ w', serving w' → quiet w w' →
         Q (Return match lookup_live (now w) key (cacheKeys (redis w)) with
                   | Some (Json d) => Some d
                   | _ => None
                   end) w') →
  wp (CacheService_get key) Q w.
Proof.
  intros Hs HQ.
  assert (wp (CacheService_get key)
            (λ o w', o = Return match lookup_live (now w) key (cacheKeys (redis w)) with
                                | Some (Json d) => Some d
                                | _ => None
                                end
                     ∧ serving w' ∧ quiet w w') w) as H.
  { unfold CacheService_get. do 6 wp_serve_step. autorewrite with pop.
    destruct (lookup_live (now w) key (cacheKeys (redis w))) as [[d|s]|];
      cbn [stored_falsy]; [ | destruct (String.eqb s "") | ];
      wp_serve; (split; [done | ]); (split; [solve_serving | ]);
      unfold quiet; cbn; autorewrite with pop; done. }
  unfold wp in *. destruct H as (-> & Hs' & Hq). by apply HQ.
Qed.

Lemma wp_CacheService_set key value ttl (Q : Outcome unit → World → Prop) w :
  serving w →
  (∀ w', serving w' → now w' = now w → mongo w' = mongo w →
         cacheKeys (redis w')
         = <[key := mkEntry (Json value) (ttl_expiry (now w) ttl)]> (cacheKeys (redis w)) →
         Q (Return tt) w') →
  wp (CacheService_set key value ttl) Q w.
Proof.
  intros Hs HQ. unfold wp.
  destruct (CacheService_set_effect key value ttl w Hs)
    as (w' & E & Hs' & Ht & Hm & _ & _ & Hk).
  rewrite E. by apply HQ.
Qed.

Lemma wp_cast_author filters (Q : Outcome (option ObjectId) → World → Prop) w :
  Q (author_filter filters) w → wp (cast_author filters) Q w.
Proof. intros HQ. unfold wp. by rewrite cast_author_run. Qed.

Lemma searchPosts_miss_effect query filters pagination sortBy author w :
  serving w →
  author_filter filters = Return author →
  lookup_live (now w)
    (CacheKeys_search query filters (Some sortBy) (Pos.to_nat (pagination_page pagination)))
    (cacheKeys (redis w)) = None →
  ∃ w', searchPosts query filters pagination sortBy w
        = (Return (DocPosts (search_result query author filters pagination sortBy (mongo w))),
           w')
      ∧ serving w' ∧ now w' = now w ∧ mongo w' = mongo w
      ∧ cacheKeys (redis w')
        = <[CacheKeys_search query filters (Some sortBy)
              (Pos.to_nat (pagination_page pagination)) :=
              mkEntry (Json (DocPosts (search_result query author filters pagination sortBy
                                         (mongo w))))
                      (expiry (now w) CacheTTL_SEARCH)]> (cacheKeys (redis w)).
Proof.
  intros Hs Ha Hmiss. apply wp_result. unfold searchPosts. cbv zeta.
  apply wp_bind, wp_CacheService_get; [done | ].
  intros w1 Hs1 (_ & _ & _ & Hk1 & _ & Hm1 & _ & Ht1). rewrite Hmiss.
  apply wp_bind, wp_logger, wp_bind, wp_cast_author. rewrite Ha.
  apply wp_bind, wp_gets, wp_bind, wp_CacheService_set; [solve_serving | ].
  intros w2 Hs2 Ht2 Hm2 Hk2. apply wp_ret.
  cbn [now mongo redis local set_local set_redis set_mongo] in Ht2, Hm2, Hk2 |- *.
  rewrite Hm1 in *. rewrite Ht1 in *. rewrite Hk1 in *.
  split_and!; done.
Qed.

(** X8.  The cache key of a search leaves out the page size and the
    status filter.  With Redis serving and nothing cached for the key, a
    first [searchPosts] answers from the store and caches the answer; a
    second search that differs from it only in the page size or in the
    status filter is then answered, for as long as the entry lives, with
    the answer of the first, page size and status of the first included. *)
Theorem search_cache_ignores_limit_and_status
    (query : string) (filters filters' : PostFilters) (pagination pagination' : Pagination)
    (sortBy : SortBy) (author : option ObjectId) (w : World) :
  serving w →
  author_filter filters = Return author →
  lookup_live (now w)
    (CacheKeys_search query filters (Some sortBy) (Pos.to_nat (pagination_page pagination)))
    (cacheKeys (redis w)) = None →
  filter_tags filters' = filter_tags filters →
  filter_author filters' = filter_author filters →
  pagination_page pagination' = pagination_page pagination →
  ∃ w1, searchPosts query filters pagination sortBy w
        = (Return (DocPosts (search_result query author filters pagination sortBy (mongo w))),
           w1)
      ∧ (searchPosts query filters' pagination' sortBy w1).1
        = Return (DocPosts (search_result query author filters pagination sortBy (mongo w))).
Proof.
  intros Hs Ha Hmiss Ht Hau Hp.
  destruct (searchPosts_miss_effect query filters pagination sortBy author w Hs Ha Hmiss)
    as (w1 & E & Hs1 & Ht1 & Hm1 & Hk1).
  exists w1. split; [exact E | ].
  destruct (searchPosts_outcome query filters' pagination' sortBy w1) as [-> _].
  rewrite Hp, (CacheKeys_search_fields query filters filters') by done.
  rewrite CacheService_get_serving by done.
  rewrite Ht1, Hk1, lookup_live_insert, entry_live_before; [done | ].
  unfold CacheTTL_SEARCH. lia.
Qed.

(** ** The notification service: creating, reading, counting *)

Lemma find_by_id_replace_other {D} (id_of : D → ObjectId) (d : D) (docs : list D) id :
  id ≠ id_of d →
  find_by_id id_of id (replace_by_id id_of d docs) = find_by_id id_of id docs.
Proof.
  intros Hne. induction docs as [|x xs IH]; [done | ].
  unfold replace_by_id; fold (replace_by_id id_of d xs). case_decide as Hx.
  - rewrite !find_by_id_cons, !decide_False by congruence. done.
  - rewrite !find_by_id_cons. case_decide; [done | exact IH].
Qed.

Lemma replace_by_id_length {D} (id_of : D → ObjectId) (d : D) (docs : list D) :
  length (replace_by_id id_of d docs) = length docs.
Proof.
  induction docs as [|x xs IH]; [done | ].
  unfold replace_by_id; fold (replace_by_id id_of d xs). case_decide; cbn; congruence.
Qed.

(** X9.  [NotificationService.markAsRead] on an existing notification:
    for anyone but its recipient the call is rejected with the validation
    error and the store is as before; for the recipient it returns the
    notification marked as read, which is what the store then holds under
    that identifier, every other notification being as before. *)
Theorem markAsRead_only_by_recipient (notificationId user : string) (id : ObjectId)
    (n : Notification) (w : World) :
  toObjectId notificationId = Some id →
  find_by_id notification_id id (notification_docs (mongo w)) = Some n →
  (oidToString (recipient n) ≠ user →
     NotificationService_markAsRead notificationId user w
     = (Throw (ValidationError "Unauthorized access to notification"), w))
  ∧ (oidToString (recipient n) = user →
     ∃ w', NotificationService_markAsRead notificationId user w
           = (Return (populate_actor (mongo w) (read_notification n)), w')
         ∧ find_by_id notification_id id (notification_docs (mongo w'))
           = Some (read_notification n)
         ∧ isRead (read_notification n) = true
         ∧ length (notification_docs (mongo w')) = length (notification_docs (mongo w))
         ∧ ∀ other, other ≠ id →
             find_by_id notification_id other (notification_docs (mongo w'))
             = find_by_id notification_id other (notification_docs (mongo w))).
Proof.
  intros Hid Hfind.
  pose proof (find_by_id_Some _ _ _ _ Hfind) as [Hn _].
  unfold NotificationService_markAsRead. rewrite (isValid_true _ _ Hid). cbn [negb].
  rewrite bind_run, (cast_run _ _ w Hid), bind_run. cbn [gets]. rewrite Hfind.
  split.
  - intros Hne. apply String.eqb_neq in Hne. by rewrite Hne.
  - intros Heq. apply String.eqb_eq in Heq. rewrite Heq. cbn [negb]. cbv zeta.
    eexists. split; [reflexivity | ]. cbn [mongo set_mongo notification_docs set_notification_docs
                                           set_local snd].
    split_and!.
    + rewrite <- Hn at 1.
      change (notification_id n) with (notification_id (read_notification n)).
      apply find_by_id_replace. change (notification_id (read_notification n)) with
        (notification_id n). rewrite Hn, Hfind. by eexists.
    + done.
    + apply replace_by_id_length.
    + intros other Hother. apply find_by_id_replace_other.
      change (notification_id (read_notification n)) with (notification_id n). congruence.
Qed.

Lemma unread_after_marking (u other : ObjectId) (docs : list Notification) :
  filter (unread_of other)
    ((λ n, if decide (unread_of u n) then read_notification n else n) <$> docs)
  = if decide (other = u) then [] else filter (unread_of other) docs.
Proof.
  induction docs as [|n ns IH]; [by case_decide | ].
  cbn [fmap list_fmap]. rewrite !filter_cons, IH.
  destruct (decide (unread_of u n)) as [[Hr Hu]|Hnot].
  - rewrite decide_False by (intros [_ ?]; done).
    case_decide as Ho; [done | ].
    rewrite decide_False; [done | ]. intros [? _]. congruence.
  - case_decide as Ho.
    + subst other. by rewrite decide_False.
    + done.
Qed.

(** X10.  [markAllAsRead] returns, as [modifiedCount], the number of
    unread notifications of the user, which is what [getUnreadCount] gave
    before; after it [getUnreadCount] gives 0 for the user and, for every
    other user, what it gave before. *)
Theorem markAllAsRead_clears_unread (user : string) (u : ObjectId) (w : World) :
  toObjectId user = Some u →
  ∃ count w',
    markAllAsRead user w = (Return count, w')
    ∧ getUnreadCount user w = (Return count, w)
    ∧ getUnreadCount user w' = (Return 0, w')
    ∧ length (notification_docs (mongo w')) = length (notification_docs (mongo w))
    ∧ ∀ other o, toObjectId other = Some o → o ≠ u →
        (getUnreadCount other w').1 = (getUnreadCount other w).1.
Proof.
  intros Hu.
  assert (∀ s o w0, toObjectId s = Some o →
            getUnreadCount s w0
            = (Return (length (filter (unread_of o) (notification_docs (mongo w0)))), w0))
    as Hcount.
  { intros s o w0 Hs. unfold getUnreadCount. rewrite (isValid_true _ _ Hs). cbn [negb].
    by rewrite bind_run, (cast_run _ _ w0 Hs). }
  unfold markAllAsRead. rewrite (isValid_true _ _ Hu). cbn [negb].
  rewrite bind_run, (cast_run _ _ w Hu).
  eexists _, _. split; [reflexivity | ].
  split_and!.
  - by apply Hcount.
  - rewrite (Hcount _ _ _ Hu). cbn [mongo set_mongo set_local notification_docs
                                      set_notification_docs].
    by rewrite unread_after_marking, decide_True.
  - cbn [mongo set_mongo set_local notification_docs set_notification_docs].
    by rewrite length_fmap.
  - intros other o Ho Hne. rewrite !(Hcount _ _ _ Ho).
    cbn [mongo set_mongo set_local notification_docs set_notification_docs fst].
    by rewrite unread_after_marking, decide_False.
Qed.

Lemma NotificationService_emit_effect user n w :
  NotificationService_emitNotificationToUser user n w
  = (Return tt,
     if io (local w)
     then set_local (set_log (λ l, l ++ [(log_debug, "Notification emitted to user")]))
            (set_local (set_sockets
               (fmap (λ s, if decide (("notifications:" +:+ user) ∈ rooms s)
                           then push_event "notification:new" (NotificationData n) s
                           else s))) w)
     else set_local (set_log (λ l, l ++ [(log_error, "Failed to emit notification to user")])) w).
Proof.
  unfold NotificationService_emitNotificationToUser, emitNotificationToUser.
  rewrite !try_catch_run, bind_run. unfold getIO. by destruct (io (local w)).
Qed.

(** A request that [notification.save()] accepts. *)
Lemma notification_validate_ok (data : CreateNotificationDTO) (w : World) :
  (∀ ty id, dto_resource data = Some (ty, id) → isValid id = true) →
  dto_message data ≠ "" →
  notification_validate data w
  = (Return ((λ r, (r.1, toObjectId r.2)) <$> dto_resource data), w).
Proof.
  intros Hres Hmsg. apply String.eqb_neq in Hmsg. unfold notification_validate.
  destruct (dto_resource data) as [[ty id]|] eqn:Er; cbn [fmap option_fmap option_map].
  - specialize (Hres ty id eq_refl). unfold isValid in Hres.
    apply bool_decide_eq_true in Hres as [oid Hoid]. rewrite Hoid. cbn.
    by rewrite Hmsg, Hoid.
  - by rewrite Hmsg.
Qed.

(** A request that it rejects. *)
Lemma notification_validate_fails (data : CreateNotificationDTO) (w : World) :
  dto_message data = ""
  ∨ (∃ ty id, dto_resource data = Some (ty, id) ∧ toObjectId id = None) →
  notification_validate data w = (Throw (SchemaError "Notification validation failed"), w).
Proof.
  unfold notification_validate. intros [Hmsg | (ty & id & Hr & Hid)].
  - rewrite Hmsg. destruct (dto_resource data) as [[ty id]|]; cbn; [ | done].
    by destruct (toObjectId id).
  - rewrite Hr, Hid. done.
Qed.

(** What [createNotification] does for a recipient and an actor that are
    well-formed and differ, with a request that is saved. *)
Lemma createNotification_effect (data : CreateNotificationDTO)
    (to by_ : ObjectId) (w : World) :
  toObjectId (recipientId data) = Some to →
  toObjectId (actorId data) = Some by_ →
  recipientId data ≠ actorId data →
  (∀ ty id, dto_resource data = Some (ty, id) → isValid id = true) →
  dto_message data ≠ "" →
  let n := mkNotification (generateId (nextId (mongo w))) to (dto_type data) by_
             ((λ r, (r.1, toObjectId r.2)) <$> dto_resource data)
             (dto_message data) false (now w) in
  ∃ w', createNotification data w = (Return (Some (populate_actor (mongo w) n)), w')
      ∧ notification_docs (mongo w') = notification_docs (mongo w) ++ [n]
      ∧ redis w' = redis w ∧ now w' = now w
      ∧ post_docs (mongo w') = post_docs (mongo w)
      ∧ comment_docs (mongo w') = comment_docs (mongo w)
      ∧ user_docs (mongo w') = user_docs (mongo w)
      ∧ nextId (mongo w') = S (nextId (mongo w))
      ∧ sockets (local w')
        = if io (local w)
          then (λ s, if decide (("notifications:" +:+ recipientId data) ∈ rooms s)
                     then push_event "notification:new"
                            (NotificationData (populate_actor (mongo w) n)) s
                     else s) <$> sockets (local w)
          else sockets (local w).
Proof.
  intros Hto Hby Hne Hres Hmsg n.
  unfold createNotification. rewrite try_catch_run.
  rewrite (isValid_true _ _ Hto), (isValid_true _ _ Hby). cbn [negb].
  apply String.eqb_neq in Hne. rewrite Hne.
  assert (match dto_resource data with
          | Some (_, id) => truthy (Some id) && negb (isValid id)
          | None => false
          end = false) as ->.
  { destruct (dto_resource data) as [[ty id]|] eqn:Er; [ | done].
    rewrite (Hres ty id) by done. apply andb_false_r. }
  rewrite bind_run, (cast_run _ _ w Hto), bind_run, (cast_run _ _ w Hby).
  rewrite bind_run, notification_validate_ok by done.
  rewrite bind_run. unfold fresh_id at 1. rewrite bind_run. cbn [new_Date gets].
  cbv zeta. rewrite bind_run. cbn [modify]. rewrite bind_run. cbn [gets].
  rewrite bind_run. cbn [logger modify]. rewrite bind_run, NotificationService_emit_effect.
  cbn [mret M_ret].
  eexists. split; [reflexivity | ].
  cbn [io local set_local set_mongo set_log mongo].
  destruct (io (local w)); cbn; done.
Qed.

(** What it does with a request that is not saved: nothing but logging. *)
Lemma createNotification_rejected (data : CreateNotificationDTO)
    (to by_ : ObjectId) (w : World) :
  toObjectId (recipientId data) = Some to →
  toObjectId (actorId data) = Some by_ →
  recipientId data ≠ actorId data →
  dto_message data = ""
  ∨ (∃ ty id, dto_resource data = Some (ty, id) ∧ toObjectId id = None) →
  ∃ e w', createNotification data w = (Throw e, w')
      ∧ mongo w' = mongo w ∧ redis w' = redis w ∧ now w' = now w
      ∧ sockets (local w') = sockets (local w).
Proof.
  intros Hto Hby Hne Hbad.
  unfold createNotification. rewrite try_catch_run.
  rewrite (isValid_true _ _ Hto), (isValid_true _ _ Hby). cbn [negb].
  apply String.eqb_neq in Hne. rewrite Hne.
  match goal with |- context [if ?b then throw _ else _] => destruct b end.
  - cbn. by eexists _, _.
  - rewrite bind_run, (cast_run _ _ w Hto), bind_run, (cast_run _ _ w Hby).
    rewrite bind_run, notification_validate_fails by done.
    cbn. by eexists _, _.
Qed.

(** X11.  [createNotification] for a recipient and an actor that are
    well-formed and differ.  With a message that is not empty and, when
    there is a resource, a well-formed resource identifier: one unread
    notification is added to the store and returned with its actor
    populated; [notification:new] is emitted to the sockets of this
    instance that joined the room [notifications:<recipient>], and to no
    other socket; nothing is sent to Redis.  With an empty message, or
    with a resource identifier that is no ObjectId (the empty identifier,
    which the service's own check lets through, included), the call
    throws and nothing is stored, emitted or sent to Redis. *)
Theorem createNotification_stores_and_pushes (data : CreateNotificationDTO)
    (to by_ : ObjectId) (w : World) :
  toObjectId (recipientId data) = Some to →
  toObjectId (actorId data) = Some by_ →
  recipientId data ≠ actorId data →
  ((∀ ty id, dto_resource data = Some (ty, id) → isValid id = true) →
   dto_message data ≠ "" →
   let n := mkNotification (generateId (nextId (mongo w))) to (dto_type data) by_
              ((λ r, (r.1, toObjectId r.2)) <$> dto_resource data)
              (dto_message data) false (now w) in
   ∃ w', createNotification data w = (Return (Some (populate_actor (mongo w) n)), w')
       ∧ notification_docs (mongo w') = notification_docs (mongo w) ++ [n]
       ∧ redis w' = redis w
       ∧ sockets (local w')
         = if io (local w)
           then (λ s, if decide (("notifications:" +:+ recipientId data) ∈ rooms s)
                      then push_event "notification:new"
                             (NotificationData (populate_actor (mongo w) n)) s
                      else s) <$> sockets (local w)
           else sockets (local w))
  ∧ (dto_message data = ""
     ∨ (∃ ty id, dto_resource data = Some (ty, id) ∧ toObjectId id = None) →
     ∃ e w', createNotification data w = (Throw e, w')
         ∧ mongo w' = mongo w ∧ redis w' = redis w
         ∧ sockets (local w') = sockets (local w)).
Proof.
  intros Hto Hby Hne. split.
  - intros Hres Hmsg n.
    destruct (createNotification_effect data to by_ w Hto Hby Hne Hres Hmsg)
      as (w' & E & Hn & Hr & _ & _ & _ & _ & _ & Hs).
    by exists w'.
  - intros Hbad.
    destruct (createNotification_rejected data to by_ w Hto Hby Hne Hbad)
      as (e & w' & E & Hm & Hr & _ & Hs).
    by exists e, w'.
Qed.

(** When the recipient is the actor nothing but the log changes. *)
Lemma createNotification_self data id w :
  recipientId data = actorId data → toObjectId (recipientId data) = Some id →
  ∃ w', createNotification data w = (Return None, w')
      ∧ mongo w' = mongo w ∧ redis w' = redis w ∧ now w' = now w
      ∧ sockets (local w') = sockets (local w).
Proof.
  intros Heq Hid. unfold createNotification. rewrite try_catch_run.
  rewrite <- Heq, (isValid_true _ _ Hid). cbn [negb]. rewrite String.eqb_refl.
  rewrite bind_run. cbn. by eexists.
Qed.

(** ** The post service: bookmarks, likes and their observers *)

Lemma find_by_id_replaced {D} (id_of : D → ObjectId) id (d d' : D) (docs : list D) :
  find_by_id id_of id docs = Some d → id_of d' = id_of d →
  find_by_id id_of id (replace_by_id id_of d' docs) = Some d'.
Proof.
  intros Hfind Hid. pose proof (find_by_id_Some _ _ _ _ Hfind) as [Hd _].
  rewrite <- Hd, <- Hid. apply find_by_id_replace. rewrite Hid, Hd, Hfind. by eexists.
Qed.

Lemma times_no_op (call : M unit) N w :
  call w = (Return tt, w) → times N call w = (Return tt, w).
Proof.
  intros Hc. induction N as [|N IH]; [done | ].
  cbn [times]. by rewrite bind_run, Hc.
Qed.

(** A bookmark that is already there: the call returns and changes
    nothing. *)
Lemma bookmarkPost_again postId id user u p w :
  toObjectId postId = Some id → toObjectId user = Some u →
  find_by_id post_id id (post_docs (mongo w)) = Some p →
  u ∈ bookmarks p →
  bookmarkPost postId user w = (Return tt, w).
Proof.
  intros Hid Hu Hp Hin. unfold bookmarkPost. rewrite (isValid_true _ id) by done.
  cbn [negb]. rewrite bind_run, (cast_run _ id) by done.
  rewrite bind_run. cbn [gets]. rewrite Hp.
  rewrite bind_run, (cast_run _ u) by done. cbv zeta.
  by rewrite bool_decide_eq_true_2.
Qed.

Lemma bookmarkPost_first postId id user u p w :
  toObjectId postId = Some id → toObjectId user = Some u →
  find_by_id post_id id (post_docs (mongo w)) = Some p →
  u ∉ bookmarks p →
  ∃ w', bookmarkPost postId user w = (Return tt, w')
      ∧ post_docs (mongo w')
        = replace_by_id post_id (with_bookmarks (bookmarks p ++ [u]) (now w) p)
                        (post_docs (mongo w))
      ∧ now w' = now w.
Proof.
  intros Hid Hu Hp Hin. unfold bookmarkPost. rewrite (isValid_true _ id) by done.
  cbn [negb]. rewrite bind_run, (cast_run _ id) by done.
  rewrite bind_run. cbn [gets]. rewrite Hp.
  rewrite bind_run, (cast_run _ u) by done. cbv zeta.
  rewrite bool_decide_eq_false_2 by done. cbn [negb].
  rewrite bind_run. cbn [new_Date gets]. rewrite bind_run. cbn [save_post modify].
  match goal with |- context [invalidatePostCaches ?k ?w'] =>
    destruct (invalidatePostCaches_run k w') as (w1 & E1 & Hm1 & Ht1) end.
  rewrite E1. exists w1. split_and!; [done | | done].
  rewrite Hm1. by destruct w as [r [] l t].
Qed.

Lemma unbookmarkPost_run postId id user u p w :
  toObjectId postId = Some id → toObjectId user = Some u →
  find_by_id post_id id (post_docs (mongo w)) = Some p →
  ∃ w' p', unbookmarkPost postId user w = (Return tt, w')
      ∧ find_by_id post_id id (post_docs (mongo w')) = Some p'
      ∧ bookmarks p' = filter (λ i, i ≠ u) (bookmarks p)
      ∧ now w' = now w.
Proof.
  intros Hid Hu Hp. unfold unbookmarkPost. rewrite (isValid_true _ id) by done.
  cbn [negb]. rewrite bind_run, (cast_run _ id) by done.
  rewrite bind_run. cbn [gets]. rewrite Hp.
  rewrite bind_run, (cast_run _ u) by done. cbv zeta. rewrite bind_run.
  case_bool_decide as Hsame.
  - cbn [mret M_ret].
    match goal with |- context [invalidatePostCaches ?k ?w'] =>
      destruct (invalidatePostCaches_run k w') as (w1 & E1 & Hm1 & Ht1) end.
    rewrite E1. exists w1, p. split_and!; [done | by rewrite Hm1 | done | done].
  - rewrite bind_run. cbn [new_Date gets save_post modify].
    match goal with |- context [invalidatePostCaches ?k ?w'] =>
      destruct (invalidatePostCaches_run k w') as (w1 & E1 & Hm1 & Ht1) end.
    rewrite E1.
    exists w1, (with_bookmarks (filter (λ i, i ≠ u) (bookmarks p)) (now w) p).
    split_and!; [done | | done | done].
    rewrite Hm1. by eapply find_by_id_replaced.
Qed.

Lemma hasUserBookmarkedPost_run postId id user u p w :
  toObjectId postId = Some id → toObjectId user = Some u →
  find_by_id post_id id (post_docs (mongo w)) = Some p →
  hasUserBookmarkedPost postId user w = (Return (bool_decide (u ∈ bookmarks p)), w).
Proof.
  intros Hid Hu Hp. unfold hasUserBookmarkedPost.
  rewrite bind_run, (cast_run _ id) by done. rewrite bind_run. cbn [gets]. rewrite Hp.
  by rewrite bind_run, (cast_run _ u).
Qed.

Lemma hasUserLikedPost_run postId id user u p w :
  toObjectId postId = Some id → toObjectId user = Some u →
  find_by_id post_id id (post_docs (mongo w)) = Some p →
  hasUserLikedPost postId user w = (Return (bool_decide (u ∈ likes p)), w).
Proof.
  intros Hid Hu Hp. unfold hasUserLikedPost.
  rewrite bind_run, (cast_run _ id) by done. rewrite bind_run. cbn [gets]. rewrite Hp.
  by rewrite bind_run, (cast_run _ u).
Qed.

(** X12.  On an existing post, with well-formed identifiers and whatever
    the cache backend does: any number [N >= 1] of calls of [bookmarkPost]
    returns and leaves the user once more in the bookmark list than before
    if absent, and the list as it was if present, the likes being as
    before; [hasUserBookmarkedPost] is then true; after [unbookmarkPost] the
    user is no more in the list and [hasUserBookmarkedPost] is false. *)
Theorem bookmarkPost_idempotent (postId user : string) (id u : ObjectId) (p : Post)
    (w : World) (N : nat) :
  toObjectId postId = Some id →
  toObjectId user = Some u →
  find_by_id post_id id (post_docs (mongo w)) = Some p →
  1 ≤ N →
  ∃ w1 p1,
    times N (bookmarkPost postId user) w = (Return tt, w1)
    ∧ find_by_id post_id id (post_docs (mongo w1)) = Some p1
    ∧ bookmarks p1 = (if bool_decide (u ∈ bookmarks p) then bookmarks p
                      else bookmarks p ++ [u])
    ∧ likes p1 = likes p
    ∧ hasUserBookmarkedPost postId user w1 = (Return true, w1)
    ∧ ∃ w2 p2,
        unbookmarkPost postId user w1 = (Return tt, w2)
        ∧ find_by_id post_id id (post_docs (mongo w2)) = Some p2
        ∧ (u ∉ bookmarks p2)
        ∧ hasUserBookmarkedPost postId user w2 = (Return false, w2).
Proof.
  intros Hid Hu Hp HN. destruct N as [|N]; [lia | ]. cbn [times].
  assert (∃ w1 p1, bookmarkPost postId user w = (Return tt, w1)
            ∧ find_by_id post_id id (post_docs (mongo w1)) = Some p1
            ∧ bookmarks p1 = (if bool_decide (u ∈ bookmarks p) then bookmarks p
                              else bookmarks p ++ [u])
            ∧ likes p1 = likes p) as (w1 & p1 & E1 & Hp1 & Hb1 & Hl1).
  { destruct (decide (u ∈ bookmarks p)) as [Hin|Hnin].
    - exists w, p. rewrite bool_decide_eq_true_2 by done.
      split_and!; try done. by eapply bookmarkPost_again.
    - destruct (bookmarkPost_first postId id user u p w Hid Hu Hp Hnin) as (w1 & E & Hps & _).
      exists w1, (with_bookmarks (bookmarks p ++ [u]) (now w) p).
      rewrite bool_decide_eq_false_2 by done. split_and!; try done.
      rewrite Hps. by eapply find_by_id_replaced. }
  assert (u ∈ bookmarks p1) as Hin1.
  { rewrite Hb1. case_bool_decide; [done | ].
    apply elem_of_app. right. by apply list_elem_of_singleton. }
  exists w1, p1. rewrite bind_run, E1.
  rewrite (times_no_op _ N w1) by by eapply bookmarkPost_again.
  split_and!; try done.
  - rewrite (hasUserBookmarkedPost_run postId id user u p1) by done.
    by rewrite bool_decide_eq_true_2.
  - destruct (unbookmarkPost_run postId id user u p1 w1 Hid Hu Hp1)
      as (w2 & p2 & E2 & Hp2 & Hb2 & _).
    exists w2, p2.
    assert (u ∉ bookmarks p2) as Hout.
    { rewrite Hb2. intros [Hne _]%list_elem_of_filter. done. }
    split_and!; try done.
    rewrite (hasUserBookmarkedPost_run postId id user u _ w2 Hid Hu Hp2).
    by rewrite bool_decide_eq_false_2.
Qed.

(** A like that is already there: the call returns and changes nothing. *)
Lemma likePost_again postId id user u p w :
  toObjectId postId = Some id → toObjectId user = Some u →
  find_by_id post_id id (post_docs (mongo w)) = Some p →
  u ∈ likes p →
  likePost postId user w = (Return tt, w).
Proof.
  intros Hid Hu Hp Hin. unfold likePost. rewrite (isValid_true _ id) by done.
  cbn [negb]. rewrite bind_run, (cast_run _ id) by done.
  rewrite bind_run. cbn [gets]. rewrite Hp.
  rewrite bind_run, (cast_run _ u) by done. cbv zeta.
  by rewrite bool_decide_eq_true_2.
Qed.

(** The notification of a like. *)
Definition like_notification (id u : ObjectId) (p : Post) (w : World) : Notification :=
  mkNotification (generateId (nextId (mongo w))) (post_author p) like u
    (Some (post, Some id))
    ("liked your post " +:+ quotation_mark +:+ post_title p +:+ quotation_mark)
    false (now w).

(** X13.  [likePost] on an existing post, with well-formed identifiers
    and whatever the cache backend does.  A like that is already there is
    a no-op: the call returns and the state is as before, with no
    notification.  A first like returns with the user in the like list
    ([hasUserLikedPost] is true) and, when the liker is not the author,
    exactly one unread [like] notification for the author added to the
    store; when the liker is the author no notification is added. *)
Theorem likePost_notifies_first_like (postId user : string) (id u : ObjectId) (p : Post)
    (w : World) :
  toObjectId postId = Some id →
  toObjectId user = Some u →
  find_by_id post_id id (post_docs (mongo w)) = Some p →
  toObjectId (oidToString (post_author p)) = Some (post_author p) →
  (u ∈ likes p → likePost postId user w = (Return tt, w))
  ∧ (u ∉ likes p →
     ∃ w', likePost postId user w = (Return tt, w')
         ∧ hasUserLikedPost postId user w' = (Return true, w')
         ∧ notification_docs (mongo w')
           = if String.eqb (oidToString (post_author p)) user
             then notification_docs (mongo w)
             else notification_docs (mongo w) ++ [like_notification id u p w]).
Proof.
  intros Hid Hu Hp Hauthor. split; [by apply (likePost_again postId id user u p) | ].
  intros Hnin. unfold likePost. rewrite (isValid_true _ id) by done.
  cbn [negb]. rewrite bind_run, (cast_run _ id) by done.
  rewrite bind_run. cbn [gets]. rewrite Hp.
  rewrite bind_run, (cast_run _ u) by done. cbv zeta.
  rewrite bool_decide_eq_false_2 by done. cbn [negb].
  rewrite bind_run. cbn [new_Date gets]. rewrite bind_run. cbn [save_post modify].
  rewrite bind_run.
  match goal with |- context [invalidatePostCaches ?k ?w'] =>
    destruct (invalidatePostCaches_run k w') as (w1 & E1 & Hm1 & Ht1) end.
  rewrite E1. cbn [mongo set_mongo now] in Hm1, Ht1.
  assert (find_by_id post_id id (post_docs (mongo w1))
          = Some (with_likes (likes p ++ [u]) (now w) p)) as Hp1.
  { rewrite Hm1. cbn [post_docs set_post_docs]. by eapply find_by_id_replaced. }
  assert (u ∈ likes (with_likes (likes p ++ [u]) (now w) p)) as Hin1.
  { apply elem_of_app. right. by apply list_elem_of_singleton. }
  unfold fire_and_forget, createLikeNotification. rewrite try_catch_run, bind_run.
  destruct (String.eqb (oidToString (post_author p)) user) eqn:Eself.
  - apply String.eqb_eq in Eself.
    match goal with |- context [createNotification ?d w1] =>
      destruct (createNotification_self d (post_author p) w1) as (w2 & E2 & Hm2 & _)
    end; [done | done | ].
    rewrite E2. cbn [mret M_ret]. exists w2. split_and!; [done | | ].
    + rewrite (hasUserLikedPost_run postId id user u _ w2 Hid Hu) by by rewrite Hm2.
      by rewrite bool_decide_eq_true_2.
    + by rewrite Hm2, Hm1.
  - apply String.eqb_neq in Eself.
    match goal with |- context [createNotification ?d w1] =>
      destruct (createNotification_effect d (post_author p) u w1)
        as (w2 & E2 & Hn2 & _ & _ & Hps2 & _)
    end; [done | done | done | | done | ].
    { intros ty rid [= _ <-]. exact (isValid_true _ id Hid). }
    rewrite E2. cbn [mret M_ret]. exists w2. split_and!; [done | | ].
    + rewrite (hasUserLikedPost_run postId id user u _ w2 Hid Hu) by by rewrite Hps2.
      by rewrite bool_decide_eq_true_2.
    + rewrite Hn2, Hm1, Ht1. cbn [dto_resource fmap option_fmap option_map fst snd].
      unfold like_notification. by rewrite Hid.
Qed.

(** X14.  [getPost] for a post that the store does not hold.  A malformed
    identifier is answered with [NotFoundError] and nothing is touched, not
    even the cache.  For a well-formed identifier of no post, the store is
    left as it is; the answer is [NotFoundError] when the cache has no live
    entry for the post, and the cached snapshot when it has one and Redis
    serves the read: a post deleted from the store is served from the cache
    for as long as its entry lives. *)
Theorem getPost_of_missing_post (postId : string) (w : World) :
  (toObjectId postId = None → getPost postId w = (Throw (NotFoundError "Post"), w))
  ∧ (∀ id, toObjectId postId = Some id →
       find_by_id post_id id (post_docs (mongo w)) = None →
       mongo (getPost postId w).2 = mongo w
       ∧ (lookup_live (now w) (CacheKeys_post postId) (cacheKeys (redis w)) = None →
          (getPost postId w).1 = Throw (NotFoundError "Post"))
       ∧ (∀ cached, ¬ storage_error w →
            lookup_live (now w) (CacheKeys_post postId) (cacheKeys (redis w))
            = Some (Json cached) →
            (getPost postId w).1 = Return cached)).
Proof.
  split.
  - intros Hnone. unfold getPost, isValid.
    rewrite bool_decide_eq_false_2; [done | ]. rewrite Hnone. by intros [? ?].
  - intros id Hid Hfind.
    destruct (getPost_run postId id w Hid) as (w' & E & Hm & _).
    rewrite E. cbn [fst snd]. rewrite Hfind. split_and!.
    + rewrite Hm. unfold updated. by rewrite Hfind.
    + intros Hmiss. by rewrite CacheService_get_absent.
    + intros cached Hok Hhit. by rewrite (CacheService_get_hit _ cached).
Qed.

(** A page of a sorted list is sorted and holds elements of the list. *)
Lemma page_sorted {D} (R : relation D) `{!∀ a b, Decision (R a b)}
    `{!Transitive R} `{!Total R} (n k : nat) (l : list D) :
  StronglySorted R (take n (drop k (merge_sort R l)))
  ∧ (∀ x, x ∈ take n (drop k (merge_sort R l)) → x ∈ l)
  ∧ length (take n (drop k (merge_sort R l))) ≤ n.
Proof.
  split_and!.
  - pose proof (StronglySorted_merge_sort R l) as Hs.
    rewrite <- (take_drop k (merge_sort R l)) in Hs.
    apply StronglySorted_app_1_r in Hs.
    rewrite <- (take_drop n (drop k (merge_sort R l))) in Hs.
    by apply StronglySorted_app_1_l in Hs.
  - intros x Hx. rewrite <- (merge_sort_Permutation R l).
    eapply elem_of_sublist; [exact Hx | ].
    etrans; [apply sublist_take | apply sublist_drop].
  - rewrite length_take. lia.
Qed.

(** X15.  [listPosts] when the cache has no live entry for the request
    (and whatever the cache backend does otherwise): the page returned
    holds posts of the store that have the status asked for, [published]
    when none is asked for, and the author asked for when one is; they are
    at most [limit], the most recent first; [total] counts the posts that
    match, [totalPages] is [total / limit] rounded up and [hasMore] tells
    whether the page is before the last. *)
Theorem listPosts_page (filters : PostFilters) (pagination : Pagination)
    (author : option ObjectId) (w : World) :
  author_filter filters = Return author →
  lookup_live (now w)
    (CacheKeys_postList filters (Pos.to_nat (pagination_page pagination))
       (Pos.to_nat (pagination_limit pagination)))
    (cacheKeys (redis w)) = None →
  ∃ r, (listPosts filters pagination w).1 = Return (DocPosts r)
     ∧ length (posts r) ≤ Pos.to_nat (pagination_limit pagination)
     ∧ (∀ v, v ∈ posts r →
          pv_post v ∈ post_docs (mongo w)
          ∧ post_status (pv_post v) = default published (filter_status filters)
          ∧ (∀ a, author = Some a → post_author (pv_post v) = a))
     ∧ StronglySorted (newer_first post_createdAt) (pv_post <$> posts r)
     ∧ total r = length (filter (list_query author filters) (post_docs (mongo w)))
     ∧ page r = Pos.to_nat (pagination_page pagination)
     ∧ totalPages r = ceil_div (total r) (Pos.to_nat (pagination_limit pagination))
     ∧ hasMore r = (page r <? totalPages r).
Proof.
  intros Ha Hmiss.
  destruct (listPosts_outcome filters pagination w) as [Ho _].
  rewrite CacheService_get_absent in Ho by done.
  rewrite Ha in Ho. cbn [cache_aside with_author] in Ho.
  eexists. split; [exact Ho | ].
  unfold list_result, paginated, paginate.
  cbn [posts total page totalPages hasMore].
  set (limit := Pos.to_nat (pagination_limit pagination)).
  set (skip := (Pos.to_nat (pagination_page pagination) - 1) * limit).
  set (matching := filter (list_query author filters) (post_docs (mongo w))).
  destruct (page_sorted (newer_first post_createdAt) limit skip matching)
    as (Hsorted & Hin & Hlen).
  assert (pv_post <$> (populate_author (mongo w)
                       <$> take limit (drop skip
                             (merge_sort (newer_first post_createdAt) matching)))
          = take limit (drop skip (merge_sort (newer_first post_createdAt) matching)))
    as Hproj.
  { rewrite <- list_fmap_compose. apply list_fmap_id. }
  split_and!; try done.
  - by rewrite length_fmap.
  - intros v Hv. apply list_elem_of_fmap in Hv as (p & -> & Hp).
    apply Hin in Hp. apply list_elem_of_filter in Hp as [(Hau & _ & Hst) Hdoc].
    change (pv_post (populate_author (mongo w) p)) with p.
    split_and!; [done | done | ]. intros a ->. exact Hau.
  - by rewrite Hproj.
Qed.

(** The posts and the comments are out of reach of the notifications. *)
Definition posts_and_comments (ps : list Post) (cs : list Comment) (w : World) : Prop :=
  post_docs (mongo w) = ps ∧ comment_docs (mongo w) = cs.

Lemma createNotification_posts_and_comments ps cs data :
  preserves (posts_and_comments ps cs) (createNotification data).
Proof. apply createNotification_preserves; frame_side. Qed.

Lemma comment_tasks_kept ps cs a b c d message :
  preserves (posts_and_comments ps cs)
    (fire_and_forget (createCommentNotification a b c d) message)
  ∧ preserves (posts_and_comments ps cs)
      (fire_and_forget (createMentionNotifications a b c d) message).
Proof.
  split.
  - unfold fire_and_forget, createCommentNotification.
    preserves_auto; try apply createNotification_posts_and_comments; frame_side.
  - unfold fire_and_forget, createMentionNotifications.
    preserves_auto; try apply createNotification_posts_and_comments; frame_side.
Qed.

Lemma comment_validate_ok content w :
  1 ≤ js_length (trim content) ≤ 10 * 1000 →
  comment_validate content w = (Return (trim content), w).
Proof.
  intros [Hlo Hhi]. unfold comment_validate. cbv zeta.
  destruct (js_length (trim content) <? 1) eqn:E1; [apply Nat.ltb_lt in E1; lia | ].
  destruct (10 * 1000 <? js_length (trim content)) eqn:E2;
    [apply Nat.ltb_lt in E2; lia | done].
Qed.

(** X16.  [addComment] of a top-level comment on an existing post, with
    well-formed identifiers and a content of 1 to 10000 characters once
    trimmed, whatever the cache backend does: the call returns the new
    comment, which is added to the store with the trimmed content, the
    post and no parent, and the comment count of the post is one more than
    before. *)
Theorem addComment_counts_comment (postId user : string) (data : CreateCommentDTO)
    (id u : ObjectId) (p : Post) (w : World) :
  toObjectId postId = Some id →
  toObjectId user = Some u →
  find_by_id post_id id (post_docs (mongo w)) = Some p →
  truthy (comment_dto_parent data) = false →
  1 ≤ js_length (trim (comment_dto_content data)) ≤ 10 * 1000 →
  let c := mkComment (generateId (nextId (mongo w))) u (Some id)
             (trim (comment_dto_content data)) None (now w) in
  ∃ w', addComment postId user data w
        = (Return (mkCommentView c (populate_user false u (mongo w))), w')
      ∧ comment_docs (mongo w') = comment_docs (mongo w) ++ [c]
      ∧ find_by_id post_id id (post_docs (mongo w')) = Some (inc_commentCount (now w) p)
      ∧ commentCount (inc_commentCount (now w) p) = S (commentCount p).
Proof.
  intros Hid Hu Hp Hparent Hlen c.
  unfold addComment. rewrite (isValid_true _ id) by done. cbn [negb].
  rewrite bind_run, (cast_run _ id) by done.
  rewrite bind_run. cbn [gets]. rewrite Hp, Hparent.
  rewrite bind_run. cbn [mret M_ret]. rewrite bind_run. unfold fresh_id at 1.
  rewrite Hu. rewrite bind_run. cbn [mret M_ret].
  rewrite bind_run, comment_validate_ok by done.
  rewrite bind_run. cbn [new_Date gets now set_mongo]. cbv zeta.
  rewrite bind_run. cbn [modify]. rewrite bind_run, findByIdAndUpdate_run.
  cbn [now set_mongo mongo post_docs set_comment_docs set_nextId].
  rewrite bind_run. cbn [gets].
  rewrite bind_run.
  match goal with |- context [invalidatePostCaches ?k ?w'] =>
    destruct (invalidatePostCaches_run k w') as (w1 & E1 & Hm1 & Ht1) end.
  rewrite E1. rewrite bind_run.
  match goal with |- context [fire_and_forget ?task ?msg w1] =>
    destruct (run_kept (fire_and_forget task msg)
                (posts_and_comments (post_docs (mongo w1)) (comment_docs (mongo w1))) w1)
      as ([] & w2 & E2 & Hps2 & Hcs2)
  end; [apply fire_and_forget_never_throws | apply comment_tasks_kept | done | ].
  rewrite E2. rewrite bind_run.
  match goal with |- context [fire_and_forget ?task ?msg w2] =>
    destruct (run_kept (fire_and_forget task msg)
                (posts_and_comments (post_docs (mongo w2)) (comment_docs (mongo w2))) w2)
      as ([] & w3 & E3 & Hps3 & Hcs3)
  end; [apply fire_and_forget_never_throws | apply comment_tasks_kept | done | ].
  rewrite E3. cbn [mret M_ret]. exists w3.
  unfold updated in Hm1. cbn [mongo set_mongo post_docs set_comment_docs set_nextId] in Hm1.
  rewrite Hp in Hm1.
  split_and!.
  - f_equal. f_equal. unfold populate_user, updated. cbn. by rewrite Hp.
  - rewrite Hcs3, Hcs2, Hm1. done.
  - rewrite Hps3, Hps2, Hm1. cbn [post_docs set_post_docs].
    by eapply find_by_id_replaced.
  - done.
Qed.

(** X17.  [addComment] with a parent comment, on an existing post: a
    parent identifier that is malformed or names no comment is answered
    with [NotFoundError], and a parent comment that is not of this post
    with the error [Parent comment does not belong to this post]; in each
    case the state is as before: no comment is stored and the comment count
    is not touched. *)
Theorem addComment_checks_parent (postId user parentId : string) (data : CreateCommentDTO)
    (id : ObjectId) (p : Post) (w : World) :
  toObjectId postId = Some id →
  find_by_id post_id id (post_docs (mongo w)) = Some p →
  comment_dto_parent data = Some parentId → parentId ≠ "" →
  (toObjectId parentId = None →
     addComment postId user data w = (Throw (NotFoundError "Parent comment"), w))
  ∧ (∀ parentOid, toObjectId parentId = Some parentOid →
       find_by_id comment_id parentOid (comment_docs (mongo w)) = None →
       addComment postId user data w = (Throw (NotFoundError "Parent comment"), w))
  ∧ (∀ parentOid pc, toObjectId parentId = Some parentOid →
       find_by_id comment_id parentOid (comment_docs (mongo w)) = Some pc →
       oidToString <$> comment_post pc ≠ Some postId →
       addComment postId user data w
       = (Throw (JsError "Parent comment does not belong to this post"), w)).
Proof.
  intros Hid Hp Hparent Hne.
  unfold addComment. rewrite (isValid_true _ id) by done. cbn [negb].
  rewrite bind_run, (cast_run _ id) by done.
  rewrite bind_run. cbn [gets]. rewrite Hp, Hparent.
  unfold truthy. apply String.eqb_neq in Hne. rewrite Hne. cbn [negb default from_option]. unfold Datatypes.id.
  rewrite bind_run. split_and!.
  - intros Hnone.
    assert (isValid parentId = false) as ->; [ | done].
    unfold isValid. apply bool_decide_eq_false_2. rewrite Hnone. by intros [? ?].
  - intros parentOid Hpid Hnone. rewrite (isValid_true _ parentOid) by done. cbn [negb].
    rewrite bind_run, (cast_run _ parentOid) by done.
    rewrite bind_run. cbn [gets]. by rewrite Hnone.
  - intros parentOid pc Hpid Hpc Hother. rewrite (isValid_true _ parentOid) by done.
    cbn [negb]. rewrite bind_run, (cast_run _ parentOid) by done.
    rewrite bind_run. cbn [gets]. rewrite Hpc.
    by rewrite bool_decide_eq_false_2.
Qed.

(** ** The chat service: sending, reading, listing *)

(** What a call of [sendMessage] can add to the messages: nothing, or one
    message of a participant of the chat. *)
Definition sent_by_participant (user chatId content : string) (w w' : World) : Prop :=
  message_docs (mongo w') = message_docs (mongo w)
  ∨ ∃ (m : Message) (chat : Chat) (chatOid u : ObjectId),
      message_docs (mongo w') = message_docs (mongo w) ++ [m]
      ∧ toObjectId chatId = Some chatOid ∧ toObjectId user = Some u
      ∧ find_by_id chat_id chatOid (chat_docs (mongo w)) = Some chat
      ∧ u ∈ participants chat
      ∧ message_chat m = chatOid ∧ sender m = u ∧ readBy m = [u]
      ∧ message_content m = trim (trim content)
      ∧ message_content m ≠ ""
      ∧ js_length (message_content m) ≤ 5 * 1000.

(** X18.  Whatever its arguments and the state, and whether it returns or
    throws, [sendMessage] adds to the stored messages either nothing or
    exactly one message, and then one whose sender is a participant of the
    chat it is sent to, read by the sender alone, with the content trimmed,
    not empty and at most 5000 characters long: no message of a
    non-participant, to a chat that does not exist or with an empty content
    is ever stored. *)
Theorem sendMessage_stores_only_for_participants (user chatId content : string) (w : World) :
  sent_by_participant user chatId content w (sendMessage user chatId content w).2.
Proof.
  assert (wp (sendMessage user chatId content)
            (λ _ w', sent_by_participant user chatId content w w') w) as H; [ | exact H].
  unfold sendMessage, message_validate, chat_pre_save, formatMessageResponse.
  wp_steps; try (by left).
  all: right; eexists _, _, _, _; cbn [mongo message_docs set_mongo set_local
         set_message_docs set_chat_docs set_nextId message_chat sender readBy
         message_content].
  all: apply negb_false_iff, bool_decide_eq_true in Heqb.
  all: apply String.eqb_neq in Heqb0; apply Nat.ltb_ge in Heqb1.
  all: split_and!; try done; try eassumption.
Qed.

Lemma message_validate_ok content w :
  trim content ≠ "" → js_length (trim content) ≤ 5 * 1000 →
  message_validate content w = (Return (trim content), w).
Proof.
  intros Hne Hlen. unfold message_validate. cbv zeta.
  apply String.eqb_neq in Hne. rewrite Hne.
  destruct (5 * 1000 <? js_length (trim content)) eqn:E;
    [apply Nat.ltb_lt in E; lia | done].
Qed.

(** X19.  [sendMessage] by a participant of an existing chat, with a
    content that is not empty once trimmed and at most 5000 characters
    long, when the sender is a stored user and the next identifier of the
    driver is unused (and, for a direct chat, the chat has its two
    participants): the call returns the message, with the trimmed content,
    the sender's details and the sender as its only reader; the message is
    added to the store; and the chat has it as its last message, with the
    time of the call as [updatedAt]. *)
Theorem sendMessage_delivers (user chatId content : string) (chatOid u : ObjectId)
    (chat : Chat) (usr : User) (w : World) :
  toObjectId chatId = Some chatOid →
  toObjectId user = Some u →
  find_by_id chat_id chatOid (chat_docs (mongo w)) = Some chat →
  u ∈ participants chat →
  trim (trim content) ≠ "" →
  js_length (trim (trim content)) ≤ 5 * 1000 →
  (chat_type chat = direct → length (participants chat) = 2) →
  find_by_id user_id u (user_docs (mongo w)) = Some usr →
  generateId (nextId (mongo w)) ∉ message_id <$> message_docs (mongo w) →
  let m := mkMessage (generateId (nextId (mongo w))) chatOid u (trim (trim content)) [u]
                     (now w) in
  ∃ r w', sendMessage user chatId content w = (Return r, w')
      ∧ mr_id r = oidToString (message_id m)
      ∧ mr_chat r = oidToString chatOid
      ∧ mr_content r = trim (trim content)
      ∧ mr_readBy r = [oidToString u]
      ∧ ui_id (mr_sender r) = oidToString (user_id usr)
      ∧ ui_username (mr_sender r) = username usr
      ∧ message_docs (mongo w') = message_docs (mongo w) ++ [m]
      ∧ ∃ chat', find_by_id chat_id chatOid (chat_docs (mongo w')) = Some chat'
               ∧ lastMessage chat' = Some (message_id m)
               ∧ chat_updatedAt chat' = now w
               ∧ participants chat' = participants chat.
Proof.
  intros Hchat Hu Hfind Hin Hne Hlen Hdirect Husr Hfresh m.
  unfold sendMessage. rewrite try_catch_run.
  rewrite bind_run, (cast_run _ chatOid) by done.
  rewrite bind_run. cbn [gets]. rewrite Hfind.
  rewrite bind_run, (cast_run _ u) by done. cbv zeta.
  rewrite bool_decide_eq_true_2 by done. cbn [negb].
  rewrite bind_run, message_validate_ok by done.
  rewrite bind_run. unfold fresh_id at 1. rewrite bind_run. cbn [new_Date gets].
  rewrite bind_run. cbn [modify]. rewrite bind_run.
  unfold chat_pre_save. cbn [chat_type participants].
  rewrite decide_False; [ | intros [Hd Hn]; by apply Hn, Hdirect].
  cbn [mret M_ret]. rewrite bind_run. cbn [modify]. rewrite bind_run. cbn [gets].
  cbn [mongo set_mongo message_docs set_message_docs set_chat_docs set_nextId now].
  change (mkMessage (generateId (nextId (mongo w))) chatOid u (trim (trim content)) [u]
                    (now w)) with m.
  rewrite (find_by_id_fresh message_id m) by done. cbn [fmap option_fmap option_map].
  rewrite bind_run. cbn [logger modify].
  unfold formatMessageResponse, populate_message, populate_user.
  cbn [mv_sender mv_message sender m mongo set_mongo user_docs set_local].
  cbn [user_docs set_chat_docs set_message_docs set_nextId].
  rewrite Husr. cbn [mbind option_bind mret M_ret].
  eexists _, _. split; [reflexivity | ].
  cbn [mr_id mr_chat mr_content mr_readBy mr_sender user_info ui_id ui_username
       uv_id uv_username message_id message_chat message_content readBy m
       mongo set_local set_mongo message_docs chat_docs].
  split_and!; try done.
  eexists. split; [by eapply find_by_id_replaced | done].
Qed.

(** The messages after [markAsRead] by [u] in the chat. *)
Definition marked_read (chat u : ObjectId) (docs : list Message) : list Message :=
  (λ m, if decide (unread_in chat u m) then read_by u m else m) <$> docs.

Lemma marked_read_twice chat u docs :
  marked_read chat u (marked_read chat u docs) = marked_read chat u docs.
Proof.
  unfold marked_read. rewrite <- list_fmap_compose. apply list_fmap_ext.
  intros i m _. cbn. destruct (decide (unread_in chat u m)) as [[Hc Hr]|Hn].
  - rewrite decide_False; [done | ]. intros [_ Hnot]. apply Hnot. cbn.
    apply elem_of_app. right. by apply list_elem_of_singleton.
  - by rewrite decide_False.
Qed.

Lemma markAsRead_run user chatId chatOid u chat w :
  toObjectId chatId = Some chatOid → toObjectId user = Some u →
  find_by_id chat_id chatOid (chat_docs (mongo w)) = Some chat →
  u ∈ participants chat →
  ∃ w', markAsRead user chatId w = (Return tt, w')
      ∧ message_docs (mongo w') = marked_read chatOid u (message_docs (mongo w))
      ∧ chat_docs (mongo w') = chat_docs (mongo w).
Proof.
  intros Hchat Hu Hfind Hin. unfold markAsRead. rewrite try_catch_run.
  rewrite bind_run, (cast_run _ chatOid) by done.
  rewrite bind_run. cbn [gets]. rewrite Hfind.
  rewrite bind_run, (cast_run _ u) by done. cbv zeta.
  rewrite bool_decide_eq_true_2 by done. cbn [negb].
  rewrite bind_run. cbn [modify logger]. by eexists.
Qed.

(** X20.  [markAsRead] of the chat service, on an existing chat with
    well-formed identifiers.  For a user who is not a participant the call
    throws the validation error and the store is as before.  For a
    participant it returns; afterwards every message of the chat has the
    user among its readers, the messages the user had read and the
    messages of other chats are as before, no message is added or dropped,
    and a second call changes no message. *)
Theorem markAsRead_marks_chat (user chatId : string) (chatOid u : ObjectId)
    (chat : Chat) (w : World) :
  toObjectId chatId = Some chatOid →
  toObjectId user = Some u →
  find_by_id chat_id chatOid (chat_docs (mongo w)) = Some chat →
  (u ∉ participants chat →
     (markAsRead user chatId w).1
     = Throw (ValidationError "User is not a participant in this chat")
     ∧ mongo (markAsRead user chatId w).2 = mongo w)
  ∧ (u ∈ participants chat →
     ∃ w', markAsRead user chatId w = (Return tt, w')
         ∧ length (message_docs (mongo w')) = length (message_docs (mongo w))
         ∧ (∀ m', m' ∈ message_docs (mongo w') → message_chat m' = chatOid → u ∈ readBy m')
         ∧ (∀ i m, message_docs (mongo w) !! i = Some m →
              message_chat m ≠ chatOid ∨ u ∈ readBy m →
              message_docs (mongo w') !! i = Some m)
         ∧ (∀ i m, message_docs (mongo w) !! i = Some m →
              message_chat m = chatOid → u ∉ readBy m →
              message_docs (mongo w') !! i = Some (read_by u m))
         ∧ message_docs (mongo (markAsRead user chatId w').2) = message_docs (mongo w')).
Proof.
  intros Hchat Hu Hfind. split.
  - intros Hnin. unfold markAsRead. rewrite try_catch_run.
    rewrite bind_run, (cast_run _ chatOid) by done.
    rewrite bind_run. cbn [gets]. rewrite Hfind.
    rewrite bind_run, (cast_run _ u) by done. cbv zeta.
    by rewrite bool_decide_eq_false_2.
  - intros Hin.
    destruct (markAsRead_run user chatId chatOid u chat w Hchat Hu Hfind Hin)
      as (w' & E & Hdocs & Hchats).
    exists w'. split; [exact E | ]. rewrite Hdocs. unfold marked_read. split_and!.
    + by rewrite length_fmap.
    + intros m' Hm' Hc. apply list_elem_of_fmap in Hm' as (m & -> & _).
      destruct (decide (unread_in chatOid u m)) as [[_ _]|Hn].
      * cbn. apply elem_of_app. right. by apply list_elem_of_singleton.
      * destruct (decide (u ∈ readBy m)) as [|Hnot]; [done | ].
        exfalso. apply Hn. by split.
    + intros i m Hi Hcase. rewrite list_lookup_fmap, Hi. cbn.
      rewrite decide_False; [done | ]. intros [Hc Hr]. by destruct Hcase.
    + intros i m Hi Hc Hr. rewrite list_lookup_fmap, Hi. cbn.
      by rewrite decide_True.
    + assert (find_by_id chat_id chatOid (chat_docs (mongo w')) = Some chat) as Hfind'
        by by rewrite Hchats.
      destruct (markAsRead_run user chatId chatOid u chat w' Hchat Hu Hfind' Hin)
        as (w'' & E' & Hdocs' & _).
      rewrite E'. cbn [snd]. rewrite Hdocs', Hdocs. apply marked_read_twice.
Qed.








(** ** Real-time delivery across instances *)

(** What the room relay of an instance does with a room message. *)
Definition relayed (room event : string) (data : Payload) (l : Local) : Local :=
  set_sockets
    (fmap (λ s, if decide (room ∈ rooms s) then push_event event data s else s))
    (set_log (λ lg, lg ++ [(log_debug, "Received message from Redis channel")]) l).

(** An instance whose Socket.IO server is up and that listens to the
    room channel with the room relay, as after [initializePubSub]. *)
Definition instance_ready (l : Local) : Prop :=
  io l = true
  ∧ filter (λ e, e.1 = "socket:room") (listeners l) = [("socket:room", RoomRelay)].

Lemma receive_room room event data r m l t :
  instance_ready l → room ≠ "" →
  receive "socket:room" (mkPubSubMessage event data (Some room) None) (mkWorld r m l t)
  = (Return tt, mkWorld r m (relayed room event data l) t).
Proof.
  intros [Hio Hl] Hroom. apply String.eqb_neq in Hroom.
  unfold receive, gets, mbind, M_bind. cbn [local]. rewrite Hl.
  unfold for_of, on_message, try_catch, JSON_parse, relay, logger, modify, getIO,
    io_to_emit, mbind, M_bind, mret, M_ret, relayed.
  cbn [msg_room msg_event msg_data truthy snd local set_local set_log io].
  rewrite Hroom. cbn [negb default from_option local set_local set_log io].
  rewrite Hio. destruct l; reflexivity.
Qed.

(** Delivery to the instances from the [k]-th on. *)
Lemma deliver_from room event data r m t (done_ rest : list Local) :
  Forall instance_ready rest → room ≠ "" →
  foldl (λ c' i,
           match on_instance i
                   (receive "socket:room" (mkPubSubMessage event data (Some room) None)) c'
           with
           | Some (_, c'') => c''
           | None => c'
           end)
        (mkCluster r m t (done_ ++ rest)) (seq (length done_) (length rest))
  = mkCluster r m t (done_ ++ (relayed room event data <$> rest)).
Proof.
  intros Hready Hroom. revert done_.
  induction Hready as [|l rest Hl Hrest IH]; intros done_; [done | ].
  cbn [length seq foldl]. unfold on_instance at 2.
  cbn [instances cluster_redis cluster_mongo cluster_now].
  rewrite lookup_app_r, Nat.sub_diag by done. cbn [lookup list_lookup mbind option_bind].
  rewrite receive_room by done. cbn [redis mongo now local].
  replace (<[length done_ := relayed room event data l]> (done_ ++ l :: rest))
    with ((done_ ++ [relayed room event data l]) ++ rest).
  2:{ rewrite insert_app_r_alt, Nat.sub_diag by done. cbn. by rewrite <- app_assoc. }
  specialize (IH (done_ ++ [relayed room event data l])).
  rewrite length_app in IH. cbn [length] in IH. rewrite Nat.add_1_r in IH.
  rewrite IH. cbn [fmap list_fmap]. by rewrite <- app_assoc.
Qed.

Lemma deliver_room room event data c :
  Forall instance_ready (instances c) → room ≠ "" →
  deliver c ("socket:room", mkPubSubMessage event data (Some room) None)
  = mkCluster (cluster_redis c) (cluster_mongo c) (cluster_now c)
      (relayed room event data <$> instances c).
Proof.
  intros Hready Hroom. unfold deliver. cbn [fst snd].
  destruct c as [r m t ls]. cbn [instances cluster_redis cluster_mongo cluster_now] in *.
  exact (deliver_from room event data r m t [] ls Hready Hroom).
Qed.

Lemma emitToRoomAcrossInstances_run room event data w :
  redisPublisher (redis w) = true → true ∉ faults (redis w) →
  emitToRoomAcrossInstances room event data w
  = (Return tt,
     set_local (set_log (λ l, l ++ [(log_debug, "Published message to Redis channel")]))
       (set_redis
          (set_channel_log
             (λ l, l ++ [("socket:room", mkPubSubMessage event data (Some room) None)]))
          (pop w))).
Proof.
  intros Hp Hf. unfold emitToRoomAcrossInstances, publishMessage, redis_publish.
  rewrite !try_catch_run, bind_run. unfold getRedisPublisher at 1. rewrite Hp.
  rewrite bind_run, command_serving by done. cbn [fst snd]. unfold logger, modify.
  reflexivity.
Qed.

Lemma instance_ready_logged l entry :
  instance_ready l → instance_ready (set_log (λ lg, lg ++ [entry]) l).
Proof. by intros [? ?]. Qed.

(** X23 (socket/pubsub.ts, emitToRoomAcrossInstances with the room
    listener of initializePubSub): when the publisher connection is set
    and Redis serves the PUBLISH, an event sent to a non-empty room from
    any instance is emitted on every instance that runs the room
    listener: each socket that joined the room, on whatever instance,
    gets the event appended once to what it has received, every other
    socket is left as it was, and neither the Redis keys nor the store
    change. *)
Theorem room_event_reaches_every_instance
    (room event : string) (data : Payload) (i : nat) (c : Cluster) :
  room ≠ "" →
  i < length (instances c) →
  redisPublisher (cluster_redis c) = true →
  true ∉ faults (cluster_redis c) →
  Forall instance_ready (instances c) →
  ∃ c',
    handle_on i (emitToRoomAcrossInstances room event data) c = Some (Return tt, c')
    ∧ cluster_mongo c' = cluster_mongo c
    ∧ presenceKeys (cluster_redis c') = presenceKeys (cluster_redis c)
    ∧ cacheKeys (cluster_redis c') = cacheKeys (cluster_redis c)
    ∧ length (instances c') = length (instances c)
    ∧ ∀ j l, instances c !! j = Some l →
        ∃ l', instances c' !! j = Some l'
          ∧ sockets l'
            = (λ s, if decide (room ∈ rooms s) then push_event event data s else s)
                <$> sockets l.
Proof.
  intros Hroom Hi Hp Hf Hready.
  destruct (lookup_lt_is_Some_2 _ _ Hi) as [li Hli].
  unfold handle_on, on_instance. rewrite Hli. cbn [mbind option_bind].
  rewrite emitToRoomAcrossInstances_run by done.
  unfold pop, set_redis.
  cbn [redis mongo now local set_local cluster_redis set_channel_log
       set_faults channel_log mbind option_bind].
  rewrite drop_app_length. cbn [foldl].
  rewrite deliver_room; [ | | done].
  2:{ cbn [instances]. apply Forall_insert; [done | ].
      apply instance_ready_logged. by eapply Forall_lookup_1. }
  eexists. split; [reflexivity | ].
  cbn [cluster_mongo cluster_redis instances presenceKeys cacheKeys].
  split_and!; try done.
  - by rewrite length_fmap, length_insert.
  - intros j l Hj. rewrite list_lookup_fmap.
    destruct (decide (j = i)) as [-> | Hne].
    + rewrite list_lookup_insert_eq by done. cbn [fmap option_fmap option_map].
      eexists. split; [reflexivity | ].
      assert (l = li) as -> by congruence. by destruct li.
    + rewrite list_lookup_insert_ne by done. rewrite Hj.
      eexists. split; [reflexivity | ]. by destruct l.
Qed.

(** ** The connection handler *)

(** What the presence tracker leaves alone whatever Redis does: the
    store, the clock and the sockets of the instance. *)
Definition beside_presence (w0 w : World) : Prop :=
  mongo w = mongo w0 ∧ now w = now w0
  ∧ sockets (local w) = sockets (local w0) ∧ io (local w) = io (local w0).

Lemma setUserOnline_beside w0 user sock :
  preserves (beside_presence w0) (setUserOnline user sock).
Proof.
  unfold setUserOnline, presence_setEx, redis_sAdd, broadcastPresenceUpdate,
    emitToUserAcrossInstances, publishMessage, redis_publish, new_Date.
  preserves_auto; unfold beside_presence; frame_side.
Qed.

Lemma setUserOffline_beside w0 user :
  preserves (beside_presence w0) (setUserOffline user).
Proof.
  unfold setUserOffline, presence_setEx, redis_sRem, broadcastPresenceUpdate,
    emitToUserAcrossInstances, publishMessage, redis_publish, new_Date.
  preserves_auto; unfold beside_presence; frame_side.
Qed.

(** A presence update whose failure is only logged. *)
Lemma guarded_presence (m : M unit) message (R : World → Prop) w :
  preserves (beside_presence w) m →
  (serving w → ∃ w', m w = (Return tt, w') ∧ serving w' ∧ R w') →
  ∃ w', try_catch m (λ _, logger log_error message) w = (Return tt, w')
      ∧ beside_presence w w'
      ∧ (serving w → serving w' ∧ R w').
Proof.
  intros Hp Hs. rewrite try_catch_run.
  assert (beside_presence w (m w).2) as Hb by (apply Hp; by repeat split).
  destruct (m w) as [[[]|e] w1] eqn:E; cbn [snd] in Hb.
  - exists w1. split_and!; [done | done | ].
    intros H. destruct (Hs H) as (w' & E' & ? & ?). by simplify_eq.
  - eexists. split; [reflexivity | ]. split.
    + destruct Hb as (? & ? & ? & ?). by repeat split.
    + intros H. destruct (Hs H) as (w' & E' & ? & ?). by simplify_eq.
Qed.

(** The socket once it has joined the room. *)
Definition in_room (room : string) (s : Socket) : Socket :=
  mkSocket (socket_id s) (socket_userId s) (socket_email s) (rooms s ∪ {[room]}) (received s).

Lemma on_connection_effect socket user w :
  socket_userId socket = Some user → user ≠ "" →
  ∃ w', on_connection socket w = (Return tt, w')
      ∧ mongo w' = mongo w ∧ now w' = now w
      ∧ sockets (local w')
        = (λ s, if decide (socket_id s = socket_id socket)
                then in_room ("notifications:" +:+ user) (in_room ("user:" +:+ user) s)
                else s) <$> sockets (local w)
      ∧ (serving w →
         serving w'
         ∧ presenceKeys (redis w')
           = <[PRESENCE_KEY_PREFIX +:+ user :=
                 mkEntry (Json (mkUserPresence user online (now w) (Some (socket_id socket))))
                         (expiry (now w) PRESENCE_TTL)]> (presenceKeys (redis w))
         ∧ members ONLINE_USERS_SET (redis w')
           = members ONLINE_USERS_SET (redis w) ∪ {[user]}).
Proof.
  intros Hu Hne. apply String.eqb_neq in Hne.
  unfold on_connection, registerChatHandlers, registerNotificationHandlers.
  rewrite Hu. cbn [truthy default from_option]. unfold Datatypes.id. rewrite Hne. cbn [negb].
  rewrite bind_run. cbn [logger modify]. rewrite !bind_run. cbn [socket_join modify].
  rewrite bind_run. cbn [logger modify].
  set (w2 := set_local _ (set_local _ (set_local _ w))).
  destruct (guarded_presence (setUserOnline user (socket_id socket))
              "Failed to set user online"
              (λ w', presenceKeys (redis w')
                     = <[PRESENCE_KEY_PREFIX +:+ user :=
                           mkEntry (Json (mkUserPresence user online (now w)
                                            (Some (socket_id socket))))
                                   (expiry (now w) PRESENCE_TTL)]> (presenceKeys (redis w))
                     ∧ members ONLINE_USERS_SET (redis w')
                       = members ONLINE_USERS_SET (redis w) ∪ {[user]}) w2)
    as (w3 & E & (Hm & Ht & Hs & _) & Hserving).
  { apply setUserOnline_beside. }
  { intros H. destruct (setUserOnline_effect user (socket_id socket) w2 H)
      as (w' & E & ? & ? & ? & ? & _). by exists w'. }
  rewrite E. cbn [logger modify].
  eexists. split; [reflexivity | ].
  cbn [mongo now local set_local sockets set_sockets set_log redis].
  split_and!; [done | done | | exact Hserving].
  rewrite Hs. subst w2. cbn [local set_local sockets set_sockets set_log].
  rewrite <- list_fmap_compose. apply list_fmap_ext. intros _ s _. cbn.
  destruct (decide (socket_id s = socket_id socket)) as [Heq | Hneq]; cbn.
  - by rewrite decide_True.
  - by rewrite decide_False.
Qed.

Lemma on_disconnect_effect socket user w :
  socket_userId socket = Some user → user ≠ "" →
  ∃ w', on_disconnect socket w = (Return tt, w')
      ∧ mongo w' = mongo w ∧ now w' = now w
      ∧ sockets (local w') = sockets (local w)
      ∧ (serving w →
         serving w'
         ∧ presenceKeys (redis w')
           = <[PRESENCE_KEY_PREFIX +:+ user :=
                 mkEntry (Json (mkUserPresence user offline (now w) None))
                         (expiry (now w) PRESENCE_TTL)]> (presenceKeys (redis w))
         ∧ members ONLINE_USERS_SET (redis w')
           = members ONLINE_USERS_SET (redis w) ∖ {[user]}).
Proof.
  intros Hu Hne. apply String.eqb_neq in Hne.
  unfold on_disconnect.
  rewrite Hu. cbn [truthy default from_option]. unfold Datatypes.id. rewrite Hne. cbn [negb].
  rewrite bind_run. cbn [logger modify].
  set (w2 := set_local _ w).
  destruct (guarded_presence (setUserOffline user)
              "Failed to set user offline"
              (λ w', presenceKeys (redis w')
                     = <[PRESENCE_KEY_PREFIX +:+ user :=
                           mkEntry (Json (mkUserPresence user offline (now w) None))
                                   (expiry (now w) PRESENCE_TTL)]> (presenceKeys (redis w))
                     ∧ members ONLINE_USERS_SET (redis w')
                       = members ONLINE_USERS_SET (redis w) ∖ {[user]}) w2)
    as (w3 & E & (Hm & Ht & Hs & _) & Hserving).
  { apply setUserOffline_beside. }
  { intros H. destruct (setUserOffline_effect user w2 H)
      as (w' & E & ? & ? & ? & ? & _). by exists w'. }
  rewrite E. exists w3. split; [reflexivity | ]. by split_and!.
Qed.


Lemma offline_record_read user t0 w0 w :
  serving w → now w = t0 →
  presenceKeys (redis w)
  = <[PRESENCE_KEY_PREFIX +:+ user :=
        mkEntry (Json (mkUserPresence user offline t0 None))
                (expiry t0 PRESENCE_TTL)]> (presenceKeys (redis w0)) →
  (getUserPresence user w).1 = Return (Some (mkUserPresence user offline t0 None)).
Proof.
  intros Hs Ht Hk. rewrite getUserPresence_serving by done. unfold live_presence.
  rewrite Hk, Ht, lookup_live_insert, entry_live_before; [done | ].
  unfold PRESENCE_TTL. lia.
Qed.


(** X25 (socket/socket.ts, the connection and disconnect handlers): the
    presence of a user is kept per user, not per socket.  With Redis
    serving, when two sockets of the same user connect and the first one
    disconnects, the user is marked offline (not in the online set, an
    offline record with no socket) although the second socket is still
    connected and in the user's personal room. *)
Theorem disconnect_marks_user_offline (a b : Socket) (user : string) (w : World) :
  socket_userId a = Some user → socket_userId b = Some user → user ≠ "" →
  serving w →
  ∃ w', (on_connection a;; on_connection b;; on_disconnect a) w = (Return tt, w')
      ∧ (isUserOnline user w').1 = Return false
      ∧ (getUserPresence user w').1
        = Return (Some (mkUserPresence user offline (now w) None))
      ∧ ∀ s, s ∈ sockets (local w) → socket_id s = socket_id b →
             ∃ s', s' ∈ sockets (local w') ∧ socket_id s' = socket_id b
                   ∧ "user:" +:+ user ∈ rooms s'.
Proof.
  intros Ha Hb Hne H0.
  destruct (on_connection_effect a user w Ha Hne) as (w1 & E1 & _ & Ht1 & Hs1 & Hserving1).
  destruct (Hserving1 H0) as (H1 & _ & _).
  destruct (on_connection_effect b user w1 Hb Hne) as (w2 & E2 & _ & Ht2 & Hs2 & Hserving2).
  destruct (Hserving2 H1) as (H2 & _ & _).
  destruct (on_disconnect_effect a user w2 Ha Hne) as (w3 & E3 & _ & Ht3 & Hs3 & Hserving3).
  destruct (Hserving3 H2) as (H3 & Hk & Hset).
  exists w3. rewrite bind_run, E1, bind_run, E2, E3. split_and!; [done | | | ].
  - rewrite isUserOnline_serving by done. rewrite Hset.
    apply f_equal, bool_decide_eq_false, not_elem_of_removed.
  - eapply offline_record_read; [done | | ].
    + by rewrite Ht3, Ht2, Ht1.
    + rewrite Hk. by rewrite Ht2, Ht1.
  - intros s Hin Hid. rewrite Hs3, Hs2, Hs1.
    eexists. split; [by apply list_elem_of_fmap_2, list_elem_of_fmap_2 | ].
    destruct (decide (socket_id s = socket_id a)); cbn;
      (rewrite decide_True by done); cbn; (split; [done | ]).
    all: apply elem_of_union; left; apply elem_of_union; right; by apply elem_of_singleton.
Qed.

(** ** The chat listeners *)

Lemma sendMessage_beside_sockets (l : list Socket) (b : bool) user chatId content :
  preserves (λ w, sockets (local w) = l ∧ io (local w) = b) (sendMessage user chatId content).
Proof.
  unfold sendMessage, message_validate, chat_pre_save, new_Date.
  preserves_auto; try apply formatMessageResponse_preserves; try frame_side.
  intros w Hw. unfold fresh_id. cbn. by destruct w.
Qed.

(** X26 (socket/chatHandlers.ts, the send_message listener): for an
    authenticated socket and a payload with a chat identifier and a
    content whose trimmed text has a length other than 0, on an instance
    whose Socket.IO server is set.  When the chat service returns the
    message, the listener acknowledges with it and emits [new_message] to
    every socket of the instance that joined the room [chat:<chatId>], and
    to no other socket: delivery goes by room membership, not by the
    participants of the chat.  When the chat service throws, the
    acknowledgement carries the error's message and no socket receives
    anything.  In both cases nothing is sent to Redis. *)
Theorem send_message_goes_to_room
    (socket : Socket) (payload : SendMessagePayload) (callback : bool)
    (user chatId content : string) (w : World) :
  socket_userId socket = Some user → user ≠ "" →
  payload_chatId payload = Some chatId → chatId ≠ "" →
  payload_content payload = Some content → js_length (trim content) ≠ 0 →
  io (local w) = true →
  (∀ r w1, sendMessage user chatId content w = (Return r, w1) →
     ∃ w2, on_send_message socket payload callback w
           = (Return (acknowledge callback (AckMessage r)), w2)
         ∧ mongo w2 = mongo w1 ∧ redis w2 = redis w
         ∧ sockets (local w2)
           = (λ s, if decide ("chat:" +:+ chatId ∈ rooms s)
                   then push_event "new_message" (MessageData r) s else s)
               <$> sockets (local w))
  ∧ (∀ e w1, sendMessage user chatId content w = (Throw e, w1) →
     ∃ w2, on_send_message socket payload callback w
           = (Return (acknowledge callback (AckError (error_message e))), w2)
         ∧ mongo w2 = mongo w1 ∧ redis w2 = redis w
         ∧ sockets (local w2) = sockets (local w)).
Proof.
  intros Hu Hne Hc Hcne Hp Hpne Hio.
  assert (content ≠ "") as Hcontent by (intros ->; by apply Hpne).
  assert ((js_length (trim content) =? 0) = false) as Hlen by by apply Nat.eqb_neq.
  apply String.eqb_neq in Hne, Hcne, Hcontent.
  pose proof (sendMessage_beside_sockets (sockets (local w)) true user chatId content w
                (conj eq_refl Hio)) as Hl.
  pose proof (sendMessage_beside_redis (redis w) user chatId content w eq_refl) as Hr.
  unfold on_send_message. rewrite try_catch_run.
  rewrite Hu, Hc, Hp. cbn [truthy default from_option]. unfold Datatypes.id.
  rewrite Hne, Hcne, Hcontent, Hlen. cbn [negb orb]. rewrite bind_run.
  split.
  - intros r w1 E. rewrite E in Hl, Hr |- *. cbn [snd] in Hl, Hr.
    destruct Hl as [Hs Hio1].
    rewrite bind_run. cbn [logger modify]. rewrite bind_run. unfold getIO at 1.
    cbn [local set_local set_log io]. rewrite Hio1.
    rewrite bind_run. cbn [io_to_emit modify]. rewrite bind_run. cbn [logger modify].
    eexists. split; [reflexivity | ].
    cbn [mongo redis local set_local sockets set_sockets set_log].
    by rewrite Hs.
  - intros e w1 E. rewrite E in Hl, Hr |- *. cbn [snd] in Hl, Hr.
    destruct Hl as [Hs Hio1].
    rewrite bind_run. cbn [logger modify].
    eexists. split; [reflexivity | ].
    cbn [mongo redis local set_local sockets set_sockets set_log]. done.
Qed.

(** X27 (socket/chatHandlers.ts, the join_chat and leave_chat
    listeners): joining asks for an authenticated socket and a chat
    identifier and for nothing else.  Whatever the store holds (the chat
    may not exist, the user may not be one of its participants), the
    listener acknowledges with the chat identifier and the socket is in
    the room [chat:<chatId>]; a leave_chat that follows acknowledges the
    same way and takes the socket out of that room and of no other.
    Neither listener touches Redis or the store, and no socket receives
    anything. *)
Theorem join_chat_asks_no_membership
    (socket : Socket) (user chatId : string) (callback : bool) (w : World) :
  socket_userId socket = Some user → user ≠ "" → chatId ≠ "" →
  ∃ w1 w2,
    on_join_chat socket (Some chatId) callback w
    = (Return (acknowledge callback (AckChat chatId)), w1)
    ∧ redis w1 = redis w ∧ mongo w1 = mongo w
    ∧ (∀ s, s ∈ sockets (local w1) → socket_id s = socket_id socket →
            "chat:" +:+ chatId ∈ rooms s)
    ∧ on_leave_chat socket (Some chatId) callback w1
      = (Return (acknowledge callback (AckChat chatId)), w2)
    ∧ redis w2 = redis w ∧ mongo w2 = mongo w
    ∧ (∀ s, s ∈ sockets (local w2) → socket_id s = socket_id socket →
            "chat:" +:+ chatId ∉ rooms s)
    ∧ (∀ s, s ∈ sockets (local w2) →
         ∃ s0, s0 ∈ sockets (local w)
               ∧ socket_id s = socket_id s0 ∧ received s = received s0
               ∧ ∀ room, room ≠ "chat:" +:+ chatId → room ∈ rooms s ↔ room ∈ rooms s0).
Proof.
  intros Hu Hne Hc. apply String.eqb_neq in Hne, Hc.
  unfold on_join_chat, on_leave_chat. rewrite !try_catch_run.
  rewrite Hu. cbn [truthy default from_option]. unfold Datatypes.id.
  rewrite Hne, Hc. cbn [negb].
  rewrite bind_run. cbn [socket_join modify]. rewrite bind_run. cbn [logger modify].
  cbn [mret M_ret].
  eexists _, _. split; [reflexivity | ].
  rewrite try_catch_run, bind_run. cbn [socket_leave modify]. rewrite bind_run.
  cbn [logger modify mret M_ret].
  cbn [redis mongo local set_local sockets set_sockets set_log].
  split_and!; try done.
  - intros s Hin Hid. apply list_elem_of_fmap_1 in Hin as (s0 & -> & _).
    destruct (decide (socket_id s0 = socket_id socket)); [ | done].
    apply elem_of_added.
  - intros s Hin Hid.
    apply list_elem_of_fmap_1 in Hin as (s1 & -> & Hin).
    apply list_elem_of_fmap_1 in Hin as (s0 & -> & _).
    destruct (decide (socket_id s0 = socket_id socket)) as [Heq | Hneq]; cbn in *.
    + rewrite decide_True by done. cbn. apply not_elem_of_removed.
    + rewrite decide_False in Hid |- * by done. done.
  - intros s Hin.
    apply list_elem_of_fmap_1 in Hin as (s1 & -> & Hin).
    apply list_elem_of_fmap_1 in Hin as (s0 & -> & Hin).
    exists s0. split; [done | ].
    destruct (decide (socket_id s0 = socket_id socket)) as [Heq | Hneq]; cbn.
    + rewrite decide_True by done. cbn. split_and!; try done.
      intros room Hroom. rewrite elem_of_difference, elem_of_union, !elem_of_singleton.
      split; [by intros [[? | ?] ?] | by intros ?; split; [left | ]].
    + rewrite decide_False by done. done.
Qed.

(** ** What the listeners of an instance do with a published message *)

(** The instance once its listener has emitted the message: [f] is what
    the emit does to a socket. *)
Definition delivered (f : Socket → Socket) (l : Local) : Local :=
  set_sockets (fmap f)
    (set_log (λ lg, lg ++ [(log_debug, "Received message from Redis channel")]) l).

(** The Socket.IO server of the instance is up and one listener, the
    handler, is registered on the channel. *)
Definition listening (channel : string) (handler : ChannelHandler) (l : Local) : Prop :=
  io l = true ∧ filter (λ e, e.1 = channel) (listeners l) = [(channel, handler)].

(** The handler emits the message with [f]. *)
Definition emits (handler : ChannelHandler) (message : PubSubMessage)
    (f : Socket → Socket) : Prop :=
  ∀ w, io (local w) = true →
       relay handler message w = (Return tt, set_local (set_sockets (fmap f)) w).

Lemma receive_listening channel handler message f r m l t :
  listening channel handler l → emits handler message f →
  receive channel message (mkWorld r m l t) = (Return tt, mkWorld r m (delivered f l) t).
Proof.
  intros [Hio Hl] Hf.
  unfold receive, gets, mbind, M_bind. cbn [local]. rewrite Hl.
  unfold for_of, on_message, try_catch, JSON_parse, logger, modify, mbind, M_bind,
    mret, M_ret. cbn [snd].
  rewrite Hf by (by destruct l). by destruct l.
Qed.

Lemma deliver_from_listening channel handler message f r m t (done_ rest : list Local) :
  Forall (listening channel handler) rest → emits handler message f →
  foldl (λ c' i,
           match on_instance i (receive channel message) c' with
           | Some (_, c'') => c''
           | None => c'
           end)
        (mkCluster r m t (done_ ++ rest)) (seq (length done_) (length rest))
  = mkCluster r m t (done_ ++ (delivered f <$> rest)).
Proof.
  intros Hready Hf. revert done_.
  induction Hready as [|l rest Hl Hrest IH]; intros done_; [done | ].
  cbn [length seq foldl]. unfold on_instance at 2.
  cbn [instances cluster_redis cluster_mongo cluster_now].
  rewrite lookup_app_r, Nat.sub_diag by done. cbn [lookup list_lookup mbind option_bind].
  rewrite (receive_listening _ _ _ f) by done. cbn [redis mongo now local].
  replace (<[length done_ := delivered f l]> (done_ ++ l :: rest))
    with ((done_ ++ [delivered f l]) ++ rest).
  2:{ rewrite insert_app_r_alt, Nat.sub_diag by done. cbn. by rewrite <- app_assoc. }
  specialize (IH (done_ ++ [delivered f l])).
  rewrite length_app in IH. cbn [length] in IH. rewrite Nat.add_1_r in IH.
  rewrite IH. cbn [fmap list_fmap]. by rewrite <- app_assoc.
Qed.

Lemma deliver_listening channel handler message f c :
  Forall (listening channel handler) (instances c) → emits handler message f →
  deliver c (channel, message)
  = mkCluster (cluster_redis c) (cluster_mongo c) (cluster_now c)
      (delivered f <$> instances c).
Proof.
  intros Hready Hf. unfold deliver. cbn [fst snd].
  destruct c as [r m t ls]. cbn [instances cluster_redis cluster_mongo cluster_now] in *.
  exact (deliver_from_listening channel handler message f r m t [] ls Hready Hf).
Qed.

(** A call on instance [i] that returns and publishes one message. *)
Lemma handle_on_published {A} (code : M A) (a : A) i c li w' channel handler message f :
  instances c !! i = Some li →
  code (mkWorld (cluster_redis c) (cluster_mongo c) li (cluster_now c)) = (Return a, w') →
  channel_log (redis w') = channel_log (cluster_redis c) ++ [(channel, message)] →
  io (local w') = io li → listeners (local w') = listeners li →
  Forall (listening channel handler) (instances c) → emits handler message f →
  handle_on i code c
  = Some (Return a,
          mkCluster (redis w') (mongo w') (now w')
            (delivered f <$> <[i := local w']> (instances c))).
Proof.
  intros Hli E Hlog Hio Hls Hready Hf.
  unfold handle_on, on_instance. rewrite Hli. cbn [mbind option_bind]. rewrite E.
  cbn [cluster_redis mbind option_bind]. rewrite Hlog, drop_app_length. cbn [foldl].
  rewrite (deliver_listening _ handler _ f); [done | | done].
  cbn [instances]. apply Forall_insert; [done | ].
  pose proof (Forall_lookup_1 _ _ _ _ Hready Hli) as [? ?].
  split; [by rewrite Hio | by rewrite Hls].
Qed.

Lemma emits_user user event data :
  user ≠ "" →
  emits UserRelay (mkPubSubMessage event data None (Some user))
        (λ s, if decide ("user:" +:+ user ∈ rooms s) then push_event event data s else s).
Proof.
  intros Hne w Hio. apply String.eqb_neq in Hne.
  unfold relay. cbn [msg_userId msg_event msg_data truthy]. rewrite Hne.
  cbn [negb default from_option]. unfold Datatypes.id.
  rewrite bind_run. unfold getIO. by rewrite Hio.
Qed.

Lemma emits_broadcast event data :
  emits BroadcastRelay (mkPubSubMessage event data None None) (push_event event data).
Proof.
  intros w Hio. unfold relay. cbn [msg_event msg_data].
  rewrite bind_run. unfold getIO. by rewrite Hio.
Qed.

Lemma wp_getRedisPublisher (Q : Outcome unit → World → Prop) w :
  redisPublisher (redis w) = true → Q (Return tt) w → wp getRedisPublisher Q w.
Proof. intros Hp HQ. unfold wp, getRedisPublisher. by rewrite Hp. Qed.

(** [setUserOnline] with Redis serving and the publisher connection set:
    the presence update goes out on the user channel. *)
Lemma setUserOnline_published user sock w :
  serving w → redisPublisher (redis w) = true →
  ∃ w', setUserOnline user sock w = (Return tt, w')
      ∧ channel_log (redis w')
        = channel_log (redis w)
          ++ [("socket:user",
               mkPubSubMessage "presence:update" (PresenceData user online (now w))
                               None (Some user))]
      ∧ mongo w' = mongo w ∧ now w' = now w
      ∧ sockets (local w') = sockets (local w)
      ∧ io (local w') = io (local w)
      ∧ listeners (local w') = listeners (local w).
Proof.
  intros Hs Hp. apply wp_result.
  unfold setUserOnline, broadcastPresenceUpdate, emitToUserAcrossInstances, publishMessage,
    new_Date.
  wp_serve.
  apply wp_getRedisPublisher.
  { cbn. autorewrite with pop. done. }
  wp_serve.
  clear. destruct w as [[] ? [] ?]. unfold pop. cbn. done.
Qed.

Lemma setUserOffline_published user w :
  serving w → redisPublisher (redis w) = true →
  ∃ w', setUserOffline user w = (Return tt, w')
      ∧ channel_log (redis w')
        = channel_log (redis w)
          ++ [("socket:user",
               mkPubSubMessage "presence:update" (PresenceData user offline (now w))
                               None (Some user))]
      ∧ mongo w' = mongo w ∧ now w' = now w
      ∧ sockets (local w') = sockets (local w)
      ∧ io (local w') = io (local w)
      ∧ listeners (local w') = listeners (local w).
Proof.
  intros Hs Hp. apply wp_result.
  unfold setUserOffline, broadcastPresenceUpdate, emitToUserAcrossInstances, publishMessage,
    new_Date.
  wp_serve.
  apply wp_getRedisPublisher.
  { cbn. autorewrite with pop. done. }
  wp_serve.
  clear. destruct w as [[] ? [] ?]. unfold pop. cbn. done.
Qed.

(** The sockets of the instances once the call on instance [i] has
    returned and its message has been delivered. *)
Lemma published_sockets {A} (code : M A) (a : A) i c w' channel handler message f :
  i < length (instances c) →
  (∀ li, instances c !! i = Some li →
     code (mkWorld (cluster_redis c) (cluster_mongo c) li (cluster_now c)) = (Return a, w' li)
     ∧ channel_log (redis (w' li)) = channel_log (cluster_redis c) ++ [(channel, message)]
     ∧ mongo (w' li) = cluster_mongo c
     ∧ sockets (local (w' li)) = sockets li
     ∧ io (local (w' li)) = io li ∧ listeners (local (w' li)) = listeners li) →
  Forall (listening channel handler) (instances c) → emits handler message f →
  ∃ c', handle_on i code c = Some (Return a, c')
      ∧ cluster_mongo c' = cluster_mongo c
      ∧ ∀ j l, instances c !! j = Some l →
          ∃ l', instances c' !! j = Some l' ∧ sockets l' = f <$> sockets l.
Proof.
  intros Hi Hrun Hready Hf.
  destruct (lookup_lt_is_Some_2 _ _ Hi) as [li Hli].
  destruct (Hrun li Hli) as (E & Hlog & Hm & Hs & Hio & Hls).
  eexists. split; [by eapply handle_on_published | ].
  cbn [cluster_mongo instances]. split; [done | ].
  intros j l Hj. rewrite list_lookup_fmap.
  destruct (decide (j = i)) as [-> | Hne].
  - rewrite list_lookup_insert_eq by done. cbn [fmap option_fmap option_map].
    eexists. split; [reflexivity | ].
    assert (l = li) as -> by congruence.
    unfold delivered. cbn [sockets set_sockets set_log]. by rewrite Hs.
  - rewrite list_lookup_insert_ne by done. rewrite Hj.
    eexists. split; [reflexivity | ]. by destruct l.
Qed.

(** X28 (modules/presence/presence.service.ts, setUserOnline and
    setUserOffline with the private broadcastPresenceUpdate;
    socket/pubsub.ts, emitToUserAcrossInstances and the user listener of
    initializePubSub): with Redis serving, the [presence:update] event of
    a user that goes online or offline on one instance is emitted, on
    every instance, to the sockets in that user's own personal room
    [user:<id>] and to no other socket; the event carries the user, the
    new status and the time of the call. *)
Theorem presence_update_reaches_own_room (user sock : string) (i : nat) (c : Cluster) :
  user ≠ "" →
  i < length (instances c) →
  redisClient (cluster_redis c) = true →
  redisPublisher (cluster_redis c) = true →
  true ∉ faults (cluster_redis c) →
  Forall (listening "socket:user" UserRelay) (instances c) →
  (∃ c', handle_on i (setUserOnline user sock) c = Some (Return tt, c')
       ∧ cluster_mongo c' = cluster_mongo c
       ∧ ∀ j l, instances c !! j = Some l →
           ∃ l', instances c' !! j = Some l'
               ∧ sockets l'
                 = (λ s, if decide ("user:" +:+ user ∈ rooms s)
                         then push_event "presence:update"
                                (PresenceData user online (cluster_now c)) s
                         else s) <$> sockets l)
  ∧ (∃ c', handle_on i (setUserOffline user) c = Some (Return tt, c')
         ∧ cluster_mongo c' = cluster_mongo c
         ∧ ∀ j l, instances c !! j = Some l →
             ∃ l', instances c' !! j = Some l'
                 ∧ sockets l'
                   = (λ s, if decide ("user:" +:+ user ∈ rooms s)
                           then push_event "presence:update"
                                  (PresenceData user offline (cluster_now c)) s
                           else s) <$> sockets l).
Proof.
  intros Hne Hi Hc Hp Hf Hready. split.
  - pose (w' := λ li, (setUserOnline user sock
                         (mkWorld (cluster_redis c) (cluster_mongo c) li (cluster_now c))).2).
    apply (published_sockets _ tt i c w' "socket:user" UserRelay
             (mkPubSubMessage "presence:update" (PresenceData user online (cluster_now c))
                              None (Some user)));
      [done | | done | by apply emits_user].
    intros li _.
    destruct (setUserOnline_published user sock
                (mkWorld (cluster_redis c) (cluster_mongo c) li (cluster_now c)))
      as (w1 & E & Hrest); [by split | done | ].
    subst w'. cbn beta. rewrite E. cbn [snd]. split; [done | ].
    destruct Hrest as (? & ? & ? & ? & ? & ?). by split_and!.
  - pose (w' := λ li, (setUserOffline user
                         (mkWorld (cluster_redis c) (cluster_mongo c) li (cluster_now c))).2).
    apply (published_sockets _ tt i c w' "socket:user" UserRelay
             (mkPubSubMessage "presence:update" (PresenceData user offline (cluster_now c))
                              None (Some user)));
      [done | | done | by apply emits_user].
    intros li _.
    destruct (setUserOffline_published user
                (mkWorld (cluster_redis c) (cluster_mongo c) li (cluster_now c)))
      as (w1 & E & Hrest); [by split | done | ].
    subst w'. cbn beta. rewrite E. cbn [snd]. split; [done | ].
    destruct Hrest as (? & ? & ? & ? & ? & ?). by split_and!.
Qed.

Lemma broadcastEvent_run event data w :
  redisPublisher (redis w) = true → true ∉ faults (redis w) →
  broadcastEvent event data w
  = (Return tt,
     set_local (set_log (λ l, l ++ [(log_debug, "Published message to Redis channel")]))
       (set_redis
          (set_channel_log
             (λ l, l ++ [("socket:broadcast", mkPubSubMessage event data None None)]))
          (pop w))).
Proof.
  intros Hp Hf. unfold broadcastEvent, publishMessage, redis_publish.
  rewrite !try_catch_run, bind_run. unfold getRedisPublisher at 1. rewrite Hp.
  rewrite bind_run, command_serving by done. reflexivity.
Qed.

Lemma broadcastEvent_unpublished event data w :
  redisPublisher (redis w) = false →
  broadcastEvent event data w
  = (Return tt,
     set_local (set_log (λ l, (l ++ [(log_error, "Failed to publish message to Redis")])
                              ++ [(log_error, "Failed to broadcast event")])) w).
Proof.
  intros Hp. unfold broadcastEvent, publishMessage.
  rewrite !try_catch_run, bind_run. unfold getRedisPublisher at 1. rewrite Hp.
  rewrite bind_run. cbn [logger modify throw]. by destruct w as [? ? [] ?].
Qed.

(** X29 (socket/pubsub.ts, broadcastEvent with the broadcast listener of
    initializePubSub): when the publisher connection is set and Redis
    serves the PUBLISH, an event broadcast from one instance is received
    once by every socket of every instance.  When the publisher
    connection is not set the call still returns normally: the failure is
    logged, at error level, on the instance of the call, Redis is as it
    was and no socket receives anything. *)
Theorem broadcast_reaches_every_socket (event : string) (data : Payload) (i : nat)
    (c : Cluster) :
  i < length (instances c) →
  Forall (listening "socket:broadcast" BroadcastRelay) (instances c) →
  (redisPublisher (cluster_redis c) = true → true ∉ faults (cluster_redis c) →
   ∃ c', handle_on i (broadcastEvent event data) c = Some (Return tt, c')
       ∧ cluster_mongo c' = cluster_mongo c
       ∧ ∀ j l, instances c !! j = Some l →
           ∃ l', instances c' !! j = Some l'
               ∧ sockets l' = push_event event data <$> sockets l)
  ∧ (redisPublisher (cluster_redis c) = false →
     ∃ c', handle_on i (broadcastEvent event data) c = Some (Return tt, c')
         ∧ cluster_mongo c' = cluster_mongo c
         ∧ cluster_redis c' = cluster_redis c
         ∧ (∀ j l, instances c !! j = Some l →
              ∃ l', instances c' !! j = Some l' ∧ sockets l' = sockets l)
         ∧ ∀ l, instances c !! i = Some l →
             ∃ l', instances c' !! i = Some l'
                 ∧ log l' = log l ++ [(log_error, "Failed to publish message to Redis");
                                      (log_error, "Failed to broadcast event")]).
Proof.
  intros Hi Hready. split.
  - intros Hp Hf.
    pose (w' := λ li, (broadcastEvent event data
                         (mkWorld (cluster_redis c) (cluster_mongo c) li (cluster_now c))).2).
    apply (published_sockets _ tt i c w' "socket:broadcast" BroadcastRelay
             (mkPubSubMessage event data None None));
      [done | | done | apply emits_broadcast].
    intros li _. subst w'. cbn beta. rewrite broadcastEvent_run by done.
    cbn [snd]. split; [done | ]. unfold pop. cbn. by destruct li.
  - intros Hp.
    destruct (lookup_lt_is_Some_2 _ _ Hi) as [li Hli].
    unfold handle_on, on_instance. rewrite Hli. cbn [mbind option_bind].
    rewrite broadcastEvent_unpublished by done.
    cbn [redis mongo now local set_local mbind option_bind cluster_redis].
    rewrite drop_all. cbn [foldl].
    eexists. split; [reflexivity | ]. cbn [cluster_mongo cluster_redis instances].
    split_and!; try done.
    + intros j l Hj. destruct (decide (j = i)) as [-> | Hne].
      * rewrite list_lookup_insert_eq by done. eexists. split; [reflexivity | ].
        assert (l = li) as -> by congruence. by destruct li.
      * rewrite list_lookup_insert_ne by done. by exists l.
    + intros l Hl. assert (l = li) as -> by congruence.
      rewrite list_lookup_insert_eq by done. eexists. split; [reflexivity | ].
      destruct li. cbn. by rewrite <- app_assoc.
Qed.

End DevConnect.

(** * Scenarios

    A concrete driver to run the services on: identifiers are the strings
    of 24 hexadecimal digits, in lower case, new ones are counted up, and
    the text index matches a post whose title is the query. *)

Definition is_hex_digit (c : ascii) : bool :=
  let n := nat_of_ascii c in
  (48 <=? n) && (n <=? 57) || (65 <=? n) && (n <=? 70) || (97 <=? n) && (n <=? 102).

(** The cast reads the digits whatever their case: an ObjectId is the
    twelve bytes they stand for, written here in lower case. *)
Definition lower_hex (c : ascii) : ascii :=
  let n := nat_of_ascii c in
  if (65 <=? n) && (n <=? 70) then ascii_of_nat (n + 32) else c.

Fixpoint lower_case (s : string) : string :=
  match s with
  | EmptyString => EmptyString
  | String c s' => String (lower_hex c) (lower_case s')
  end.

Definition hex_id (s : string) : option string :=
  if (String.length s =? 24) && forallb is_hex_digit (String.list_ascii_of_string s)
  then Some (lower_case s) else None.

Fixpoint zeros (n : nat) : string :=
  match n with
  | 0 => EmptyString
  | S n' => String "0" (zeros n')
  end.

Definition counted_id (n : nat) : string :=
  zeros (24 - String.length (pretty n)) +:+ pretty n.

Definition title_matches (query : string) (p : Post (ObjectId := string)) : bool :=
  String.eqb query (post_title p).

Definition no_score (query : string) (p : Post (ObjectId := string)) : nat := 0.

Definition alice : string := "aaaaaaaaaaaaaaaaaaaaaaaa".
Definition bob : string := "bbbbbbbbbbbbbbbbbbbbbbbb".
Definition carol : string := "cccccccccccccccccccccccc".

Definition users0 : list (User (ObjectId := string)) :=
  [ mkUser alice "alice" "alice@example.com" (Some "Alice") None;
    mkUser bob "bob" "bob@example.com" (Some "Bob") None;
    mkUser carol "carol" "carol@example.com" None None ].

(** Redis connected and empty, with a given fault schedule. *)
Definition redis0 (schedule : list bool) : Redis (ObjectId := string) :=
  mkRedis true true ∅ ∅ ∅ [] schedule.

Definition mongo0 : Mongo (ObjectId := string) :=
  mkMongo users0 [] [] [] [] [] 0.

(** An instance after start-up, with its sockets. *)
Definition local0 (connected : list (Socket (ObjectId := string))) : Local (ObjectId := string) :=
  mkLocal true connected true ∅
          [("socket:broadcast", BroadcastRelay); ("socket:room", RoomRelay);
           ("socket:user", UserRelay)] [].

Definition world0 (schedule : list bool) : World (ObjectId := string) :=
  mkWorld (redis0 schedule) mongo0 (local0 []) 1000.

(** [id.toString()] of the concrete driver. *)
Definition id_text (id : string) : string := id.

Definition post1_id : string := "111111111111111111111111".
Definition chat1_id : string := "c1c1c1c1c1c1c1c1c1c1c1c1".

(** A post of alice and a direct chat of alice and bob. *)
Definition post1 : Post (ObjectId := string) :=
  mkPost post1_id alice "First post" "Hello, this is the first post" ["intro"]
         [] [] 0 0 published 500 500.

Definition chat1 : Chat (ObjectId := string) :=
  mkChat chat1_id direct None [alice; bob] None 100 100.

Definition mongo1 : Mongo (ObjectId := string) :=
  mkMongo users0 [post1] [] [] [chat1] [] 0.

Definition world1 (schedule : list bool) : World (ObjectId := string) :=
  mkWorld (redis0 schedule) mongo1 (local0 []) 1000.

(** ** C1: a message sent on one instance, a reader on another *)

Definition alice_socket : Socket (ObjectId := string) :=
  mkSocket "s1" (Some alice) (Some "alice@example.com")
           {[ "s1"; "user:" +:+ alice; "chat:" +:+ chat1_id ]} [].

Definition bob_socket : Socket (ObjectId := string) :=
  mkSocket "s2" (Some bob) (Some "bob@example.com")
           {[ "s2"; "user:" +:+ bob; "chat:" +:+ chat1_id ]} [].

(** Instance 0 holds the socket of alice and instance 1 the socket of
    bob; both sockets joined the room of the chat. *)
Definition cluster0 : Cluster (ObjectId := string) :=
  mkCluster (redis0 []) mongo1 1000 [local0 [alice_socket]; local0 [bob_socket]].

Definition hi : SendMessagePayload := mkSendMessagePayload (Some chat1_id) (Some "hi").

(** C1, on the code.  Alice, a participant of the chat, sends [hi] from
    instance 0 and the message is stored and acknowledged.  The listener
    emits [new_message] to the room on instance 0 only and publishes
    nothing: bob, whose socket is on instance 1 and in the room, receives
    nothing. *)
Lemma new_message_stays_on_instance :
  ∃ m c,
    handle_on 0 (on_send_message hex_id id_text counted_id alice_socket hi true) cluster0
      = Some (Return (Some (AckMessage m)), c)
    ∧ mr_content m = "hi"
    ∧ length (message_docs (cluster_mongo c)) = 1
    ∧ received_by 0 "s1" c = [("new_message", MessageData m)]
    ∧ received_by 1 "s2" c = []
    ∧ channel_log (cluster_redis c) = [].
Proof.
  eexists _, _. split; [vm_compute; reflexivity | ].
  split_and!; vm_compute; reflexivity.
Qed.

(** The typing indicator, sent by the same socket, does reach bob: its
    listener publishes on the room channel. *)
Lemma typing_reaches_other_instance :
  ∃ c,
    handle_on 0 (on_typing alice_socket (Some chat1_id)) cluster0 = Some (Return tt, c)
    ∧ received_by 1 "s2" c
      = [("user_typing", TypingData chat1_id alice (Some "alice@example.com"))].
Proof.
  eexists. split; [vm_compute; reflexivity | vm_compute; reflexivity].
Qed.

(** ** C2 and C8: presence with Redis rejecting a command *)

(** The first command sent to Redis is rejected. *)
Definition rejecting : World (ObjectId := string) := world0 [true].

(** C2, the claim as written fails: with the [setEx] of the record
    rejected, [setUserOnline] throws the storage error at its caller, and
    with the [get] of the record rejected so does [setUserOffline]. *)
Lemma presence_error_reaches_caller :
  (setUserOnline alice "s1" rejecting).1 = Throw RedisError
  ∧ (setUserOffline alice rejecting).1 = Throw RedisError
  ∧ error_count (setUserOnline alice "s1" rejecting).2 = 1.
Proof. split_and!; vm_compute; reflexivity. Qed.

Lemma presence_error_policy_witness :
  storage_error rejecting
  ∧ (getUserPresence alice rejecting).1 = Return None
  ∧ (setUserOnline alice "s1" rejecting).1 = Throw RedisError
  ∧ (setUserOnline alice "s1" (world0 [])).1 = Return tt.
Proof.
  destruct (presence_error_policy (ObjectId := string))
    as (_ & _ & _ & Hget & Hon & _).
  assert (storage_error rejecting) as Hs by (right; reflexivity).
  split_and!; [exact Hs | exact (Hget alice rejecting Hs) | | ].
  - rewrite Hon. reflexivity.
  - rewrite Hon. reflexivity.
Defined.

(** Alice online on socket [s1]. *)
Definition alice_online : World (ObjectId := string) :=
  (setUserOnline alice "s1" (world0 [])).2.

Lemma getUserPresence_result_witness :
  presence_records_well_formed alice_online
  ∧ ∃ r, (getUserPresence alice alice_online).1 = Return r
       ∧ r = Some (mkUserPresence alice online 1000 (Some "s1")).
Proof.
  assert (presence_records_well_formed alice_online) as Hw.
  { apply (proj1 (presence_well_formed_kept alice "s1")).
    intros key e H. cbn in H. by rewrite lookup_empty in H. }
  split; [exact Hw | ].
  destruct (getUserPresence_result alice alice_online Hw) as (r & Hr & Hnone & Hrec & _).
  exists r. split; [exact Hr | ].
  apply Hrec; [ | vm_compute; reflexivity].
  intros [H | H]; vm_compute in H; discriminate.
Defined.

(** ** C3 and C10: notifications *)

(** Alice likes her own post. *)
Definition self_like : CreateNotificationDTO :=
  mkCreateNotificationDTO alice like alice "alice liked your post"
                          (Some (post, post1_id)).

Lemma createNotification_self_suppressed_witness :
  recipientId self_like = actorId self_like
  ∧ (createNotification hex_id counted_id self_like (world1 [])).1 = Return None
  ∧ notification_docs (mongo (createNotification hex_id counted_id self_like (world1 [])).2) = [].
Proof.
  destruct (createNotification_self_suppressed hex_id counted_id self_like (world1 []) eq_refl)
    as (Hm & _ & _ & Hr).
  split_and!; [reflexivity | rewrite Hr; reflexivity | rewrite Hm; reflexivity].
Defined.

(** Notification number [n], for alice from bob, created at time [n]. *)
Definition notification_at (n : nat) : Notification (ObjectId := string) :=
  mkNotification (counted_id n) alice like bob None "bob liked your post" false n.

(** Sixty notifications of alice, the oldest first. *)
Definition busy : World (ObjectId := string) :=
  mkWorld (redis0 [])
          (mkMongo users0 [post1] [] (notification_at <$> seq 1 60) [] [] 60)
          (local0 []) 1000.

Definition any_notification : NotificationFilters := mkNotificationFilters None None.

Lemma getUserNotifications_most_recent_50_witness :
  hex_id alice = Some alice
  ∧ ∃ found,
      getUserNotifications hex_id alice any_notification busy
        = (Return (populate_actor (mongo busy) <$> found), busy)
      ∧ found = notification_at <$> reverse (seq 11 50)
      ∧ length found = 50.
Proof.
  split; [reflexivity | ].
  destruct (getUserNotifications_most_recent_50 hex_id alice any_notification busy alice eq_refl)
    as (found & Hrun & Hfound & _).
  exists found. split; [exact Hrun | ].
  assert (found = notification_at <$> reverse (seq 11 50)) as ->;
    [rewrite Hfound; vm_compute; reflexivity | ].
  split; reflexivity.
Defined.

(** ** C9 and C7: reading a post *)

(** The world after a first [getPost]: the post, at one view, is cached. *)
Definition viewed_once : World (ObjectId := string) :=
  (getPost hex_id post1_id (world1 [])).2.

Lemma getPost_counts_every_view_witness :
  hex_id post1_id = Some post1_id
  ∧ find_by_id post_id post1_id (post_docs (mongo viewed_once))
    = Some (inc_viewCount 1000 post1)
  ∧ (viewCount <$> find_by_id post_id post1_id
                     (post_docs (mongo (getPost hex_id post1_id viewed_once).2))) = Some 2
  ∧ (getPost hex_id post1_id viewed_once).1
    = Return (DocPost (populate_author mongo1 (inc_viewCount 1000 post1))).
Proof.
  assert (find_by_id post_id post1_id (post_docs (mongo viewed_once))
          = Some (inc_viewCount 1000 post1)) as Hfind by (vm_compute; reflexivity).
  destruct (getPost_counts_every_view hex_id post1_id post1_id (inc_viewCount 1000 post1)
              viewed_once eq_refl Hfind) as (Hstore & _ & Hhit & _).
  split_and!; [reflexivity | exact Hfind | rewrite Hstore; reflexivity | ].
  apply Hhit; [ | vm_compute; reflexivity].
  intros [H | H]; vm_compute in H; discriminate.
Defined.

Definition everything : PostFilters := mkPostFilters None None None.
Definition first_page : Pagination := mkPagination 1 10.

(** Redis rejects every command of the request. *)
Definition redis_down : World (ObjectId := string) :=
  world1 [true; true; true; true].

Lemma cache_degrades_gracefully_witness :
  storage_error redis_down
  ∧ (CacheService_get "post:list" redis_down).1 = Return None
  ∧ (listPosts hex_id everything first_page redis_down).1
    = Return (DocPosts (list_result None everything first_page mongo1))
  ∧ (getPost hex_id post1_id redis_down).1
    = Return (DocPost (populate_author mongo1 (inc_viewCount 1000 post1))).
Proof.
  destruct (cache_degrades_gracefully (ObjectId := string) hex_id)
    as (_ & _ & _ & Hget & _ & Hlist & Hpost).
  assert (storage_error redis_down) as Hs by (right; reflexivity).
  split_and!; [exact Hs | exact (Hget _ _ Hs) | | ].
  - exact (Hlist everything first_page None redis_down Hs eq_refl).
  - exact (Hpost post1_id post1_id post1 redis_down Hs eq_refl eq_refl).
Defined.

(** ** C5: likes *)

Lemma likePost_idempotent_witness :
  hex_id post1_id = Some post1_id ∧ hex_id bob = Some bob ∧ NoDup (likes post1)
  ∧ ∃ w1 p1,
      times 3 (likePost hex_id id_text counted_id post1_id bob) (world1 [])
        = (Return tt, w1)
      ∧ find_by_id post_id post1_id (post_docs (mongo w1)) = Some p1
      ∧ memberships bob p1 = 1
      ∧ ∃ w2 p2,
          unlikePost hex_id post1_id bob w1 = (Return tt, w2)
          ∧ find_by_id post_id post1_id (post_docs (mongo w2)) = Some p2
          ∧ memberships bob p2 = 0.
Proof.
  assert (NoDup (likes post1)) as Hnd by constructor.
  assert (find_by_id post_id post1_id (post_docs (mongo (world1 []))) = Some post1)
    as Hpost by (vm_compute; reflexivity).
  split_and!; [reflexivity | reflexivity | exact Hnd | ].
  destruct (likePost_idempotent hex_id id_text counted_id post1_id bob post1_id bob post1
              (world1 []) 3 eq_refl eq_refl Hpost Hnd)
    as (w1 & p1 & Hrun & Hfind & Hone & Hunlike).
  exists w1, p1. split_and!; [exact Hrun | exact Hfind | apply Hone; lia | exact Hunlike].
Defined.

(** ** C6: direct chats *)

(** Alice opens the chat with bob on a store that holds no chat. *)
Definition first_call : Outcome ChatResponse * World (ObjectId := string) :=
  getOrCreateDirectChat hex_id id_text counted_id alice bob (world0 []).

Lemma direct_chat_unique_witness :
  hex_id alice = Some alice ∧ hex_id bob = Some bob ∧ alice ≠ bob
  ∧ is_return first_call.1 = true
  ∧ (∃ w2, getOrCreateDirectChat hex_id id_text counted_id bob alice first_call.2
             = (first_call.1, w2)
         ∧ chat_docs (mongo w2) = chat_docs (mongo first_call.2))
  ∧ length (direct_chats_of alice bob first_call.2) = 1.
Proof.
  assert (alice ≠ bob) as Hne by discriminate.
  assert (∃ r1, first_call = (Return r1, first_call.2)) as [r1 Hr]
    by (eexists; vm_compute; reflexivity).
  assert (counted_id (nextId (mongo (world0 []))) ∉ chat_id <$> chat_docs (mongo (world0 [])))
    as Hfresh by apply not_elem_of_nil.
  destruct (direct_chat_unique hex_id id_text counted_id alice bob alice bob r1
              (world0 []) first_call.2 eq_refl eq_refl Hne Hfresh Hr)
    as (_ & Hswap & Hlen & _).
  split_and!; [reflexivity | reflexivity | exact Hne | reflexivity | | ].
  - destruct Hswap as (w2 & Hrun & Hdocs). exists w2.
    split; [ | exact Hdocs]. rewrite Hrun. f_equal.
    exact (eq_sym (f_equal fst Hr)).
  - rewrite Hlen. reflexivity.
Defined.

(** The identifier of alice written in upper case: the cast gives the
    same ObjectId. *)
Definition alice_upper_case : string := "AAAAAAAAAAAAAAAAAAAAAAAA".

(** C6, on the code.  The call compares its two arguments as strings
    before any cast.  With the identifier of alice in lower case and in
    upper case, one user under two spellings, the call is not rejected:
    it returns a direct chat whose two participants are both alice, and
    that chat is stored. *)
Lemma direct_chat_with_oneself :
  alice ≠ alice_upper_case
  ∧ hex_id alice_upper_case = hex_id alice
  ∧ ∃ r w,
      getOrCreateDirectChat hex_id id_text counted_id alice alice_upper_case (world0 [])
      = (Return r, w)
      ∧ cr_type r = direct
      ∧ (ui_id <$> cr_participants r) = [alice; alice]
      ∧ (participants <$> chat_docs (mongo w)) = [[alice; alice]].
Proof.
  split_and!; [discriminate | vm_compute; reflexivity | ].
  eexists _, _. split; [vm_compute; reflexivity | ].
  split_and!; vm_compute; reflexivity.
Qed.

(** ** C4: a write between two reads of a list *)

Definition list_everything : PostRead := ListPosts everything first_page.
Definition bob_likes : PostWrite := LikePost post1_id bob.

(** The list is read and cached, Redis serving every command. *)
Definition warm : World (ObjectId := string) :=
  (read hex_id title_matches no_score list_everything (world1 [])).2.

Lemma write_invalidates_cached_reads_witness :
  serving warm
  ∧ lookup_live 1000 "post:list:page:1:limit:10" (cacheKeys (redis warm))
    = Some (Json (DocPosts (list_result None everything first_page mongo1)))
  ∧ (perform hex_id id_text counted_id bob_likes warm).1 = Return tt
  ∧ (read hex_id title_matches no_score list_everything
       (perform hex_id id_text counted_id bob_likes warm).2).1
    = answer_of_store hex_id title_matches no_score list_everything
        (mongo (perform hex_id id_text counted_id bob_likes warm).2)
  ∧ cacheKeys (redis (perform hex_id id_text counted_id bob_likes warm).2) = ∅.
Proof.
  assert (serving warm) as Hs by (split; [reflexivity | apply not_elem_of_nil]).
  assert ((perform hex_id id_text counted_id bob_likes warm).1 = Return tt)
    as Hr by (vm_compute; reflexivity).
  assert (mongo (perform hex_id id_text counted_id bob_likes warm).2 ≠ mongo warm) as Hm.
  { intros H. apply (f_equal post_docs) in H. vm_compute in H. discriminate. }
  destruct (write_invalidates_cached_reads hex_id id_text counted_id title_matches no_score
              bob_likes list_everything warm Hs Hr Hm) as (_ & Hread & _).
  split_and!; [exact Hs | vm_compute; reflexivity | exact Hr | exact Hread
              | vm_compute; reflexivity].
Defined.

(** Redis serves the two commands of the first read and rejects the
    three that the invalidation of the write sends. *)
Definition flaky : World (ObjectId := string) :=
  world1 [false; false; true; true; true].

Definition first_read : Outcome CacheDoc * World (ObjectId := string) :=
  read hex_id title_matches no_score list_everything flaky.

Definition the_like : Outcome () * World (ObjectId := string) :=
  perform hex_id id_text counted_id bob_likes first_read.2.

Definition second_read : Outcome CacheDoc * World (ObjectId := string) :=
  read hex_id title_matches no_score list_everything the_like.2.

(** C4, the claim as written fails: the like is stored and returns, its
    invalidation is rejected by Redis and only logged, and the read that
    follows is served the list cached before the like, which is not the
    list the store now holds. *)
Lemma stale_read_after_rejected_invalidation :
  the_like.1 = Return tt
  ∧ (likes <$> post_docs (mongo first_read.2)) = [[]]
  ∧ (likes <$> post_docs (mongo the_like.2)) = [[bob]]
  ∧ faults (redis the_like.2) = []
  ∧ second_read.1 = first_read.1
  ∧ second_read.1
    ≠ answer_of_store hex_id title_matches no_score list_everything (mongo the_like.2).
Proof.
  split_and!; try (vm_compute; reflexivity).
  intros H. vm_compute in H. discriminate.
Qed.

(** * More scenarios

    The operations of the presence tracker, the cache, the notification,
    post and chat services and the socket listeners, run on the concrete
    driver. *)

Ltac serve := split; [reflexivity | apply not_elem_of_nil].

(** A no-break space (U+00A0), and [hi] between white space that starts
    and ends with one. *)
Definition no_break_space : string :=
  String (ascii_of_nat 194) (String (ascii_of_nat 160) EmptyString).

Definition padded_hi : string := no_break_space +:+ " hi " +:+ no_break_space.

(** ** Presence *)

Lemma presence_online_round_trip_witness :
  serving (world0 []) ∧ 2000 < now (world0 []) + PRESENCE_TTL * 1000
  ∧ ∃ w1, setUserOnline alice "s1" (world0 []) = (Return tt, w1)
        ∧ (getUserPresence alice (at_time 2000 w1)).1
          = Return (Some (mkUserPresence alice online 1000 (Some "s1")))
        ∧ (isUserOnline alice (at_time 2000 w1)).1 = Return true.
Proof.
  assert (serving (world0 [])) as Hs by serve.
  assert (2000 < now (world0 []) + PRESENCE_TTL * 1000) as Ht
    by (unfold PRESENCE_TTL, world0; cbn [now]; lia).
  split_and!; [exact Hs | exact Ht | ].
  destruct (presence_online_round_trip alice "s1" (world0 []) 2000 Hs Ht)
    as (w1 & E & Hget & Hon & _).
  exists w1. split_and!; [exact E | exact Hget | exact Hon].
Defined.

Lemma presence_offline_round_trip_witness :
  serving (world0 []) ∧ 2000 < now (world0 []) + PRESENCE_TTL * 1000
  ∧ ∃ w1, setUserOffline alice (world0 []) = (Return tt, w1)
        ∧ (getUserPresence alice (at_time 2000 w1)).1
          = Return (Some (mkUserPresence alice offline 1000 None))
        ∧ (isUserOnline alice (at_time 2000 w1)).1 = Return false.
Proof.
  assert (serving (world0 [])) as Hs by serve.
  assert (2000 < now (world0 []) + PRESENCE_TTL * 1000) as Ht
    by (unfold PRESENCE_TTL, world0; cbn [now]; lia).
  split_and!; [exact Hs | exact Ht | ].
  destruct (presence_offline_round_trip alice (world0 []) 2000 Hs Ht)
    as (w1 & E & Hget & Hon & _).
  exists w1. split_and!; [exact E | exact Hget | exact Hon].
Defined.


Lemma presence_expires_online_set_stays_witness :
  serving (world0 [])
  ∧ now (world0 []) + PRESENCE_TTL * 1000 ≤ 1000 + PRESENCE_TTL * 1000
  ∧ ∃ w1, setUserOnline alice "s1" (world0 []) = (Return tt, w1)
        ∧ (isUserOnline alice (at_time (1000 + PRESENCE_TTL * 1000) w1)).1 = Return true
        ∧ (isUserOnline alice
             (cleanupStalePresence (at_time (1000 + PRESENCE_TTL * 1000) w1)).2).1
          = Return false.
Proof.
  assert (serving (world0 [])) as Hs by serve.
  assert (now (world0 []) + PRESENCE_TTL * 1000 ≤ 1000 + PRESENCE_TTL * 1000) as Ht
    by exact (le_n _).
  split_and!; [exact Hs | exact Ht | ].
  destruct (presence_expires_online_set_stays alice "s1" (world0 [])
              (1000 + PRESENCE_TTL * 1000) Hs Ht) as (w1 & E & _ & Hon & Hclean).
  exists w1. split_and!; [exact E | exact Hon | exact Hclean].
Defined.


(** ** The cache *)

Definition cached_post : CacheDoc (ObjectId := string) :=
  DocPost (populate_author mongo1 post1).

Lemma cache_set_then_get_witness :
  serving (world0 [])
  ∧ ∃ w1, CacheService_set "post:1" cached_post (Some 60) (world0 []) = (Return tt, w1)
        ∧ (CacheService_get "post:1" (at_time 2000 w1)).1 = Return (Some cached_post).
Proof.
  assert (serving (world0 [])) as Hs by serve.
  split; [exact Hs | ].
  destruct (cache_set_then_get "post:1" cached_post (Some 60) (world0 []) 2000 Hs)
    as (w1 & E & Hget).
  exists w1. split; [exact E | ]. rewrite Hget. reflexivity.
Defined.


Definition drafts : PostFilters := mkPostFilters None None (Some draft).
Definition first_fifty : Pagination := mkPagination 1 50.

Lemma search_cache_ignores_limit_and_status_witness :
  serving (world1 [])
  ∧ ∃ r w1,
      searchPosts hex_id title_matches no_score "First post" everything first_page by_date
        (world1 []) = (Return r, w1)
      ∧ (searchPosts hex_id title_matches no_score "First post" drafts first_fifty by_date
           w1).1 = Return r.
Proof.
  assert (serving (world1 [])) as Hs by serve.
  split; [exact Hs | ].
  assert (lookup_live (now (world1 []))
            (CacheKeys_search "First post" everything (Some by_date)
               (Pos.to_nat (pagination_page first_page)))
            (cacheKeys (redis (world1 []))) = None) as Hmiss by (vm_compute; reflexivity).
  destruct (search_cache_ignores_limit_and_status hex_id title_matches no_score
              "First post" everything drafts first_page first_fifty by_date None (world1 [])
              Hs eq_refl Hmiss eq_refl eq_refl eq_refl) as (w1 & E & Hagain).
  eexists _, w1. split; [exact E | exact Hagain].
Defined.

(** ** Notifications *)

Lemma markAsRead_only_by_recipient_witness :
  hex_id (counted_id 1) = Some (counted_id 1)
  ∧ find_by_id notification_id (counted_id 1) (notification_docs (mongo busy))
    = Some (notification_at 1)
  ∧ NotificationService_markAsRead hex_id id_text (counted_id 1) bob busy
    = (Throw (ValidationError "Unauthorized access to notification"), busy)
  ∧ ∃ w', NotificationService_markAsRead hex_id id_text (counted_id 1) alice busy
          = (Return (populate_actor (mongo busy) (read_notification (notification_at 1))), w').
Proof.
  assert (hex_id (counted_id 1) = Some (counted_id 1)) as Hid by (vm_compute; reflexivity).
  assert (find_by_id notification_id (counted_id 1) (notification_docs (mongo busy))
          = Some (notification_at 1)) as Hfind by (vm_compute; reflexivity).
  split_and!; [exact Hid | exact Hfind | | ].
  - destruct (markAsRead_only_by_recipient hex_id id_text (counted_id 1) bob (counted_id 1)
                (notification_at 1) busy Hid Hfind) as [Hother _].
    apply Hother. discriminate.
  - destruct (markAsRead_only_by_recipient hex_id id_text (counted_id 1) alice (counted_id 1)
                (notification_at 1) busy Hid Hfind) as [_ Hown].
    destruct (Hown eq_refl) as (w' & E & _). exists w'. exact E.
Defined.

Lemma markAllAsRead_clears_unread_witness :
  hex_id alice = Some alice
  ∧ ∃ count w',
      markAllAsRead hex_id alice busy = (Return count, w')
      ∧ getUnreadCount hex_id alice busy = (Return count, busy)
      ∧ getUnreadCount hex_id alice w' = (Return 0, w').
Proof.
  split; [reflexivity | ].
  destruct (markAllAsRead_clears_unread hex_id alice alice busy eq_refl)
    as (count & w' & E & Hbefore & Hafter & _).
  exists count, w'. split_and!; [exact E | exact Hbefore | exact Hafter].
Defined.

(** Bob likes the post of alice. *)
Definition bob_like : CreateNotificationDTO :=
  mkCreateNotificationDTO alice like bob "bob liked your post" (Some (post, post1_id)).

Definition no_message : CreateNotificationDTO :=
  mkCreateNotificationDTO alice like bob "" (Some (post, post1_id)).

Lemma createNotification_stores_and_pushes_witness :
  hex_id (recipientId bob_like) = Some alice
  ∧ hex_id (actorId bob_like) = Some bob
  ∧ recipientId bob_like ≠ actorId bob_like
  ∧ (∃ v w', createNotification hex_id counted_id bob_like (world1 []) = (Return (Some v), w')
           ∧ length (notification_docs (mongo w')) = 1
           ∧ redis w' = redis (world1 []))
  ∧ (∃ e w', createNotification hex_id counted_id no_message (world1 []) = (Throw e, w')
           ∧ mongo w' = mongo (world1 [])).
Proof.
  assert (recipientId bob_like ≠ actorId bob_like) as Hne by discriminate.
  assert (∀ (ty : ResourceType) (id : string),
            dto_resource bob_like = Some (ty, id) → isValid hex_id id = true)
    as Hres.
  { intros ty id H. injection H as _ <-. vm_compute. reflexivity. }
  assert (dto_message bob_like ≠ "") as Hmsg by discriminate.
  split_and!; [reflexivity | reflexivity | exact Hne | | ].
  - destruct (createNotification_stores_and_pushes hex_id counted_id bob_like alice bob
                (world1 []) eq_refl eq_refl Hne) as [Hstored _].
    destruct (Hstored Hres Hmsg) as (w' & E & Hdocs & Hredis & _).
    eexists _, w'. split_and!; [exact E | rewrite Hdocs; reflexivity | exact Hredis].
  - destruct (createNotification_stores_and_pushes hex_id counted_id no_message alice bob
                (world1 []) eq_refl eq_refl Hne) as [_ Hrejected].
    destruct (Hrejected (or_introl eq_refl)) as (e & w' & E & Hm & _).
    exists e, w'. split; [exact E | exact Hm].
Defined.

(** ** Posts *)

Lemma bookmarkPost_idempotent_witness :
  hex_id post1_id = Some post1_id ∧ hex_id bob = Some bob
  ∧ ∃ w1 p1,
      times 3 (bookmarkPost hex_id post1_id bob) (world1 []) = (Return tt, w1)
      ∧ find_by_id post_id post1_id (post_docs (mongo w1)) = Some p1
      ∧ bookmarks p1 = [bob]
      ∧ hasUserBookmarkedPost hex_id post1_id bob w1 = (Return true, w1).
Proof.
  assert (find_by_id post_id post1_id (post_docs (mongo (world1 []))) = Some post1)
    as Hpost by (vm_compute; reflexivity).
  assert (1 ≤ 3) as HN by lia.
  split_and!; [reflexivity | reflexivity | ].
  destruct (bookmarkPost_idempotent hex_id post1_id bob post1_id bob post1 (world1 []) 3
              eq_refl eq_refl Hpost HN) as (w1 & p1 & E & Hfind & Hb & _ & Hhas & _).
  exists w1, p1. split_and!; [exact E | exact Hfind | rewrite Hb; reflexivity | exact Hhas].
Defined.

Lemma likePost_notifies_first_like_witness :
  hex_id post1_id = Some post1_id ∧ hex_id bob = Some bob
  ∧ hex_id (id_text (post_author post1)) = Some (post_author post1)
  ∧ ∃ w', likePost hex_id id_text counted_id post1_id bob (world1 []) = (Return tt, w')
        ∧ hasUserLikedPost hex_id post1_id bob w' = (Return true, w')
        ∧ length (notification_docs (mongo w')) = 1.
Proof.
  assert (find_by_id post_id post1_id (post_docs (mongo (world1 []))) = Some post1)
    as Hpost by (vm_compute; reflexivity).
  split_and!; [reflexivity | reflexivity | reflexivity | ].
  destruct (likePost_notifies_first_like hex_id id_text counted_id post1_id bob post1_id bob
              post1 (world1 []) eq_refl eq_refl Hpost eq_refl) as [_ Hfirst].
  destruct (Hfirst (not_elem_of_nil bob)) as (w' & E & Hhas & Hn).
  exists w'. split_and!; [exact E | exact Hhas | rewrite Hn; reflexivity].
Defined.

Lemma listPosts_page_witness :
  author_filter hex_id everything = Return None
  ∧ ∃ r, (listPosts hex_id everything first_page (world1 [])).1 = Return (DocPosts r)
       ∧ length (posts r) ≤ 10
       ∧ total r = 1.
Proof.
  assert (lookup_live (now (world1 []))
            (CacheKeys_postList everything (Pos.to_nat (pagination_page first_page))
               (Pos.to_nat (pagination_limit first_page)))
            (cacheKeys (redis (world1 []))) = None) as Hmiss by (vm_compute; reflexivity).
  split; [reflexivity | ].
  destruct (listPosts_page hex_id everything first_page None (world1 []) eq_refl Hmiss)
    as (r & E & Hlen & _ & _ & Htotal & _).
  exists r. split_and!; [exact E | exact Hlen | rewrite Htotal; reflexivity].
Defined.

Definition nice_post : CreateCommentDTO :=
  mkCreateCommentDTO (no_break_space +:+ "Nice post ") None.
Definition lost_reply : CreateCommentDTO := mkCreateCommentDTO "Reply" (Some "not-an-id").

Lemma addComment_counts_comment_witness :
  truthy (comment_dto_parent nice_post) = false
  ∧ 1 ≤ js_length (trim (comment_dto_content nice_post)) ≤ 10 * 1000
  ∧ trim (comment_dto_content nice_post) = "Nice post"
  ∧ ∃ v w', addComment hex_id id_text counted_id post1_id bob nice_post (world1 [])
            = (Return v, w')
          ∧ length (comment_docs (mongo w')) = 1
          ∧ (commentCount <$> find_by_id post_id post1_id (post_docs (mongo w'))) = Some 1.
Proof.
  assert (find_by_id post_id post1_id (post_docs (mongo (world1 []))) = Some post1)
    as Hpost by (vm_compute; reflexivity).
  assert (1 ≤ js_length (trim (comment_dto_content nice_post)) ≤ 10 * 1000) as Hlen.
  { assert (js_length (trim (comment_dto_content nice_post)) = 9) as ->
      by (vm_compute; reflexivity). lia. }
  split_and!; [reflexivity | apply Hlen | apply Hlen | vm_compute; reflexivity | ].
  destruct (addComment_counts_comment hex_id id_text counted_id post1_id bob nice_post
              post1_id bob post1 (world1 []) eq_refl eq_refl Hpost eq_refl Hlen)
    as (w' & E & Hdocs & Hfind & Hcount).
  eexists _, w'. split_and!; [exact E | rewrite Hdocs; reflexivity | ].
  rewrite Hfind. cbn [fmap option_fmap option_map]. rewrite Hcount. reflexivity.
Defined.

Lemma addComment_checks_parent_witness :
  comment_dto_parent lost_reply = Some "not-an-id"
  ∧ hex_id "not-an-id" = None
  ∧ addComment hex_id id_text counted_id post1_id bob lost_reply (world1 [])
    = (Throw (NotFoundError "Parent comment"), world1 []).
Proof.
  assert (find_by_id post_id post1_id (post_docs (mongo (world1 []))) = Some post1)
    as Hpost by (vm_compute; reflexivity).
  assert ("not-an-id" ≠ "") as Hne by discriminate.
  split_and!; [reflexivity | reflexivity | ].
  destruct (addComment_checks_parent hex_id id_text counted_id post1_id bob "not-an-id"
              lost_reply post1_id post1 (world1 []) eq_refl Hpost eq_refl Hne) as [Hcast _].
  apply Hcast. reflexivity.
Defined.

(** ** Chats *)

(** The store once alice has sent [hi] in the chat. *)
Definition after_hi : World (ObjectId := string) :=
  (sendMessage hex_id id_text counted_id alice chat1_id "hi" (world1 [])).2.

Definition chat1_after_hi : Chat (ObjectId := string) :=
  mkChat chat1_id direct None [alice; bob] (Some (counted_id 0)) 100 1000.

Lemma sendMessage_delivers_witness :
  hex_id chat1_id = Some chat1_id ∧ hex_id alice = Some alice
  ∧ alice ∈ participants chat1
  ∧ trim padded_hi = "hi"
  ∧ ∃ r w', sendMessage hex_id id_text counted_id alice chat1_id padded_hi (world1 [])
            = (Return r, w')
          ∧ mr_content r = "hi"
          ∧ length (message_docs (mongo w')) = 1.
Proof.
  assert (find_by_id chat_id chat1_id (chat_docs (mongo (world1 []))) = Some chat1)
    as Hchat by (vm_compute; reflexivity).
  assert (alice ∈ participants chat1) as Hin by constructor.
  assert (trim (trim padded_hi) ≠ "") as Hne
    by (intros H; vm_compute in H; discriminate H).
  assert (js_length (trim (trim padded_hi)) ≤ 5 * 1000) as Hlen.
  { assert (js_length (trim (trim padded_hi)) = 2) as -> by (vm_compute; reflexivity). lia. }
  assert (find_by_id user_id alice (user_docs (mongo (world1 [])))
          = Some (mkUser alice "alice" "alice@example.com" (Some "Alice") None))
    as Husr by (vm_compute; reflexivity).
  assert (counted_id (nextId (mongo (world1 []))) ∉ message_id <$> message_docs (mongo (world1 [])))
    as Hfresh by apply not_elem_of_nil.
  split_and!; [reflexivity | reflexivity | exact Hin | vm_compute; reflexivity | ].
  destruct (sendMessage_delivers hex_id id_text counted_id alice chat1_id padded_hi chat1_id
              alice chat1 _ (world1 []) eq_refl eq_refl Hchat Hin Hne Hlen (λ _, eq_refl)
              Husr Hfresh)
    as (r & w' & E & _ & _ & Hcontent & _ & _ & _ & Hdocs & _).
  exists r, w'. split_and!; [exact E | rewrite Hcontent; vm_compute; reflexivity
                            | rewrite Hdocs; reflexivity].
Defined.

Lemma markAsRead_marks_chat_witness :
  hex_id chat1_id = Some chat1_id ∧ hex_id bob = Some bob
  ∧ bob ∈ participants chat1_after_hi
  ∧ ∃ w', markAsRead hex_id bob chat1_id after_hi = (Return tt, w')
        ∧ length (message_docs (mongo w')) = length (message_docs (mongo after_hi))
        ∧ ∀ m', m' ∈ message_docs (mongo w') → message_chat m' = chat1_id → bob ∈ readBy m'.
Proof.
  assert (find_by_id chat_id chat1_id (chat_docs (mongo after_hi)) = Some chat1_after_hi)
    as Hchat by (vm_compute; reflexivity).
  assert (bob ∈ participants chat1_after_hi) as Hin by (right; left).
  split_and!; [reflexivity | reflexivity | exact Hin | ].
  destruct (markAsRead_marks_chat hex_id bob chat1_id chat1_id bob chat1_after_hi after_hi
              eq_refl eq_refl Hchat) as [_ Hread].
  destruct (Hread Hin) as (w' & E & Hlen & Hall & _).
  exists w'. split_and!; [exact E | exact Hlen | exact Hall].
Defined.



(** ** Sockets *)

Definition typing_room : string := "chat:" +:+ chat1_id.

Lemma room_event_reaches_every_instance_witness :
  typing_room ≠ "" ∧ 0 < length (instances cluster0)
  ∧ Forall instance_ready (instances cluster0)
  ∧ ∃ c', handle_on 0 (emitToRoomAcrossInstances typing_room "user_typing"
                         (TypingData chat1_id alice None)) cluster0
          = Some (Return tt, c')
        ∧ length (instances c') = 2
        ∧ ∃ l', instances c' !! 1 = Some l'
              ∧ sockets l'
                = [push_event "user_typing" (TypingData chat1_id alice None) bob_socket].
Proof.
  assert (typing_room ≠ "") as Hroom by discriminate.
  assert (0 < length (instances cluster0)) as Hi by (cbn; lia).
  assert (Forall instance_ready (instances cluster0)) as Hready.
  { repeat constructor. }
  split_and!; [exact Hroom | exact Hi | exact Hready | ].
  destruct (room_event_reaches_every_instance typing_room "user_typing"
              (TypingData chat1_id alice None) 0 cluster0 Hroom Hi eq_refl
              (not_elem_of_nil true) Hready) as (c' & E & _ & _ & _ & Hlen & Hall).
  exists c'. split_and!; [exact E | exact Hlen | ].
  destruct (Hall 1 (local0 [bob_socket]) eq_refl) as (l' & Hl' & Hs).
  exists l'. split; [exact Hl' | ]. rewrite Hs. vm_compute. reflexivity.
Defined.

(** A second socket of alice and a socket of carol, who is in no chat. *)
Definition alice_phone : Socket (ObjectId := string) :=
  mkSocket "s3" (Some alice) (Some "alice@example.com") {[ "s3" ]} [].

Definition carol_socket : Socket (ObjectId := string) :=
  mkSocket "s4" (Some carol) (Some "carol@example.com") {[ "s4" ]} [].

Definition world2 : World (ObjectId := string) :=
  mkWorld (redis0 []) mongo1 (local0 [alice_socket; alice_phone; carol_socket]) 1000.


Lemma disconnect_marks_user_offline_witness :
  socket_userId alice_socket = Some alice ∧ socket_userId alice_phone = Some alice
  ∧ serving world2
  ∧ ∃ w', (on_connection alice_socket;; on_connection alice_phone;;
           on_disconnect alice_socket) world2 = (Return tt, w')
        ∧ (isUserOnline alice w').1 = Return false.
Proof.
  assert (alice ≠ "") as Hne by discriminate.
  assert (serving world2) as Hs by serve.
  split_and!; [reflexivity | reflexivity | exact Hs | ].
  destruct (disconnect_marks_user_offline alice_socket alice_phone alice world2
              eq_refl eq_refl Hne Hs) as (w' & E & Hoff & _).
  exists w'. split; [exact E | exact Hoff].
Defined.

Lemma send_message_goes_to_room_witness :
  socket_userId alice_socket = Some alice
  ∧ payload_chatId hi = Some chat1_id ∧ payload_content hi = Some "hi"
  ∧ io (local world2) = true
  ∧ (∃ r w2, on_send_message hex_id id_text counted_id alice_socket hi true world2
             = (Return (Some (AckMessage r)), w2)
           ∧ redis w2 = redis world2)
  ∧ js_length (trim no_break_space) = 0
  ∧ (on_send_message hex_id id_text counted_id alice_socket
       (mkSendMessagePayload (Some chat1_id) (Some no_break_space)) true world2).1
    = Return (Some (AckError "Invalid message data")).
Proof.
  assert (alice ≠ "") as Hne by discriminate.
  assert (chat1_id ≠ "") as Hcne by discriminate.
  assert (js_length (trim "hi") ≠ 0) as Hpne by (intros H; vm_compute in H; discriminate H).
  assert (∃ r w1, sendMessage hex_id id_text counted_id alice chat1_id "hi" world2
                  = (Return r, w1)) as (r & w1 & Hsend)
    by (eexists _, _; vm_compute; reflexivity).
  split_and!; [reflexivity | reflexivity | reflexivity | reflexivity |
               | vm_compute; reflexivity | vm_compute; reflexivity].
  destruct (send_message_goes_to_room hex_id id_text counted_id alice_socket hi true alice
              chat1_id "hi" world2 eq_refl Hne eq_refl Hcne eq_refl Hpne eq_refl)
    as [Hsent _].
  destruct (Hsent r w1 Hsend) as (w2 & E & _ & Hredis & _).
  exists r, w2. split; [exact E | exact Hredis].
Defined.

Lemma join_chat_asks_no_membership_witness :
  socket_userId carol_socket = Some carol ∧ (carol ∉ participants chat1)
  ∧ ∃ w1 w2,
      on_join_chat carol_socket (Some chat1_id) true world2 = (Return (Some (AckChat chat1_id)), w1)
      ∧ on_leave_chat carol_socket (Some chat1_id) true w1
        = (Return (Some (AckChat chat1_id)), w2)
      ∧ mongo w2 = mongo world2.
Proof.
  assert (carol ≠ "") as Hne by discriminate.
  assert (chat1_id ≠ "") as Hcne by discriminate.
  assert (carol ∉ participants chat1) as Hout.
  { intros H. apply elem_of_cons in H as [H | H]; [discriminate H | ].
    apply elem_of_cons in H as [H | H]; [discriminate H | ].
    by apply not_elem_of_nil in H. }
  split_and!; [reflexivity | exact Hout | ].
  destruct (join_chat_asks_no_membership carol_socket carol chat1_id true world2
              eq_refl Hne Hcne) as (w1 & w2 & Ejoin & _ & _ & _ & Eleave & _ & Hm & _).
  exists w1, w2. split_and!; [exact Ejoin | exact Eleave | exact Hm].
Defined.

(** ** Rejections *)

Lemma getPost_of_missing_post_witness :
  hex_id "nope" = None
  ∧ getPost hex_id "nope" (world1 []) = (Throw (NotFoundError "Post"), world1 []).
Proof.
  split; [reflexivity | ].
  destruct (getPost_of_missing_post hex_id "nope" (world1 [])) as [Hcast _].
  apply Hcast. reflexivity.
Defined.

Lemma sendMessage_stores_only_for_participants_witness :
  sent_by_participant hex_id alice chat1_id "hi" (world1 []) after_hi
  ∧ length (message_docs (mongo after_hi)) = 1
  ∧ (sendMessage hex_id id_text counted_id alice chat1_id no_break_space (world1 [])).1
    = Throw (SchemaError "Path `content` is required.")
  ∧ message_docs
      (mongo (sendMessage hex_id id_text counted_id alice chat1_id no_break_space
                (world1 [])).2) = [].
Proof.
  split_and!; [ | vm_compute; reflexivity | vm_compute; reflexivity | vm_compute; reflexivity].
  exact (sendMessage_stores_only_for_participants hex_id id_text counted_id alice chat1_id "hi"
           (world1 [])).
Defined.



(** ** Events across the instances *)

Lemma presence_update_reaches_own_room_witness :
  alice ≠ "" ∧ 0 < length (instances cluster0)
  ∧ Forall (listening "socket:user" UserRelay) (instances cluster0)
  ∧ ∃ c', handle_on 0 (setUserOnline alice "s1") cluster0 = Some (Return tt, c')
        ∧ received_by 0 "s1" c' = [("presence:update", PresenceData alice online 1000)]
        ∧ received_by 1 "s2" c' = [].
Proof.
  assert (alice ≠ "") as Hne by discriminate.
  assert (0 < length (instances cluster0)) as Hi by (cbn; lia).
  assert (Forall (listening "socket:user" UserRelay) (instances cluster0)) as Hready.
  { repeat constructor. }
  split_and!; [exact Hne | exact Hi | exact Hready | ].
  destruct (presence_update_reaches_own_room alice "s1" 0 cluster0 Hne Hi eq_refl eq_refl
              (not_elem_of_nil true) Hready) as [(c' & E & _ & Hall) _].
  exists c'. split; [exact E | ].
  destruct (Hall 0 (local0 [alice_socket]) eq_refl) as (l0 & Hl0 & Hs0).
  destruct (Hall 1 (local0 [bob_socket]) eq_refl) as (l1 & Hl1 & Hs1).
  unfold received_by. rewrite Hl0, Hl1, Hs0, Hs1. split; vm_compute; reflexivity.
Defined.

Lemma broadcast_reaches_every_socket_witness :
  0 < length (instances cluster0)
  ∧ Forall (listening "socket:broadcast" BroadcastRelay) (instances cluster0)
  ∧ ∃ c', handle_on 0 (broadcastEvent "presence:update" (PresenceData alice online 1000))
            cluster0 = Some (Return tt, c')
        ∧ received_by 0 "s1" c' = [("presence:update", PresenceData alice online 1000)]
        ∧ received_by 1 "s2" c' = [("presence:update", PresenceData alice online 1000)].
Proof.
  assert (0 < length (instances cluster0)) as Hi by (cbn; lia).
  assert (Forall (listening "socket:broadcast" BroadcastRelay) (instances cluster0))
    as Hready.
  { repeat constructor. }
  split_and!; [exact Hi | exact Hready | ].
  destruct (broadcast_reaches_every_socket "presence:update" (PresenceData alice online 1000)
              0 cluster0 Hi Hready) as [Hsent _].
  destruct (Hsent eq_refl (not_elem_of_nil true)) as (c' & E & _ & Hall).
  exists c'. split; [exact E | ].
  destruct (Hall 0 (local0 [alice_socket]) eq_refl) as (l0 & Hl0 & Hs0).
  destruct (Hall 1 (local0 [bob_socket]) eq_refl) as (l1 & Hl1 & Hs1).
  unfold received_by. rewrite Hl0, Hl1, Hs0, Hs1. split; vm_compute; reflexivity.
Defined.
